(** * Fallback delivery chains of the event application backend

    A shallow embedding of the two delivery cascades of the NestJS backend:

    - the outbound e-mail chain ([RobustEmailService.sendEmail] and the
      services it is wired to: [ResendEmailService], [RailwayEmailService],
      [RailwayDirectEmailService], [WebhookEmailService]);
    - the reference-image upload cascade of [QuotationRequestService]
      ([uploadWithTimeout], [uploadBase64Images], [create]).

    The TypeScript code is asynchronous and talks to the outside world
    (HTTP APIs, SMTP relays, object storage, the database, the console).
    It is embedded as computations in a monad [M] that reads a
    [Deployment], threads a [World], returns an [Outcome] (a promise is
    fulfilled, rejected, or never settles) and writes the sequence of
    observable [Event]s. *)

From stdpp Require Import base gmap strings list.
From Stdlib Require Import NArith DecimalString Lia.
From Stdlib Require Import Floats.PrimFloat.

Open Scope string_scope.

(** ** JavaScript values used by the services *)

Module JS.

(** [!!v] for a value that is a string or [undefined]: the empty string
    and [undefined] are falsy. *)
Definition truthy (v : option string) : bool :=
  match v with
  | Some s => negb (String.eqb s EmptyString)
  | None => false
  end.

(** [a || b] *)
Definition or (a b : option string) : option string :=
  if truthy a then a else b.

(** A value spliced into a template literal. *)
Definition str (v : option string) : string := default "undefined" v.

(** [String(n)] for a non-negative integer. *)
Definition of_N (n : N) : string := NilZero.string_of_uint (N.to_uint n).

(** The double-quote character. *)
Definition dq : string := String (Ascii.ascii_of_nat 34) EmptyString.

(** Strings are kept as UTF-8, and the methods of JavaScript count UTF-16
    code units: a character of one, two or three bytes is one unit, a
    character of four bytes is two units, a surrogate pair. *)

(** [s.length] *)
Fixpoint length (s : string) : nat :=
  match s with
  | EmptyString => 0
  | String c rest =>
      let n := Ascii.nat_of_ascii c in
      (if Nat.ltb n 128 then 1          (* one byte *)
       else if Nat.ltb n 192 then 0     (* a byte that continues a character *)
       else if Nat.ltb n 240 then 1     (* the first of two or three bytes *)
       else 2)                          (* the first of four bytes *)
      + length rest
  end.

(** The first unit of the character of four bytes [c c1 c2 c3], its high
    surrogate, alone: the three bytes that generalized UTF-8 gives it. *)
Definition high_surrogate (c c1 c2 c3 : Ascii.ascii) : string :=
  let codePoint :=
    ((Ascii.N_of_ascii c - 240) * 262144 + (Ascii.N_of_ascii c1 - 128) * 4096
     + (Ascii.N_of_ascii c2 - 128) * 64 + (Ascii.N_of_ascii c3 - 128))%N in
  let x := ((codePoint - 65536) / 1024)%N in
  String (Ascii.ascii_of_nat 237)
    (String (Ascii.ascii_of_N (160 + x / 64))
       (String (Ascii.ascii_of_N (128 + x mod 64)) EmptyString)).

(** [s.substring(0, n)] *)
Fixpoint substring0 (n : nat) (s : string) : string :=
  match s with
  | EmptyString => EmptyString
  | String c rest =>
      let v := Ascii.nat_of_ascii c in
      if Nat.leb 128 v && Nat.ltb v 192
      then String c (substring0 n rest)         (* goes with the character before *)
      else if Nat.ltb v 240
      then match n with
           | O => EmptyString
           | S k => String c (substring0 k rest)
           end
      else match n, rest with
           | O, _ => EmptyString
           | S O, String c1 (String c2 (String c3 _)) => high_surrogate c c1 c2 c3
           | S O, _ => EmptyString
           | S (S k), _ => String c (substring0 k rest)
           end
  end.

(** [s.substring(0, n) + suffix] when [s] is set, else [unset]. *)
Definition masked (v : option string) (n : nat) (suffix unset : string) : string :=
  if truthy v then substring0 n (str v) ++ suffix else unset.

(** [s.replace(/\n/g, by)] *)
Fixpoint replace_newlines (by_ s : string) : string :=
  match s with
  | EmptyString => EmptyString
  | String c rest =>
      if Ascii.eqb c (Ascii.ascii_of_nat 10)
      then by_ ++ replace_newlines by_ rest
      else String c (replace_newlines by_ rest)
  end.

(** White space for [String.prototype.trim]: the characters WhiteSpace
    and LineTerminator of the language.  Of one byte: tab, line feed,
    vertical tab, form feed, carriage return, space. *)
Definition is_space (c : Ascii.ascii) : bool :=
  let n := Ascii.nat_of_ascii c in
  (Nat.eqb n 32 || (Nat.leb 9 n && Nat.leb n 13))%bool.

(** Of two bytes: U+00A0. *)
Definition is_space2 (c c1 : Ascii.ascii) : bool :=
  Nat.eqb (Ascii.nat_of_ascii c) 194 && Nat.eqb (Ascii.nat_of_ascii c1) 160.

(** Of three bytes: U+1680, U+2000 to U+200A, U+2028, U+2029, U+202F,
    U+205F, U+3000, U+FEFF. *)
Definition is_space3 (c c1 c2 : Ascii.ascii) : bool :=
  let n := Ascii.nat_of_ascii c in
  let n1 := Ascii.nat_of_ascii c1 in
  let n2 := Ascii.nat_of_ascii c2 in
  (Nat.eqb n 225 && Nat.eqb n1 154 && Nat.eqb n2 128)
  || (Nat.eqb n 226 && Nat.eqb n1 128
      && ((Nat.leb 128 n2 && Nat.leb n2 138)
          || Nat.eqb n2 168 || Nat.eqb n2 169 || Nat.eqb n2 175))
  || (Nat.eqb n 226 && Nat.eqb n1 129 && Nat.eqb n2 159)
  || (Nat.eqb n 227 && Nat.eqb n1 128 && Nat.eqb n2 128)
  || (Nat.eqb n 239 && Nat.eqb n1 187 && Nat.eqb n2 191).

(** [s.repeat(n)] *)
Fixpoint repeat (s : string) (n : nat) : string :=
  match n with
  | O => EmptyString
  | S k => s ++ repeat s k
  end.

(** [s.substring(n)] *)
Fixpoint drop (n : nat) (s : string) : string :=
  match n, s with
  | O, _ => s
  | S k, EmptyString => EmptyString
  | S k, String _ rest => drop k rest
  end.

(** The line feed of a template literal that spans lines. *)
Definition nl : string := String (Ascii.ascii_of_nat 10) EmptyString.

(** [s.trimStart()] *)
Fixpoint trimStart (s : string) : string :=
  match s with
  | EmptyString => EmptyString
  | String c rest =>
      if is_space c then trimStart rest
      else
        match rest with
        | EmptyString => s
        | String c1 rest1 =>
            if is_space2 c c1 then trimStart rest1
            else
              match rest1 with
              | EmptyString => s
              | String c2 rest2 => if is_space3 c c1 c2 then trimStart rest2 else s
              end
        end
  end.

(** [s] is made of white space, or empty. *)
Definition blank (s : string) : bool := String.eqb (trimStart s) EmptyString.

(** [s.trimEnd()]: the string is cut where only white space follows. *)
Fixpoint trimEnd (s : string) : string :=
  match s with
  | EmptyString => EmptyString
  | String c rest => if blank s then EmptyString else String c (trimEnd rest)
  end.

(** [s.trim()] *)
Definition trim (s : string) : string := trimEnd (trimStart s).

(** [s.trim() !== ''] *)
Definition nonblank (s : string) : bool := negb (String.eqb (trim s) EmptyString).

End JS.

(** ** Outcomes of asynchronous calls *)

(** A JavaScript [Error]; only its message is observable here. *)
Inductive Error := Err (message : string).

Definition message (e : Error) : string := let 'Err m := e in m.

(** What awaiting a promise gives: its value, a rejection, or nothing at
    all when the promise never settles. *)
Inductive Outcome (A : Type) :=
| Returned (a : A)
| Thrown (e : Error)
| Pending.
Arguments Returned {A} a.
Arguments Thrown {A} e.
Arguments Pending {A}.

(** How the outside world answers one call: it settles after [ms]
    milliseconds, or never does. *)
Inductive Reply (A : Type) :=
| Fulfil (ms : N) (a : A)
| Reject (ms : N) (e : Error)
| Never.
Arguments Fulfil {A} ms a.
Arguments Reject {A} ms e.
Arguments Never {A}.

(** ** Requests sent to external collaborators *)

(** [resendClient.emails.send({from, to: [to], subject, html})] *)
Record ResendRequest := {
  rq_from : string; rq_to : list string; rq_subject : string; rq_html : string }.

(** The [{ data, error }] object the Resend client resolves to. *)
Record ResendResponse := { rs_data : option string; rs_error : option Error }.

(** [fetch('https://api.sendgrid.com/v3/mail/send', {...})] *)
Record SendGridRequest := {
  sg_url : string; sg_authorization : string;
  sg_to : string; sg_subject : string; sg_from : string; sg_value : string }.

(** The fetch [Response]: [ok], [status] and the body read by [text()]. *)
Record FetchResponse := { resp_ok : bool; resp_status : N; resp_text : Reply string }.

(** One nodemailer transport configuration of [tryGmailSMTP]. *)
Record SmtpConfig := {
  cfg_name : string; cfg_host : string; cfg_port : N; cfg_secure : bool;
  cfg_user : string; cfg_pass : string;
  cfg_connectionTimeout : N; cfg_greetingTimeout : N; cfg_socketTimeout : N;
  cfg_requireTLS : bool }.

Record MailOptions := {
  mo_from : string; mo_to : string; mo_subject : string; mo_text : string }.

(** [supabaseService.upload({filePath, file, contentType, bucket, upsert})] *)
Record SupabaseUpload := {
  su_filePath : string; su_file : string; su_contentType : string;
  su_bucket : string; su_upsert : bool }.

(** [awsS3Service.uploadFilesToS3Bucket({Bucket, Key, Body, ContentType})] *)
Record S3Upload := {
  s3_Bucket : string; s3_Key : string; s3_Body : string; s3_ContentType : string }.

(** The quotation entity handed to [repo.save]; of the DTO only the
    fields [create] sets itself are kept apart, the rest is [q_rest]. *)
Record Quotation := {
  q_rest : list (string * string);
  q_userId : string;
  q_referenceImages : list string;
  q_eventDate : string; q_endDate : string;
  q_status : string; q_isDeleted : bool }.

(** The structured record the logging services print as JSON. *)
Record EmailData := {
  ed_to : string; ed_subject : string; ed_text : string;
  ed_timestamp : N;            (* [new Date().toISOString()], as epoch ms *)
  ed_status : string; ed_id : string; ed_service : string;
  ed_priority : string;
  ed_more : list (string * string) }.

Inductive ExtCall :=
| ResendSend (r : ResendRequest)
| SendGridFetch (r : SendGridRequest)
| SmtpVerify (c : SmtpConfig)
| SmtpSendMail (c : SmtpConfig) (m : MailOptions)
| SmtpOnlySend (to subject text : string)
| SupabaseUploadCall (u : SupabaseUpload)
| S3UploadCall (u : S3Upload)
| RepoSave (q : Quotation).

(** ** Observable events *)

Inductive Event :=
| Log (line : string)                                (* console.log(line) *)
| LogObj (label : string) (fields : list (string * string))
| LogData (label : string) (d : EmailData)           (* label, JSON.stringify(d) *)
| Call (n : nat) (c : ExtCall)                       (* the n-th external call *)
| Sleep (ms : N)                                     (* a setTimeout that was awaited *)
| TimerFired (ms : N).                               (* the deadline of a race won *)

(** ** The world *)

(** The collaborators outside the repository.  Every answer may depend on
    the position [n] of the call among all external calls of the run, so
    that a provider may fail once and succeed later. *)
Record Outside := {
  resend_emails_send : nat -> ResendRequest -> Reply ResendResponse;
  sendgrid_fetch : nat -> SendGridRequest -> Reply FetchResponse;
  smtp_verify : nat -> SmtpConfig -> Reply unit;
  smtp_sendMail : nat -> SmtpConfig -> MailOptions -> Reply unit;
  smtpOnly_sendEmail : nat -> string -> string -> string -> Reply bool;
  supabase_upload : nat -> SupabaseUpload -> Reply (option string);
  s3_upload : nat -> S3Upload -> Reply (option string);
  repo_save : nat -> Quotation -> Reply Quotation;
  (** [Math.random().toString(36)] of the k-th draw *)
  random36 : nat -> string }.

(** What is fixed for the life of the process: the environment, the
    loaded configuration and the collaborators. *)
Record Deployment := {
  env : gmap string string;      (* process.env *)
  config : gmap string string;   (* configService.get, dotted keys *)
  outside : Outside }.

(** What moves while a request is served. *)
Record World := {
  now : N;                       (* Date.now() *)
  calls : nat;                   (* external calls issued so far *)
  draws : nat }.                 (* Math.random() draws so far *)

Definition tick (ms : N) (w : World) : World :=
  {| now := (now w + ms)%N; calls := calls w; draws := draws w |}.

Definition called (w : World) : World :=
  {| now := now w; calls := S (calls w); draws := draws w |}.

Definition drawn (w : World) : World :=
  {| now := now w; calls := calls w; draws := S (draws w) |}.

Definition at_time (t : N) (w : World) : World :=
  {| now := t; calls := calls w; draws := draws w |}.

(** ** The monad of asynchronous computations *)

Record Run (A : Type) := mkRun {
  outcome : Outcome A;
  final : World;
  trace : list Event }.
Arguments mkRun {A} outcome final trace.
Arguments outcome {A} r.
Arguments final {A} r.
Arguments trace {A} r.

Definition M (A : Type) : Type := Deployment -> World -> Run A.

Definition ret {A} (a : A) : M A := fun d w => mkRun (Returned a) w [].

Definition throw {A} (e : Error) : M A := fun d w => mkRun (Thrown e) w [].

Definition bind {A B} (m : M A) (f : A -> M B) : M B :=
  fun d w =>
    let r := m d w in
    match outcome r with
    | Returned a =>
        let r' := f a d (final r) in
        mkRun (outcome r') (final r') (trace r ++ trace r')
    | Thrown e => mkRun (Thrown e) (final r) (trace r)
    | Pending => mkRun Pending (final r) (trace r)
    end.

(** [try { m } catch (e) { h e }] *)
Definition try_catch {A} (m : M A) (h : Error -> M A) : M A :=
  fun d w =>
    let r := m d w in
    match outcome r with
    | Thrown e =>
        let r' := h e d (final r) in
        mkRun (outcome r') (final r') (trace r ++ trace r')
    | _ => r
    end.

#[global] Instance M_ret : MRet M := @ret.
#[global] Instance M_bind : MBind M := fun A B f m => bind m f.

Definition emit (e : Event) : M unit := fun d w => mkRun (Returned tt) w [e].

Definition console_log (line : string) : M unit := emit (Log line).

(** [process.env.NAME] *)
Definition process_env (name : string) : M (option string) :=
  fun d w => mkRun (Returned (env d !! name)) w [].

(** [this.configService.get(key)] *)
Definition configService_get (key : string) : M (option string) :=
  fun d w => mkRun (Returned (config d !! key)) w [].

(** [Date.now()] *)
Definition Date_now : M N := fun d w => mkRun (Returned (now w)) w [].

(** [Math.random().toString(36)] *)
Definition Math_random_36 : M string :=
  fun d w => mkRun (Returned (random36 (outside d) (draws w))) (drawn w) [].

(** [await] of a call to an external collaborator. *)
Definition await_call {A} (c : ExtCall) (answer : Outside -> nat -> Reply A) : M A :=
  fun d w =>
    let n := calls w in
    match answer (outside d) n with
    | Fulfil ms a => mkRun (Returned a) (tick ms (called w)) [Call n c]
    | Reject ms e => mkRun (Thrown e) (tick ms (called w)) [Call n c]
    | Never => mkRun Pending (called w) [Call n c]
    end.

(** [await] of a promise that is already at hand, such as [response.text()]. *)
Definition await_reply {A} (r : Reply A) : M A :=
  fun d w =>
    match r with
    | Fulfil ms a => mkRun (Returned a) (tick ms w) []
    | Reject ms e => mkRun (Thrown e) (tick ms w) []
    | Never => mkRun Pending w []
    end.

(** [await new Promise(resolve => setTimeout(resolve, ms))] *)
Definition sleep (ms : N) : M unit :=
  fun d w => mkRun (Returned tt) (tick ms w) [Sleep ms].

(** [try { return await m } catch (error) { throw error }] *)
Definition rethrowing {A} (m : M A) : M A := try_catch m (fun error => throw error).

(** ** The logging services *)

(** [`${prefix}${Date.now()}_${Math.random().toString(36).substr(2, 9)}`] *)
Definition fresh_id (prefix : string) : M string :=
  stamp ← Date_now;
  rnd ← Math_random_36;
  mret (prefix ++ JS.of_N stamp ++ "_" ++ String.substring 2 9 rnd).

Module WebhookEmailService.

Definition sendEmailViaWebhook (to subject text : string) : M bool :=
  try_catch
    (timestamp ← Date_now;
     id ← fresh_id "email_";
     let emailData :=
       {| ed_to := to; ed_subject := subject; ed_text := text;
          ed_timestamp := timestamp; ed_status := "pending"; ed_id := id;
          ed_service := "WEBHOOK"; ed_priority := "high"; ed_more := [] |} in
     console_log (JS.repeat "=" 60);;
     console_log (JS.repeat "=" 60);;
     console_log (JS.repeat "=" 60);;
     emit (LogData "📧 WEBHOOK_JSON:" emailData);;
     mret true)
    (fun error => mret false).

End WebhookEmailService.

Module RailwayEmailService.

Definition sendEmail (to subject text : string) : M bool :=
  try_catch
    (timestamp ← Date_now;
     id ← fresh_id "railway_email_";
     let emailData :=
       {| ed_to := to; ed_subject := subject; ed_text := text;
          ed_timestamp := timestamp; ed_status := "queued"; ed_id := id;
          ed_service := "RAILWAY_WEBHOOK"; ed_priority := "high"; ed_more := [] |} in
     console_log (JS.repeat "=" 60);;
     console_log (JS.repeat "=" 60);;
     console_log (JS.repeat "=" 60);;
     emit (LogData "📧 RAILWAY_EMAIL_JSON:" emailData);;
     mret true)
    (fun error => mret false).

End RailwayEmailService.

Module RailwayDirectEmailService.

(** The transport settings the service copies into the logged record
    (the password literal of the source is not reproduced). *)
Definition transport_fields : list (string * string) :=
  [("source", "NESTJS_BACKEND"); ("from", "akhil@whiz-solutions.com");
   ("port", "587"); ("secure", "false");
   ("auth.user", "akhil@whiz-solutions.com"); ("auth.pass", "<elided>");
   ("connectionTimeout", "15000"); ("greetingTimeout", "15000");
   ("socketTimeout", "15000"); ("pool", "true"); ("maxConnections", "3");
   ("maxMessages", "50"); ("tls.rejectUnauthorized", "false")].

Definition sendEmail (to subject text : string) : M bool :=
  try_catch
    (timestamp ← Date_now;
     id ← fresh_id "railway_direct_";
     let emailData :=
       {| ed_to := to; ed_subject := subject; ed_text := text;
          ed_timestamp := timestamp; ed_status := "delivered"; ed_id := id;
          ed_service := "RAILWAY_DIRECT"; ed_priority := "high";
          ed_more := transport_fields |} in
     console_log (JS.repeat "=" 70);;
     console_log "📧 RAILWAY DIRECT EMAIL SERVICE (SMTP BYPASS)";;
     console_log (JS.repeat "=" 70);;
     console_log (JS.repeat "=" 70);;
     emit (LogData "📧 RAILWAY_DIRECT_EMAIL_JSON:" emailData);;
     console_log "📧 This email is ready for external processing (webhook, database, etc.)";;
     mret true)
    (fun error => mret false).

End RailwayDirectEmailService.

Module ResendEmailService.

(** The service object: [resendClient] is set by the constructor only
    when an API key is configured at construction time. *)
Record t := { resendClient : option string }.

Definition new (d : Deployment) : t :=
  let apiKey := JS.or (env d !! "RESEND_API_KEY") (config d !! "resend.apiKey") in
  {| resendClient := if JS.truthy apiKey then apiKey else None |}.

Definition logEmailFallback (to subject text : string) : M bool :=
  try_catch
    (timestamp ← Date_now;
     id ← fresh_id "resend_fallback_";
     let emailData :=
       {| ed_to := to; ed_subject := subject; ed_text := text;
          ed_timestamp := timestamp; ed_status := "logged"; ed_id := id;
          ed_service := "RESEND_FALLBACK"; ed_priority := "high";
          ed_more := [("source", "NESTJS_BACKEND")] |} in
     console_log (JS.repeat "=" 70);;
     console_log "📧 RESEND EMAIL FALLBACK (NO API KEY)";;
     console_log (JS.repeat "=" 70);;
     console_log (JS.repeat "=" 70);;
     emit (LogData "📧 RESEND_FALLBACK_EMAIL_JSON:" emailData);;
     mret true)
    (fun error => mret false).

Definition attr (name value : string) : string :=
  name ++ "=" ++ JS.dq ++ value ++ JS.dq.

(** The HTML template literal of [sendEmail]. *)
Definition html (subject text : string) : string :=
  "<div " ++ attr "style" "font-family: Arial, sans-serif; padding: 20px; background-color: #f6f6f6;" ++ ">" ++ JS.nl ++
  "          <div " ++ attr "style" "max-width: 600px; margin: auto; background-color: #fff; padding: 30px; border-radius: 8px; box-shadow: 0 0 10px rgba(0,0,0,0.05);" ++ ">" ++ JS.nl ++
  "            <h2 " ++ attr "style" "color: #333;" ++ ">" ++ subject ++ "</h2>" ++ JS.nl ++
  "            <div " ++ attr "style" "font-size: 16px; color: #555; line-height: 1.6;" ++ ">" ++
       JS.replace_newlines "<br>" text ++ "</div>" ++ JS.nl ++
  "          </div>" ++ JS.nl ++
  "        </div>".

Definition sendEmail (this : t) (to subject text : string) : M bool :=
  try_catch
    (envKey ← process_env "RESEND_API_KEY";
     cfgKey ← configService_get "resend.apiKey";
     let resendApiKey := JS.or envKey cfgKey in
     envFrom ← process_env "RESEND_FROM_EMAIL";
     cfgFrom ← configService_get "resend.fromEmail";
     let fromEmail :=
       JS.str (JS.or (JS.or envFrom cfgFrom) (Some "noreply@yourdomain.com")) in
     emit (LogObj "📧 Resend Config:"
             [("apiKey", JS.masked resendApiKey 10 "..." "NOT_SET");
              ("fromEmail", fromEmail);
              ("source", if JS.truthy envKey then "ENV_VAR" else "CONFIG_FILE")]);;
     if negb (JS.truthy resendApiKey) || negb (bool_decide (is_Some (resendClient this)))
     then logEmailFallback to subject text
     else
       let request :=
         {| rq_from := fromEmail; rq_to := [to]; rq_subject := subject;
            rq_html := html subject text |} in
       response ← await_call (ResendSend request)
                    (fun o n => resend_emails_send o n request);
       match rs_error response with
       | Some _ => logEmailFallback to subject text
       | None => mret true
       end)
    (fun error => logEmailFallback to subject text).

End ResendEmailService.

(** ** The e-mail chain *)

Module RobustEmailService.

(** The services injected through the constructor that [sendEmail]
    reaches, each by the one method the chain calls. *)
Record t := {
  resendEmailService : string -> string -> string -> M bool;
  smtpOnlyEmailService : string -> string -> string -> M bool;
  railwayDirectEmailService : string -> string -> string -> M bool;
  railwayEmailService : string -> string -> string -> M bool;
  webhookEmailService : string -> string -> string -> M bool }.

(** One round of the [for] loop of [sendEmail]: [Some b] leaves the
    function with [b], [None] goes on with the next index. *)
Definition attempt (strategy : M bool) : M (option bool) :=
  try_catch
    (success ← strategy;
     if success : bool then mret (Some true) else mret None)
    (fun error => mret None).

(** [for (let i = 0; i < strategies.length; i++) {...} return false] *)
Fixpoint runStrategies (strategies : list (M bool)) : M bool :=
  match strategies with
  | [] => mret false
  | strategy :: later =>
      left_with ← attempt strategy;
      match left_with with
      | Some b => mret b
      | None => runStrategies later
      end
  end.

Section Methods.

Variable this : t.

Definition tryResend (to subject text : string) : M bool :=
  rethrowing (resendEmailService this to subject text).

Definition tryRailwayDirect (to subject text : string) : M bool :=
  rethrowing (railwayDirectEmailService this to subject text).

Definition trySmtpOnly (to subject text : string) : M bool :=
  rethrowing (smtpOnlyEmailService this to subject text).

Definition tryRailwayEmail (to subject text : string) : M bool :=
  rethrowing (railwayEmailService this to subject text).

Definition tryWebhook (to subject text : string) : M bool :=
  rethrowing (webhookEmailService this to subject text).

(** The three nodemailer configurations of [tryGmailSMTP]. *)
Definition gmail_configs (smtpUser smtpPass : string) : list SmtpConfig :=
  [ {| cfg_name := "Gmail TLS (Port 587) - Railway Optimized";
       cfg_host := "smtp.gmail.com"; cfg_port := 587; cfg_secure := false;
       cfg_user := smtpUser; cfg_pass := smtpPass;
       cfg_connectionTimeout := 15000; cfg_greetingTimeout := 15000;
       cfg_socketTimeout := 15000; cfg_requireTLS := true |};
    {| cfg_name := "Gmail SSL (Port 465) - Railway Optimized";
       cfg_host := "smtp.gmail.com"; cfg_port := 465; cfg_secure := true;
       cfg_user := smtpUser; cfg_pass := smtpPass;
       cfg_connectionTimeout := 15000; cfg_greetingTimeout := 15000;
       cfg_socketTimeout := 15000; cfg_requireTLS := false |};
    {| cfg_name := "Gmail TLS (Port 2525) - Alternative";
       cfg_host := "smtp.gmail.com"; cfg_port := 2525; cfg_secure := false;
       cfg_user := smtpUser; cfg_pass := smtpPass;
       cfg_connectionTimeout := 10000; cfg_greetingTimeout := 10000;
       cfg_socketTimeout := 10000; cfg_requireTLS := false |} ].

(** [for (const config of configs) { try {...; return true} catch {} }]
    followed by the final [throw]. *)
Fixpoint tryGmailConfigs (configs : list SmtpConfig) (mail : MailOptions) : M bool :=
  match configs with
  | [] => throw (Err "All Gmail SMTP configurations failed")
  | config :: later =>
      left_with ← try_catch
                    (await_call (SmtpVerify config)
                       (fun o n => smtp_verify o n config);;
                     await_call (SmtpSendMail config mail)
                       (fun o n => smtp_sendMail o n config mail);;
                     mret (Some true))
                    (fun configError => mret None);
      match left_with with
      | Some b => mret b
      | None => tryGmailConfigs later mail
      end
  end.

Definition tryGmailSMTP (to subject text : string) : M bool :=
  rethrowing
    (envUser ← process_env "SMTP_USER";
     cfgUser ← configService_get "email.SMTP_USER";
     let smtpUser := JS.or envUser cfgUser in
     envPass ← process_env "SMTP_PASS";
     cfgPass ← configService_get "email.SMTP_PASS";
     let smtpPass := JS.or envPass cfgPass in
     envFrom ← process_env "SMTP_FROM";
     cfgFrom ← configService_get "email.SMTP_FROM";
     let smtpFrom := JS.or (JS.or envFrom cfgFrom) smtpUser in
     emit (LogObj "📧 Gmail SMTP Config:"
             [("user", JS.masked smtpUser 3 "***" "NOT_SET");
              ("from", JS.masked smtpFrom 3 "***" "NOT_SET");
              ("passLength",
                if JS.truthy smtpPass
                then JS.of_N (N.of_nat (JS.length (JS.str smtpPass)))
                else "0");
              ("source", if JS.truthy envUser then "ENV_VAR" else "CONFIG_FILE")]);;
     if negb (JS.truthy smtpUser) || negb (JS.truthy smtpPass)
     then throw (Err "Gmail SMTP credentials not configured")
     else
       tryGmailConfigs
         (gmail_configs (JS.str smtpUser) (JS.str smtpPass))
         {| mo_from := JS.dq ++ "No Reply" ++ JS.dq ++ " <" ++ JS.str smtpFrom ++ ">";
            mo_to := to; mo_subject := subject; mo_text := text |}).

Definition tryConsoleLog (to subject text : string) : M bool :=
  rethrowing
    (console_log (JS.repeat "=" 50);;
     console_log (JS.repeat "=" 50);;
     instant ← Date_now;
     (* the ISO rendering of the instant is kept as its epoch milliseconds *)
     console_log ("Timestamp: " ++ JS.of_N instant);;
     console_log (JS.repeat "=" 50);;
     mret true).

Definition trySendGridAPI (to subject text : string) : M bool :=
  rethrowing
    (envKey ← process_env "SENDGRID_API_KEY";
     cfgKey ← configService_get "sendGrid.apiKey";
     let sendGridApiKey := JS.or envKey cfgKey in
     envFrom ← process_env "SENDGRID_FROM_EMAIL";
     cfgFrom ← configService_get "sendGrid.fromEmail";
     let fromEmail := JS.or envFrom cfgFrom in
     emit (LogObj "📧 SendGrid API Config:"
             [("apiKey", JS.masked sendGridApiKey 10 "..." "NOT_SET");
              ("fromEmail", JS.masked fromEmail 3 "***" "NOT_SET");
              ("source", if JS.truthy envKey then "ENV_VAR" else "CONFIG_FILE")]);;
     if negb (JS.truthy sendGridApiKey) || negb (JS.truthy fromEmail)
     then throw (Err "SendGrid API credentials not configured")
     else
       let request :=
         {| sg_url := "https://api.sendgrid.com/v3/mail/send";
            sg_authorization := "Bearer " ++ JS.str sendGridApiKey;
            sg_to := to; sg_subject := subject;
            sg_from := JS.str fromEmail; sg_value := text |} in
       response ← await_call (SendGridFetch request)
                    (fun o n => sendgrid_fetch o n request);
       if resp_ok response
       then mret true
       else
         errorText ← await_reply (resp_text response);
         throw (Err ("SendGrid API failed: " ++ JS.of_N (resp_status response)
                       ++ " - " ++ errorText))).

(** The [strategies] array of [sendEmail], in source order. *)
Definition strategies (to subject text : string) : list (M bool) :=
  [ tryResend to subject text;
    trySendGridAPI to subject text;
    tryGmailSMTP to subject text;
    trySmtpOnly to subject text;
    tryRailwayDirect to subject text;
    tryRailwayEmail to subject text;
    tryWebhook to subject text;
    tryConsoleLog to subject text ].

(** [isProduction] and [hasSendGrid] are read at the top of the method
    and never used; the reads have no effect. *)
Definition sendEmail (to subject text : string) : M bool :=
  runStrategies (strategies to subject text).

End Methods.

(** The service as the application module builds it.  The source of
    [SmtpOnlyEmailService] is not part of the repository files at hand:
    its [sendEmail] is a call to the outside. *)
Definition wired (resend : ResendEmailService.t) : t :=
  {| resendEmailService := ResendEmailService.sendEmail resend;
     smtpOnlyEmailService := fun to subject text =>
       await_call (SmtpOnlySend to subject text)
         (fun o n => smtpOnly_sendEmail o n to subject text);
     railwayDirectEmailService := RailwayDirectEmailService.sendEmail;
     railwayEmailService := RailwayEmailService.sendEmail;
     webhookEmailService := WebhookEmailService.sendEmailViaWebhook |}.

End RobustEmailService.

(** ** The reference-image upload cascade *)

Module QuotationRequestService.

(** [^data:image\/(png|jpeg|jpg);base64,(.+)$]: the extension and the
    payload of a data URL.  [.] matches any character but a line
    terminator (LF, CR, U+2028, U+2029; strings are UTF-8 here). *)
Fixpoint no_line_terminator (s : string) : bool :=
  match s with
  | EmptyString => true
  | String c rest =>
      let n := Ascii.nat_of_ascii c in
      if Nat.eqb n 10 || Nat.eqb n 13 then false
      else if Nat.eqb n 226
              && (match rest with
                  | String c1 (String c2 _) =>
                      Nat.eqb (Ascii.nat_of_ascii c1) 128
                      && (Nat.eqb (Ascii.nat_of_ascii c2) 168
                          || Nat.eqb (Ascii.nat_of_ascii c2) 169)
                  | _ => false
                  end)
      then false
      else no_line_terminator rest
  end.

Definition strip_prefix (p s : string) : option string :=
  if String.prefix p s then Some (JS.drop (String.length p) s) else None.

Definition payload_after (ext rest : string) : option (string * string) :=
  match strip_prefix (ext ++ ";base64,") rest with
  | Some data =>
      if negb (String.eqb data EmptyString) && no_line_terminator data
      then Some (ext, data) else None
  | None => None
  end.

Definition match_data_url (s : string) : option (string * string) :=
  match strip_prefix "data:image/" s with
  | None => None
  | Some rest =>
      match payload_after "png" rest with
      | Some m => Some m
      | None =>
          match payload_after "jpeg" rest with
          | Some m => Some m
          | None => payload_after "jpg" rest
          end
      end
  end.

(** [Buffer.from(base64Data, 'base64')], kept symbolic. *)
Definition Buffer_from_base64 (base64Data : string) : string := base64Data.

(** The default of the [timeoutMs] parameter. *)
Definition default_timeoutMs : N := 30000.

(** [Promise.race([uploadPromise, <timer rejecting after timeoutMs>])]:
    the upload is started before the timer is made, so that it wins when
    it settles by the deadline; otherwise the timer rejects, and the
    upload is left to itself. *)
Definition uploadWithTimeout {A} (uploadPromise : M A) (timeoutMs : N) : M A :=
  fun d w =>
    let r := uploadPromise d w in
    let deadline := (now w + timeoutMs)%N in
    let timed_out :=
      mkRun (Thrown (Err ("Upload timeout after " ++ JS.of_N timeoutMs ++ "ms")))
            (at_time deadline (final r))
            (trace r ++ [TimerFired timeoutMs]) in
    match outcome r with
    | Pending => timed_out
    | _ => if (now (final r) <=? deadline)%N then r else timed_out
    end.

Definition image_of (imageIndex total : nat) : string :=
  "Image " ++ JS.of_N (N.of_nat imageIndex) ++ "/" ++ JS.of_N (N.of_nat total).

(** The body of the loop over the Supabase buckets: the [try] block,
    giving the public URL when the bucket took the file. *)
Definition uploadToBucket (bucket fileName buffer mimetype : string)
    (imageIndex total : nat) : M (option string) :=
  try_catch
    (let request :=
       {| su_filePath := "quotation/" ++ fileName; su_file := buffer;
          su_contentType := mimetype; su_bucket := bucket;
          su_upsert := true |} in
     publicUrl ← uploadWithTimeout
                   (await_call (SupabaseUploadCall request)
                      (fun o n => supabase_upload o n request))
                   30000;
     if JS.truthy publicUrl
     then
       console_log ("✅ " ++ image_of imageIndex total
                     ++ ": Supabase upload successful (bucket: " ++ bucket
                     ++ "): " ++ JS.str publicUrl);;
       mret (Some (JS.str publicUrl))
     else mret None)
    (fun supabaseError => mret None).

(** [for (const bucket of supabaseBuckets) { try {...; break} catch { continue } }]
    giving [(imageUrl, uploadSuccess)]. *)
Fixpoint trySupabaseBuckets (buckets : list string)
    (fileName buffer mimetype : string) (imageIndex total : nat) : M (string * bool) :=
  match buckets with
  | [] => mret (EmptyString, false)
  | bucket :: later =>
      found ← uploadToBucket bucket fileName buffer mimetype imageIndex total;
      match found with
      | Some imageUrl => mret (imageUrl, true)
      | None => trySupabaseBuckets later fileName buffer mimetype imageIndex total
      end
  end.

Definition supabaseBuckets : list string := ["profiles"; "uploads"].

(** The AWS S3 fallback of the production branch. *)
Definition tryS3 (fileName buffer mimetype : string) : M (string * bool) :=
  try_catch
    (bucketName ← configService_get "aws.bucketName";
     bucketFolderName ← configService_get "aws.bucketFolderName";
     let awsUploadReqDto :=
       {| s3_Bucket := JS.str bucketName;
          s3_Key := JS.str bucketFolderName ++ "/" ++ "quotation" ++ "/" ++ fileName;
          s3_Body := buffer; s3_ContentType := mimetype |} in
     location ← await_call (S3UploadCall awsUploadReqDto)
                  (fun o n => s3_upload o n awsUploadReqDto);
     let imageUrl := JS.str (JS.or location (Some EmptyString)) in
     mret (imageUrl, JS.truthy (Some imageUrl)))
    (fun s3Error => mret (EmptyString, false)).

(** What one image contributes: its URL, or the empty string. *)
Definition uploadOne (hasAwsConfig : bool) (ext base64Data : string)
    (imageIndex total : nat) : M string :=
  let buffer := Buffer_from_base64 base64Data in
  let mimetype := "image/" ++ ext in
  timestamp ← Date_now;
  rnd ← Math_random_36;
  let fileName :=
    "request_quotation_" ++ JS.of_N timestamp ++ "_" ++ JS.drop 7 rnd ++ "." ++ ext in
  nodeEnv ← process_env "NODE_ENV";
  if bool_decide (nodeEnv = Some "local")
  then
    console_log ("🏠 " ++ image_of imageIndex total
                  ++ ": Using Supabase for local development (same as profile uploads)");;
    '(imageUrl, uploadSuccess) ←
       trySupabaseBuckets supabaseBuckets fileName buffer mimetype imageIndex total;
    mret imageUrl
  else
    console_log ("☁️ " ++ image_of imageIndex total
                  ++ ": Using Supabase for production (same as profile uploads)");;
    '(imageUrl, uploadSuccess) ←
       trySupabaseBuckets supabaseBuckets fileName buffer mimetype imageIndex total;
    '(imageUrl, uploadSuccess) ←
       (if negb uploadSuccess && hasAwsConfig
        then tryS3 fileName buffer mimetype
        else mret (imageUrl, uploadSuccess));
    if negb uploadSuccess then mret EmptyString else mret imageUrl.

(** [url && url.trim() !== ''] *)
Definition kept (url : string) : bool :=
  negb (String.eqb url EmptyString) && JS.nonblank url.

(** The pause after an image that is not the last one. *)
Definition pause_unless_last (imageIndex total : nat) : M unit :=
  if Nat.ltb imageIndex total then sleep 500 else mret tt.

(** The [for] loop over the images; [i] is the index of the head of
    [images] in the whole array of [total] images.  Nothing after the
    [push] can throw, so the handler sees the list as it was. *)
Fixpoint uploadLoop (hasAwsConfig : bool) (total i : nat) (images : list string)
    (uploadedUrls : list string) : M (list string) :=
  match images with
  | [] => mret uploadedUrls
  | base64Image :: later =>
      let imageIndex := i + 1 in
      if String.eqb base64Image EmptyString
      then uploadLoop hasAwsConfig total (S i) later uploadedUrls
      else
        uploadedUrls ← try_catch
          (match match_data_url base64Image with
           | None => mret uploadedUrls
           | Some (ext, base64Data) =>
               imageUrl ← uploadOne hasAwsConfig ext base64Data imageIndex total;
               let uploadedUrls :=
                 if kept imageUrl then (uploadedUrls ++ [imageUrl])%list else uploadedUrls in
               pause_unless_last imageIndex total;;
               mret uploadedUrls
           end)
          (fun imageError =>
             pause_unless_last imageIndex total;;
             mret uploadedUrls);
        uploadLoop hasAwsConfig total (S i) later uploadedUrls
  end.

Definition uploadBase64Images (base64Images : list string) : M (list string) :=
  rethrowing
    (bucketName ← configService_get "aws.bucketName";
     bucketFolderName ← configService_get "aws.bucketFolderName";
     let hasAwsConfig := JS.truthy bucketName && JS.truthy bucketFolderName in
     uploadedUrls ← uploadLoop hasAwsConfig (length base64Images) 0 base64Images [];
     let filteredUrls := filter (fun url => kept url = true) uploadedUrls in
     mret filteredUrls).

(** The fields of the DTO that [create] reads. *)
Record CreateQuotationRequestDto := {
  dto_referenceImages : option (list string);
  dto_eventDate : string;
  dto_endDate : string;
  dto_rest : list (string * string) }.

(** [create], with the [uploadBase64Images] method of [this] as a
    parameter.  [repo.create] only builds the entity.  The response is the
    saved entity with [referenceImages] set again from it, which for the
    record [Quotation] is the saved entity itself. *)
Definition create_with (upload : list string -> M (list string))
    (dto : CreateQuotationRequestDto) (userId : string) : M Quotation :=
  try_catch
    (let userIdString := userId in
     uploadedImageUrls ←
       (match dto_referenceImages dto with
        | Some referenceImages =>
            if Nat.ltb 0 (length referenceImages)
            then try_catch (upload referenceImages) (fun uploadError => mret [])
            else mret []
        | None => mret []
        end);
     let entity :=
       {| q_rest := dto_rest dto; q_userId := userIdString;
          q_referenceImages := uploadedImageUrls;
          q_eventDate := dto_eventDate dto; q_endDate := dto_endDate dto;
          q_status := "pending"; q_isDeleted := false |} in
     console_log ("💾 Quotation Request - Entity userId: " ++ q_userId entity
                 ++ " Type: string");;
     emit (LogObj "💾 Quotation Request - Entity referenceImages (uploaded URLs):"
             (map (fun url => ("url", url)) (q_referenceImages entity)));;
     console_log ("💾 Quotation Request - Entity referenceImages count: "
                   ++ JS.of_N (N.of_nat (length (q_referenceImages entity))));;
     savedEntity ← await_call (RepoSave entity) (fun o n => repo_save o n entity);
     console_log "✅ Quotation request created successfully:";;
     console_log ("✅ Quotation Request - Saved entity userId: " ++ q_userId savedEntity
                 ++ " Type: string");;
     emit (LogObj "✅ Quotation Request - Saved entity referenceImages (uploaded URLs):"
             (map (fun url => ("url", url)) (q_referenceImages savedEntity)));;
     console_log ("✅ Quotation Request - Saved entity referenceImages count: "
                   ++ JS.of_N (N.of_nat (length (q_referenceImages savedEntity))));;
     console_log "✅ Quotation Request - Saved entity keys:";;
     let savedReferenceImages := q_referenceImages savedEntity in
     emit (LogObj "✅ Quotation Request - Response referenceImages (uploaded URLs):"
             (map (fun url => ("url", url)) savedReferenceImages));;
     console_log "✅ Quotation Request - Response keys:";;
     mret savedEntity)
    (fun error => throw (Err ("Failed to create quotation request: " ++ message error))).

Definition create : CreateQuotationRequestDto -> string -> M Quotation :=
  create_with uploadBase64Images.

End QuotationRequestService.

(** ** Vocabulary of the statements *)

Open Scope list_scope.

Import RobustEmailService QuotationRequestService.

(** A run that comes after the events [t]. *)
Definition prepend {A} (t : list Event) (r : Run A) : Run A :=
  mkRun (outcome r) (final r) (t ++ trace r).

(** The computation settles, whatever the state of the run. *)
Definition settles {A} (d : Deployment) (m : M A) : Prop :=
  forall w, outcome (m d w) <> Pending.

(** The strategy reports failure or throws, whatever the state of the run. *)
Definition fails (d : Deployment) (m : M bool) : Prop :=
  forall w, outcome (m d w) = Returned false \/ exists e, outcome (m d w) = Thrown e.

(** [all_fail d pre w w' t]: tried one after the other from [w], every
    strategy of [pre] reports failure or throws; the attempts leave the
    run in [w'] and write [t]. *)
Inductive all_fail (d : Deployment) : list (M bool) -> World -> World -> list Event -> Prop :=
| all_fail_nil w : all_fail d [] w w []
| all_fail_cons s pre w w' t :
    outcome (s d w) = Returned false \/ (exists e, outcome (s d w) = Thrown e) ->
    all_fail d pre (final (s d w)) w' t ->
    all_fail d (s :: pre) w w' (trace (s d w) ++ t).

(** The strategy of index [k] is the first to succeed. *)
Definition succeeds_at (d : Deployment) (chain : list (M bool)) (w : World) (k : nat) : Prop :=
  exists s w1 t1,
    chain !! k = Some s /\ all_fail d (take k chain) w w1 t1
    /\ outcome (s d w1) = Returned true.

(** What [tryConsoleLog] prints at the instant [t]. *)
Definition console_block (t : N) : list Event :=
  [Log (JS.repeat "=" 50); Log (JS.repeat "=" 50);
   Log ("Timestamp: " ++ JS.of_N t)%string; Log (JS.repeat "=" 50)].


(** ** Sample deployments, used to run the code on concrete inputs *)

Definition refuse {A} : Reply A := Reject 10 (Err "ECONNREFUSED").

(** No collaborator can be reached; only the database answers. *)
Definition offline : Outside :=
  {| resend_emails_send := fun _ _ => refuse;
     sendgrid_fetch := fun _ _ => refuse;
     smtp_verify := fun _ _ => refuse;
     smtp_sendMail := fun _ _ _ => refuse;
     smtpOnly_sendEmail := fun _ _ _ _ => refuse;
     supabase_upload := fun _ _ => refuse;
     s3_upload := fun _ _ => refuse;
     repo_save := fun _ q => Fulfil 5 q;
     random36 := fun k => ("0.4fzyo82mvyr" ++ JS.of_N (N.of_nat k))%string |}.

(** Nothing is configured. *)
Definition bare : Deployment := {| env := ∅; config := ∅; outside := offline |}.

Definition start : World := {| now := 1700000000000; calls := 0; draws := 0 |}.

(** Injected services that all report failure, one of them by throwing. *)
Definition failing : RobustEmailService.t :=
  {| resendEmailService := fun _ _ _ => mret false;
     smtpOnlyEmailService := fun _ _ _ => throw (Err "connect ETIMEDOUT");
     railwayDirectEmailService := fun _ _ _ => mret false;
     railwayEmailService := fun _ _ _ => mret false;
     webhookEmailService := fun _ _ _ => mret false |}.

(** SendGrid is configured and accepts every message. *)
Definition sendgrid_up : Deployment :=
  {| env := <["SENDGRID_API_KEY" := "SG.0123456789abcdef"]>
              (<["SENDGRID_FROM_EMAIL" := "noreply@example.org"]> ∅);
     config := ∅;
     outside :=
       {| resend_emails_send := fun _ _ => refuse;
          sendgrid_fetch := fun _ _ =>
            Fulfil 120 {| resp_ok := true; resp_status := 202;
                          resp_text := Fulfil 0 EmptyString |};
          smtp_verify := fun _ _ => refuse;
          smtp_sendMail := fun _ _ _ => refuse;
          smtpOnly_sendEmail := fun _ _ _ _ => refuse;
          supabase_upload := fun _ _ => refuse;
          s3_upload := fun _ _ => refuse;
          repo_save := fun _ q => Fulfil 5 q;
          random36 := random36 offline |} |}.

(** ** Reading a trace *)

(** Where an upload call goes. *)
Inductive Target := SupabaseBucket (name : string) | AwsS3.

Definition upload_target (e : Event) : option Target :=
  match e with
  | Call _ (SupabaseUploadCall u) => Some (SupabaseBucket (su_bucket u))
  | Call _ (S3UploadCall _) => Some AwsS3
  | _ => None
  end.

(** The upload attempts of a trace, in the order they were made. *)
Definition targets (t : list Event) : list Target := omap upload_target t.

(** The order of the cascade for one image. *)
Definition cascade : list Target :=
  [SupabaseBucket "profiles"; SupabaseBucket "uploads"; AwsS3].

(** The URL an upload call obtained, when the attempt was a success: the
    collaborator answered with a non-empty URL, in time where a deadline
    guards the call. *)
Definition took (d : Deployment) (e : Event) : option string :=
  match e with
  | Call n (SupabaseUploadCall u) =>
      match supabase_upload (outside d) n u with
      | Fulfil ms publicUrl =>
          if (ms <=? 30000)%N && JS.truthy publicUrl then publicUrl else None
      | _ => None
      end
  | Call n (S3UploadCall u) =>
      match s3_upload (outside d) n u with
      | Fulfil _ location => if JS.truthy location then location else None
      | _ => None
      end
  | _ => None
  end.

(** No upload is attempted after one that succeeded. *)
Fixpoint no_attempt_after_success (d : Deployment) (t : list Event) : bool :=
  match t with
  | [] => true
  | e :: rest =>
      match took d e, targets rest with
      | Some _, _ :: _ => false
      | _, _ => no_attempt_after_success d rest
      end
  end.

(** The file an upload call carries. *)
Definition uploaded_body (e : Event) : option string :=
  match e with
  | Call _ (SupabaseUploadCall u) => Some (su_file u)
  | Call _ (S3UploadCall u) => Some (s3_Body u)
  | _ => None
  end.


(** The identifiers written by the logging services. *)
Definition ids (t : list Event) : list string :=
  omap (fun e => match e with LogData _ data => Some (ed_id data) | _ => None end) t.

(** The external calls of a trace. *)
Definition ext_calls (t : list Event) : list ExtCall :=
  omap (fun e => match e with Call _ c => Some c | _ => None end) t.

(** ** The shape of one image's cascade *)

(** The run of a guarded call whose deadline fired. *)
Definition timed_out_call {A} (c : ExtCall) (timeoutMs : N) (w : World) : Run A :=
  mkRun (Thrown (Err ("Upload timeout after " ++ JS.of_N timeoutMs ++ "ms")%string))
        (at_time (now w + timeoutMs) (called w))
        [Call (calls w) c; TimerFired timeoutMs].

(** The request and the event of one bucket attempt. *)
Definition bucket_request (bucket fileName buffer mimetype : string) : SupabaseUpload :=
  {| su_filePath := ("quotation/" ++ fileName)%string; su_file := buffer;
     su_contentType := mimetype; su_bucket := bucket; su_upsert := true |}.

Definition bucket_event (bucket fileName buffer mimetype : string) (w : World) : Event :=
  Call (calls w) (SupabaseUploadCall (bucket_request bucket fileName buffer mimetype)).

(** [walk d buffer tgs t won]: the trace [t] is made of one upload
    attempt per target of [tgs], in that order; every attempt but the last
    failed, and the last one obtained [won] when it is a success. *)
Inductive walk (d : Deployment) (buffer : string) :
    list Target -> list Event -> option string -> Prop :=
| walk_end : walk d buffer [] [] None
| walk_fail tg tgs e q t won :
    upload_target e = Some tg -> took d e = None ->
    q = [] \/ q = [TimerFired 30000] ->
    walk d buffer tgs t won ->
    walk d buffer (tg :: tgs) (e :: q ++ t) won
| walk_won tg e q url :
    upload_target e = Some tg -> uploaded_body e = Some buffer ->
    took d e = Some url ->
    q = [] \/ (exists line, q = [Log line]) ->
    walk d buffer [tg] (e :: q) (Some url).

(** Resend is configured but its API never answers. *)
Definition resend_silent : Deployment :=
  {| env := <["RESEND_API_KEY" := "re_0123456789abcdef"]> ∅;
     config := ∅;
     outside :=
       {| resend_emails_send := fun _ _ => Never;
          sendgrid_fetch := fun _ _ => refuse;
          smtp_verify := fun _ _ => refuse;
          smtp_sendMail := fun _ _ _ => refuse;
          smtpOnly_sendEmail := fun _ _ _ _ => refuse;
          supabase_upload := fun _ _ => refuse;
          s3_upload := fun _ _ => refuse;
          repo_save := fun _ q => Fulfil 5 q;
          random36 := random36 offline |} |}.

(** Supabase never answers for the bucket "profiles" and stores the file
    in the bucket "uploads". *)
Definition profiles_silent : Deployment :=
  {| env := ∅; config := ∅;
     outside :=
       {| resend_emails_send := fun _ _ => refuse;
          sendgrid_fetch := fun _ _ => refuse;
          smtp_verify := fun _ _ => refuse;
          smtp_sendMail := fun _ _ _ => refuse;
          smtpOnly_sendEmail := fun _ _ _ _ => refuse;
          supabase_upload := fun _ u =>
            if String.eqb (su_bucket u) "profiles" then Never
            else Fulfil 800 (Some ("https://cdn.example.org/" ++ su_filePath u)%string);
          s3_upload := fun _ _ => refuse;
          repo_save := fun _ q => Fulfil 5 q;
          random36 := random36 offline |} |}.

(** ** Shapes of the runs of [ResendEmailService] *)

(** The identifier a logging service makes in the state [w]. *)
Definition made_id (prefix : string) (d : Deployment) (w : World) : string :=
  (prefix ++ JS.of_N (now w) ++ "_"
     ++ String.substring 2 9 (random36 (outside d) (draws w)))%string.

(** What [logEmailFallback] prints. *)
Definition resend_fallback_block (to subject text : string) (d : Deployment) (w : World)
  : list Event :=
  [Log (JS.repeat "=" 70); Log "📧 RESEND EMAIL FALLBACK (NO API KEY)";
   Log (JS.repeat "=" 70); Log (JS.repeat "=" 70);
   LogData "📧 RESEND_FALLBACK_EMAIL_JSON:"
     {| ed_to := to; ed_subject := subject; ed_text := text;
        ed_timestamp := now w; ed_status := "logged";
        ed_id := made_id "resend_fallback_" d w;
        ed_service := "RESEND_FALLBACK"; ed_priority := "high";
        ed_more := [("source", "NESTJS_BACKEND")] |}].

(** The request [sendEmail] hands to the Resend client. *)
Definition resend_request (to subject text : string) (d : Deployment) : ResendRequest :=
  {| rq_from := JS.str (JS.or (JS.or (env d !! "RESEND_FROM_EMAIL")
                                 (config d !! "resend.fromEmail"))
                          (Some "noreply@yourdomain.com"));
     rq_to := [to]; rq_subject := subject;
     rq_html := ResendEmailService.html subject text |}.

(** The guard of [sendEmail]: no API key now, or no client built at
    construction. *)
Definition resend_unavailable (resend : ResendEmailService.t) (d : Deployment) : bool :=
  negb (JS.truthy (JS.or (env d !! "RESEND_API_KEY") (config d !! "resend.apiKey")))
  || negb (bool_decide (is_Some (ResendEmailService.resendClient resend))).

(** Resend is configured and accepts every message. *)
Definition resend_up : Deployment :=
  {| env := <["RESEND_API_KEY" := "re_0123456789abcdef"]> ∅;
     config := ∅;
     outside :=
       {| resend_emails_send := fun _ _ =>
            Fulfil 90 {| rs_data := Some "49a3999c-0ce1-4ea6-ab68-afcd6dc2e794";
                         rs_error := None |};
          sendgrid_fetch := fun _ _ => refuse;
          smtp_verify := fun _ _ => refuse;
          smtp_sendMail := fun _ _ _ => refuse;
          smtpOnly_sendEmail := fun _ _ _ _ => refuse;
          supabase_upload := fun _ _ => refuse;
          s3_upload := fun _ _ => refuse;
          repo_save := fun _ q => Fulfil 5 q;
          random36 := random36 offline |} |}.

(** The entity [create] builds from the DTO, the user and the uploaded URLs. *)
Definition entity_of (dto : CreateQuotationRequestDto) (userId : string)
    (uploadedImageUrls : list string) : Quotation :=
  {| q_rest := dto_rest dto; q_userId := userId;
     q_referenceImages := uploadedImageUrls;
     q_eventDate := dto_eventDate dto; q_endDate := dto_endDate dto;
     q_status := "pending"; q_isDeleted := false |}.

(** A quotation request with one reference image. *)
Definition sample_dto : CreateQuotationRequestDto :=
  {| dto_referenceImages := Some ["data:image/png;base64,iVBORw0KGgo="];
     dto_eventDate := "2026-05-01"; dto_endDate := "2026-05-02";
     dto_rest := [("eventHall", "Grand Ballroom")] |}.

(** An upload method that throws. *)
Definition broken_upload (images : list string) : M (list string) :=
  throw (Err "storage unavailable").

(** ** The loop over the images *)

(** The pause that follows the image of index [i] among [total]. *)
Definition pause_after (i total : nat) : list Event :=
  if Nat.ltb (i + 1) total then [Sleep 500] else [].

Definition world_after_pause (i total : nat) (w : World) : World :=
  if Nat.ltb (i + 1) total then tick 500 w else w.

(** The image is a data URL the loop will try to upload. *)
Definition processed (image : string) : bool :=
  match match_data_url image with Some _ => true | None => false end.


(** Whether the AWS fallback is configured. *)
Definition hasAwsConfig_of (d : Deployment) : bool :=
  JS.truthy (config d !! "aws.bucketName") && JS.truthy (config d !! "aws.bucketFolderName").

(** The number of stores that are due for an image: the two Supabase
    buckets and, in production with AWS configured, AWS S3. *)
Definition due (d : Deployment) : nat :=
  if bool_decide (env d !! "NODE_ENV" = Some "local") then 2
  else if hasAwsConfig_of d then 3 else 2.

(** The line that opens the attempts of an image. *)
Definition banner (d : Deployment) (imageIndex total : nat) : string :=
  if bool_decide (env d !! "NODE_ENV" = Some "local")
  then ("🏠 " ++ image_of imageIndex total
          ++ ": Using Supabase for local development (same as profile uploads)")%string
  else ("☁️ " ++ image_of imageIndex total
          ++ ": Using Supabase for production (same as profile uploads)")%string.

(** [image_by_image d total i images t per]: the trace [t] is made of
    the work on the images, one after the other, [i] being the index of
    the first; [per] tells, image by image, the URL that was obtained.  An
    image that is no data URL leaves nothing in the trace and obtains
    nothing.  Another image leaves its banner, its upload attempts and,
    unless it is the last of the array, the pause; the attempts go
    through the stores in the order of the cascade; the image obtains the
    URL of the attempt that succeeded, which is then the last one, and it
    obtains nothing only when every store that is due was tried and
    failed. *)
Inductive image_by_image (d : Deployment) (total : nat) :
    nat -> list string -> list Event -> list (option string) -> Prop :=
| no_image i : image_by_image d total i [] [] []
| image_skipped i image later t per :
    match_data_url image = None ->
    image_by_image d total (S i) later t per ->
    image_by_image d total i (image :: later) t (None :: per)
| image_uploaded i image ext base64Data later k attempts won t per :
    match_data_url image = Some (ext, base64Data) ->
    walk d (Buffer_from_base64 base64Data) (take k cascade) attempts won ->
    1 <= k <= due d ->
    (won = None -> k = due d) ->
    image_by_image d total (S i) later t per ->
    image_by_image d total i (image :: later)
      (Log (banner d (i + 1) total) :: attempts ++ pause_after i total ++ t)
      (won :: per).

(** The URLs that are returned for what the images obtained. *)
Definition returned_urls (per : list (option string)) : list string :=
  filter (fun url => kept url = true) (omap id per).

(** Three reference images; the second is not a data URL. *)
Definition three_images : list string :=
  ["data:image/png;base64,iVBORw0KGgo="; "holiday.png"; "data:image/jpeg;base64,/9j/4AAQSkZJRg=="].

Definition two_images : list string :=
  ["data:image/png;base64,iVBORw0KGgo="; "data:image/jpeg;base64,/9j/4AAQSkZJRg=="].

(** ** Further vocabulary: file names, SMTP attempts, sample inputs *)

(** The file name [uploadBase64Images] makes for an image of extension
    [ext] in the state [w]. *)
Definition file_name (ext : string) (d : Deployment) (w : World) : string :=
  ("request_quotation_" ++ JS.of_N (now w) ++ "_"
     ++ JS.drop 7 (random36 (outside d) (draws w)) ++ "." ++ ext)%string.

(** The upload call [e], if it is one, carries the file [fileName] with
    the content [buffer] of type [mimetype]. *)
Definition same_file (d : Deployment) (fileName buffer mimetype : string) (e : Event) : Prop :=
  match e with
  | Call _ (SupabaseUploadCall u) =>
      u = bucket_request (su_bucket u) fileName buffer mimetype
  | Call _ (S3UploadCall u) =>
      s3_Key u = (JS.str (config d !! "aws.bucketFolderName") ++ "/quotation/" ++ fileName)%string
      /\ s3_Body u = buffer /\ s3_ContentType u = mimetype
  | _ => True
  end.

(** Images the loop skips: an empty entry, a plain name, a GIF. *)
Definition skipped_images : list string :=
  [EmptyString; "holiday.png"; "data:image/gif;base64,R0lGODlhAQABAAAAACw="].

(** Supabase cannot be reached; AWS S3 is configured and stores the file. *)
Definition aws_only : Deployment :=
  {| env := ∅;
     config := <["aws.bucketName" := "eventapp-assets"]>
                 (<["aws.bucketFolderName" := "prod"]> ∅);
     outside :=
       {| resend_emails_send := fun _ _ => refuse;
          sendgrid_fetch := fun _ _ => refuse;
          smtp_verify := fun _ _ => refuse;
          smtp_sendMail := fun _ _ _ => refuse;
          smtpOnly_sendEmail := fun _ _ _ _ => refuse;
          supabase_upload := fun _ _ => refuse;
          s3_upload := fun _ u =>
            Fulfil 650 (Some ("https://eventapp-assets.s3.amazonaws.com/" ++ s3_Key u)%string);
          repo_save := fun _ q => Fulfil 5 q;
          random36 := random36 offline |} |}.

(** Supabase stores the file in "profiles" but answers after 45 s; the
    bucket "uploads" answers at once. *)
Definition profiles_slow : Deployment :=
  {| env := ∅; config := ∅;
     outside :=
       {| resend_emails_send := fun _ _ => refuse;
          sendgrid_fetch := fun _ _ => refuse;
          smtp_verify := fun _ _ => refuse;
          smtp_sendMail := fun _ _ _ => refuse;
          smtpOnly_sendEmail := fun _ _ _ _ => refuse;
          supabase_upload := fun _ u =>
            Fulfil (if String.eqb (su_bucket u) "profiles" then 45000 else 700)
              (Some ("https://cdn.example.org/" ++ su_bucket u ++ "/" ++ su_filePath u)%string);
          s3_upload := fun _ _ => refuse;
          repo_save := fun _ q => Fulfil 5 q;
          random36 := random36 offline |} |}.

(** Nothing is configured and the database refuses to save. *)
Definition db_down : Deployment :=
  {| env := ∅; config := ∅;
     outside :=
       {| resend_emails_send := fun _ _ => refuse;
          sendgrid_fetch := fun _ _ => refuse;
          smtp_verify := fun _ _ => refuse;
          smtp_sendMail := fun _ _ _ => refuse;
          smtpOnly_sendEmail := fun _ _ _ _ => refuse;
          supabase_upload := fun _ _ => refuse;
          s3_upload := fun _ _ => refuse;
          repo_save := fun _ _ => Reject 20 (Err "MongoNetworkError: connection closed");
          random36 := random36 offline |} |}.

(** A quotation request without reference images. *)
Definition plain_dto : CreateQuotationRequestDto :=
  {| dto_referenceImages := None;
     dto_eventDate := "2026-05-01"; dto_endDate := "2026-05-02";
     dto_rest := [("eventHall", "Garden Paradise")] |}.

(** Resend is configured and its API refuses the connection. *)
Definition resend_down : Deployment :=
  {| env := <["RESEND_API_KEY" := "re_0123456789abcdef"]> ∅;
     config := ∅; outside := offline |}.

(** The SMTP transports a trace verified, and the messages it sent. *)
Definition verified (t : list Event) : list SmtpConfig :=
  omap (fun e => match e with Call _ (SmtpVerify c) => Some c | _ => None end) t.

Definition sent (t : list Event) : list (SmtpConfig * MailOptions) :=
  omap (fun e => match e with Call _ (SmtpSendMail c m) => Some (c, m) | _ => None end) t.

(** The credentials [tryGmailSMTP] reads. *)
Definition smtp_user (d : Deployment) : option string :=
  JS.or (env d !! "SMTP_USER") (config d !! "email.SMTP_USER").

Definition smtp_pass (d : Deployment) : option string :=
  JS.or (env d !! "SMTP_PASS") (config d !! "email.SMTP_PASS").

Definition smtp_from (d : Deployment) : option string :=
  JS.or (JS.or (env d !! "SMTP_FROM") (config d !! "email.SMTP_FROM")) (smtp_user d).

(** The message [tryGmailSMTP] sends. *)
Definition gmail_mail (to subject text : string) (d : Deployment) : MailOptions :=
  {| mo_from := (JS.dq ++ "No Reply" ++ JS.dq ++ " <" ++ JS.str (smtp_from d) ++ ">")%string;
     mo_to := to; mo_subject := subject; mo_text := text |}.

(** The request [trySendGridAPI] posts. *)
Definition sendgrid_key (d : Deployment) : option string :=
  JS.or (env d !! "SENDGRID_API_KEY") (config d !! "sendGrid.apiKey").

Definition sendgrid_from (d : Deployment) : option string :=
  JS.or (env d !! "SENDGRID_FROM_EMAIL") (config d !! "sendGrid.fromEmail").

Definition sendgrid_request (to subject text : string) (d : Deployment) : SendGridRequest :=
  {| sg_url := "https://api.sendgrid.com/v3/mail/send";
     sg_authorization := ("Bearer " ++ JS.str (sendgrid_key d))%string;
     sg_to := to; sg_subject := subject;
     sg_from := JS.str (sendgrid_from d); sg_value := text |}.

(** Gmail is configured; the relay accepts the connection on port 465 only,
    and sends the message. *)
Definition gmail_465 : Deployment :=
  {| env := <["SMTP_USER" := "events@example.org"]> (<["SMTP_PASS" := "app-password"]> ∅);
     config := ∅;
     outside :=
       {| resend_emails_send := fun _ _ => refuse;
          sendgrid_fetch := fun _ _ => refuse;
          smtp_verify := fun _ c => if (cfg_port c =? 465)%N then Fulfil 300 tt else refuse;
          smtp_sendMail := fun _ _ _ => Fulfil 400 tt;
          smtpOnly_sendEmail := fun _ _ _ _ => refuse;
          supabase_upload := fun _ _ => refuse;
          s3_upload := fun _ _ => refuse;
          repo_save := fun _ q => Fulfil 5 q;
          random36 := random36 offline |} |}.

(** SendGrid is configured and answers 401 with a body. *)
Definition sendgrid_unauthorized : Deployment :=
  {| env := env sendgrid_up; config := ∅;
     outside :=
       {| resend_emails_send := fun _ _ => refuse;
          sendgrid_fetch := fun _ _ =>
            Fulfil 80 {| resp_ok := false; resp_status := 401;
                         resp_text := Fulfil 2 "invalid api key" |};
          smtp_verify := fun _ _ => refuse;
          smtp_sendMail := fun _ _ _ => refuse;
          smtpOnly_sendEmail := fun _ _ _ _ => refuse;
          supabase_upload := fun _ _ => refuse;
          s3_upload := fun _ _ => refuse;
          repo_save := fun _ q => Fulfil 5 q;
          random36 := random36 offline |} |}.

(** Services that report failure, but for the repository's own
    [RailwayDirectEmailService]. *)
Definition failing_but_railway_direct : RobustEmailService.t :=
  {| resendEmailService := fun _ _ _ => mret false;
     smtpOnlyEmailService := fun _ _ _ => throw (Err "connect ETIMEDOUT");
     railwayDirectEmailService := RailwayDirectEmailService.sendEmail;
     railwayEmailService := fun _ _ _ => mret false;
     webhookEmailService := fun _ _ _ => mret false |}.

(** Every message of a trace is [mail], and went through a transport
    whose verification had just succeeded. *)
Definition sent_after_verify (d : Deployment) (mail : MailOptions) (t : list Event) : Prop :=
  forall n c m,
    In (Call n (SmtpSendMail c m)) t ->
    m = mail
    /\ exists n0 ms,
         n = S n0 /\ In (Call n0 (SmtpVerify c)) t
         /\ smtp_verify (outside d) n0 c = Fulfil ms tt.

(** Some message of the trace was accepted by the relay. *)
Definition accepted (d : Deployment) (t : list Event) : Prop :=
  exists n c m ms,
    In (Call n (SmtpSendMail c m)) t /\ smtp_sendMail (outside d) n c m = Fulfil ms tt.

(** The trace ends with a message that the relay accepted. *)
Definition ends_accepted (d : Deployment) (mail : MailOptions) (t : list Event) : Prop :=
  exists n c ms,
    last t = Some (Call n (SmtpSendMail c mail))
    /\ smtp_sendMail (outside d) n c mail = Fulfil ms tt.

(** ** Reading and changing a stored request *)

Module QuotationRequestUpdates.

(** The answer of a method that may throw [NotFoundException]: the
    exception is the one error the [catch] blocks let through as it is.
    The collaborators outside throw errors of other classes. *)
Inductive Found (A : Type) :=
| Here (a : A)
| NotFoundException (message : string).
Arguments Here {A} a.
Arguments NotFoundException {A} message.

(** [Partial<CreateQuotationRequestDto>]: every field may be undefined.
    [upd_rest] holds the fields that are defined, but for the four kept
    apart. *)
Record UpdateDto := {
  upd_referenceImages : option (list string);
  upd_eventDate : option string;
  upd_endDate : option string;
  upd_userId : option string;
  upd_rest : list (string * string) }.

(** [object[name]] *)
Fixpoint get_field (name : string) (fields : list (string * string)) : option string :=
  match fields with
  | [] => None
  | (key, value) :: rest => if String.eqb key name then Some value else get_field name rest
  end.

(** [object[name] = value]: an own property keeps its place, a new one
    comes last. *)
Fixpoint set_field (name value : string) (fields : list (string * string))
    : list (string * string) :=
  match fields with
  | [] => [(name, value)]
  | (key, old) :: rest =>
      if String.eqb key name then (key, value) :: rest
      else (key, old) :: set_field name value rest
  end.

(** The fields [update] copies with
    [if (updateDto.f !== undefined) entity.f = updateDto.f], in source
    order, but for [eventDate], [endDate] and [userId]. *)
Definition copied_fields : list string :=
  ["eventHall"; "startTime"; "endTime"; "venueAddress"; "photographerType";
   "specialRequirement"; "expectedGuests"; "coverageDuration";
   "numberOfPhotographers"; "budgetRange"; "vendorId"; "venueId"].

Definition copy_fields (from to : list (string * string)) : list (string * string) :=
  fold_left
    (fun entity name =>
       match get_field name from with
       | Some value => set_field name value entity
       | None => entity
       end)
    copied_fields to.

(** The entity after the assignments of [update]. *)
Definition assigned (entity : Quotation) (updateDto : UpdateDto)
    (uploadedImageUrls : list string) : Quotation :=
  {| q_rest := copy_fields (upd_rest updateDto) (q_rest entity);
     q_userId := default (q_userId entity) (upd_userId updateDto);
     q_referenceImages := uploadedImageUrls;
     q_eventDate := default (q_eventDate entity) (upd_eventDate updateDto);
     q_endDate := default (q_endDate entity) (upd_endDate updateDto);
     q_status := q_status entity;
     q_isDeleted := q_isDeleted entity |}.

(** [img.startsWith('data:image')] *)
Definition is_base64 (img : string) : bool := String.prefix "data:image" img.

Section Methods.

(** [this.repo.findOne({ where: { _id: new ObjectId(id), isDeleted: false } })],
    with the construction of the [ObjectId]: whatever the repository does
    and answers, [None] for [null]. *)
Variable repo_findOne : string -> M (option Quotation).

(** [this.uploadBase64Images] *)
Variable uploadBase64Images : list string -> M (list string).

Definition findOne (id : string) : M (Found Quotation) :=
  try_catch
    (entity ← repo_findOne id;
     match entity with
     | None => mret (NotFoundException "Quotation request not found")
     | Some entity => mret (Here entity)
     end)
    (fun error => throw (Err ("Failed to fetch quotation request: " ++ message error))).

(** The reference images [update] is going to store. *)
Definition imagesToStore (entity : Quotation) (updateDto : UpdateDto) : M (list string) :=
  let uploadedImageUrls := q_referenceImages entity in
  match upd_referenceImages updateDto with
  | Some referenceImages =>
      if Nat.ltb 0 (length referenceImages)
      then
        let base64Images := List.filter is_base64 referenceImages in
        let existingUrls := List.filter (fun img => negb (is_base64 img)) referenceImages in
        if Nat.ltb 0 (length base64Images)
        then
          try_catch
            (newUploadedUrls ← uploadBase64Images base64Images;
             mret (existingUrls ++ newUploadedUrls))
            (fun uploadError =>
               mret (if Nat.ltb 0 (length existingUrls)
                     then existingUrls else q_referenceImages entity))
        else mret existingUrls
      else mret uploadedImageUrls
  | None => mret uploadedImageUrls
  end.

Definition update (id : string) (updateDto : UpdateDto) : M (Found Quotation) :=
  try_catch
    (found ← findOne id;
     match found with
     | NotFoundException reason => mret (NotFoundException reason)
     | Here entity =>
         uploadedImageUrls ← imagesToStore entity updateDto;
         let entity := assigned entity updateDto uploadedImageUrls in
         saved ← await_call (RepoSave entity) (fun o n => repo_save o n entity);
         mret (Here saved)
     end)
    (fun error => throw (Err ("Failed to update quotation request: " ++ message error))).

(** [quotationAmount] and [notes] are fields of the entity kept in
    [q_rest]; the amount is passed as it is printed. *)
Definition updateStatus (id status : string) (quotationAmount notes : option string)
    : M (Found Quotation) :=
  try_catch
    (found ← findOne id;
     match found with
     | NotFoundException reason => mret (NotFoundException reason)
     | Here entity =>
         let fields := q_rest entity in
         let fields :=
           match quotationAmount with
           | Some amount => set_field "quotationAmount" amount fields
           | None => fields
           end in
         let fields :=
           match notes with
           | Some notes => set_field "notes" notes fields
           | None => fields
           end in
         let entity :=
           {| q_rest := fields; q_userId := q_userId entity;
              q_referenceImages := q_referenceImages entity;
              q_eventDate := q_eventDate entity; q_endDate := q_endDate entity;
              q_status := status; q_isDeleted := q_isDeleted entity |} in
         saved ← await_call (RepoSave entity) (fun o n => repo_save o n entity);
         mret (Here saved)
     end)
    (fun error => throw (Err ("Failed to update quotation request: " ++ message error))).

Definition remove (id : string) : M (Found string) :=
  try_catch
    (found ← findOne id;
     match found with
     | NotFoundException reason => mret (NotFoundException reason)
     | Here entity =>
         let entity :=
           {| q_rest := q_rest entity; q_userId := q_userId entity;
              q_referenceImages := q_referenceImages entity;
              q_eventDate := q_eventDate entity; q_endDate := q_endDate entity;
              q_status := q_status entity; q_isDeleted := true |} in
         await_call (RepoSave entity) (fun o n => repo_save o n entity);;
         mret (Here "Quotation request deleted successfully")
     end)
    (fun error => throw (Err ("Failed to delete quotation request: " ++ message error))).

End Methods.

End QuotationRequestUpdates.

(** A stored request with one reference image. *)
Definition stored : Quotation :=
  {| q_rest := [("eventHall", "Grand Ballroom"); ("notes", "call first")];
     q_userId := "user-17";
     q_referenceImages := ["https://cdn.example.org/uploads/old.png"];
     q_eventDate := "2026-05-01"; q_endDate := "2026-05-02";
     q_status := "quoted"; q_isDeleted := false |}.

(** A repository that holds [stored] and nothing else. *)
Definition one_request (id : string) : M (option Quotation) :=
  if String.eqb id "65f1c0ffee0123456789abcd" then mret (Some stored) else mret None.

(** A repository that cannot be reached. *)
Definition no_database (id : string) : M (option Quotation) :=
  throw (Err "MongoNetworkError: connection closed").

(** An update that brings one new picture and names the stored one. *)
Definition picture_and_url : QuotationRequestUpdates.UpdateDto :=
  {| QuotationRequestUpdates.upd_referenceImages :=
       Some ["data:image/png;base64,iVBORw0KGgo="; "https://cdn.example.org/uploads/old.png"];
     QuotationRequestUpdates.upd_eventDate := None;
     QuotationRequestUpdates.upd_endDate := None;
     QuotationRequestUpdates.upd_userId := None;
     QuotationRequestUpdates.upd_rest := [] |}.

(** An update that brings one new picture only. *)
Definition picture_only : QuotationRequestUpdates.UpdateDto :=
  {| QuotationRequestUpdates.upd_referenceImages := Some ["data:image/png;base64,iVBORw0KGgo="];
     QuotationRequestUpdates.upd_eventDate := None;
     QuotationRequestUpdates.upd_endDate := None;
     QuotationRequestUpdates.upd_userId := None;
     QuotationRequestUpdates.upd_rest := [] |}.

(** An update of the hall, with a status and a field that is not known. *)
Definition hall_and_status : QuotationRequestUpdates.UpdateDto :=
  {| QuotationRequestUpdates.upd_referenceImages := None;
     QuotationRequestUpdates.upd_eventDate := Some "2026-06-01";
     QuotationRequestUpdates.upd_endDate := None;
     QuotationRequestUpdates.upd_userId := Some "user-99";
     QuotationRequestUpdates.upd_rest :=
       [("eventHall", "Rooftop Terrace"); ("status", "accepted"); ("notes", "changed")] |}.

(** An upload method that stores every picture it is given. *)
Definition storing_upload (images : list string) : M (list string) :=
  mret (map (fun _ => "https://cdn.example.org/uploads/new.png") images).

(** ** More of the string methods *)

Module JSString.

(** Strings are UTF-8 here; the patterns below are ASCII, so that
    searching bytes and searching UTF-16 code units agree. *)

(** [s.includes(sub)] *)
Fixpoint includes (sub s : string) : bool :=
  if String.prefix sub s then true
  else match s with
       | EmptyString => false
       | String _ rest => includes sub rest
       end.

(** [s.replace(pattern, by)] for a string pattern: the first occurrence
    is replaced.  ([by] has no [$] here.) *)
Fixpoint replace (pattern by_ s : string) : string :=
  if String.prefix pattern s then by_ ++ JS.drop (String.length pattern) s
  else match s with
       | EmptyString => EmptyString
       | String c rest => String c (replace pattern by_ rest)
       end.

(** [s.endsWith(suffix)] *)
Fixpoint endsWith (suffix s : string) : bool :=
  if String.eqb s suffix then true
  else match s with
       | EmptyString => false
       | String _ rest => endsWith suffix rest
       end.

End JSString.

(** ** The base URLs of the frontend *)

Module ApiBaseUrl.

Import JSString.

(** [s] is made of slashes, and of one at least: what [/\/+$/] matches
    when it matches from the start of [s]. *)
Fixpoint slashes (s : string) : bool :=
  match s with
  | EmptyString => false
  | String c rest => Ascii.eqb c (Ascii.ascii_of_nat 47) && (String.eqb rest EmptyString || slashes rest)
  end.

(** [s.replace(/\/+$/, '')]: the match starts at the first position from
    which only slashes follow. *)
Fixpoint strip_slashes (s : string) : string :=
  match s with
  | EmptyString => EmptyString
  | String c rest => if slashes s then EmptyString else String c (strip_slashes rest)
  end.

(** [s.replace(/\/api\/v1\/?$/, '')] *)
Fixpoint strip_api_path (s : string) : string :=
  if String.eqb s "/api/v1" || String.eqb s "/api/v1/" then EmptyString
  else match s with
       | EmptyString => EmptyString
       | String c rest => String c (strip_api_path rest)
       end.

Definition DEFAULT_API_BASE : string := "https://apimarketplace.whiz-cloud.com".

Definition DEFAULT_API_BASE_WITH_PATH : string := (DEFAULT_API_BASE ++ "/api/v1/")%string.

(** [VITE_API_BASE_URL] is [import.meta.env.VITE_API_BASE_URL] and [PROD]
    is [import.meta.env.PROD]. *)
Definition getApiBaseUrl (VITE_API_BASE_URL : option string) (PROD : bool) : string :=
  let envUrl := VITE_API_BASE_URL in
  let envUrl :=
    if JS.truthy envUrl
       && includes "marketplace.whiz-cloud.com" (JS.str envUrl)
       && negb (includes "apimarketplace.whiz-cloud.com" (JS.str envUrl))
    then Some (replace "marketplace.whiz-cloud.com" "apimarketplace.whiz-cloud.com"
                 (JS.str envUrl))
    else envUrl in
  if PROD then "/api/v1/"
  else if JS.truthy envUrl
  then
    let envUrl := strip_slashes (JS.str envUrl) in
    let envUrl :=
      if negb (includes "/api/v1" envUrl) then (envUrl ++ "/api/v1")%string else envUrl in
    let envUrl := if negb (endsWith "/" envUrl) then (envUrl ++ "/")%string else envUrl in
    envUrl
  else DEFAULT_API_BASE_WITH_PATH.

Definition getBaseUrl (VITE_API_BASE_URL : option string) : string :=
  let envUrl := VITE_API_BASE_URL in
  if JS.truthy envUrl
  then
    let url := JS.str envUrl in
    let url :=
      if includes "marketplace.whiz-cloud.com" url
         && negb (includes "apimarketplace.whiz-cloud.com" url)
      then replace "marketplace.whiz-cloud.com" "apimarketplace.whiz-cloud.com" url
      else url in
    strip_slashes (strip_api_path url)
  else DEFAULT_API_BASE.

(** [IMAGE_BASE_URL] *)
Definition IMAGE_BASE_URL (VITE_IMAGE_BASE_URL VITE_API_BASE_URL : option string) : string :=
  if JS.truthy VITE_IMAGE_BASE_URL then JS.str VITE_IMAGE_BASE_URL
  else (getBaseUrl VITE_API_BASE_URL ++ "/uploads/profile/")%string.

End ApiBaseUrl.

(** The URL both functions of the frontend go on with: a URL that names
    the host of the frontend, and not the one of the API, has its first
    such name replaced. *)
Definition corrected (url : string) : string :=
  if JSString.includes "marketplace.whiz-cloud.com" url
     && negb (JSString.includes "apimarketplace.whiz-cloud.com" url)
  then JSString.replace "marketplace.whiz-cloud.com" "apimarketplace.whiz-cloud.com" url
  else url.

(** ** The Resend settings of the e-mail helper module *)

Module ResendSettings.

Import JSString.

(** What the helpers read of [config/base.json] once it is parsed:
    [config.resend && config.resend.apiKey] and the like, [None] for a
    value that is missing. *)
Record BaseJson := { resend_apiKey : option string; resend_fromEmail : option string }.

Section Files.

(** The three candidate paths, as [path.resolve] gives them. *)
Variable possiblePaths : list string.

Variable fs_existsSync : string -> bool.

(** [JSON.parse(fs.readFileSync(configPath, 'utf8'))], [None] when
    reading or parsing throws. *)
Variable read_json : string -> option BaseJson.

(** The [for] loop inside [try], for the field [field] of the file: it
    ends at the first path that exists, by [return], by [break] or by the
    error that the [catch] swallows. *)
Fixpoint fromConfigFile (field : BaseJson -> option string) (paths : list string)
    : option string :=
  match paths with
  | [] => None
  | configPath :: later =>
      if fs_existsSync configPath
      then match read_json configPath with
           | Some config => if JS.truthy (field config) then field config else None
           | None => None
           end
      else fromConfigFile field later
  end.

(** [RESEND_API_KEY] is [process.env.RESEND_API_KEY]; [None] is [null]. *)
Definition getResendApiKey (RESEND_API_KEY : option string) : option string :=
  if JS.truthy RESEND_API_KEY && negb (String.eqb (JS.trim (JS.str RESEND_API_KEY)) EmptyString)
  then Some (JS.trim (JS.str RESEND_API_KEY))
  else fromConfigFile resend_apiKey possiblePaths.

Definition getResendFromEmail (RESEND_FROM_EMAIL : option string) : string :=
  if JS.truthy RESEND_FROM_EMAIL
     && negb (String.eqb (JS.trim (JS.str RESEND_FROM_EMAIL)) EmptyString)
  then JS.trim (JS.str RESEND_FROM_EMAIL)
  else match fromConfigFile resend_fromEmail possiblePaths with
       | Some fromEmail => fromEmail
       | None => "noreply@yourdomain.com"
       end.

(** [resendApiKey && resendApiKey.trim() !== '']: the test that guards
    [new Resend(resendApiKey)]. *)
Definition hasClient (RESEND_API_KEY : option string) : bool :=
  let resendApiKey := getResendApiKey RESEND_API_KEY in
  JS.truthy resendApiKey && negb (String.eqb (JS.trim (JS.str resendApiKey)) EmptyString).

End Files.

End ResendSettings.

(** A directory with two configuration files: the one of the build has
    no key, the one of the project has. *)
Definition build_config : ResendSettings.BaseJson :=
  {| ResendSettings.resend_apiKey := None;
     ResendSettings.resend_fromEmail := Some "events@example.org" |}.

Definition project_config : ResendSettings.BaseJson :=
  {| ResendSettings.resend_apiKey := Some "re_fromProjectFile";
     ResendSettings.resend_fromEmail := Some "project@example.org" |}.

Definition three_paths : list string :=
  ["/app/dist/config/base.json"; "/app/dist/src/config/base.json"; "/app/config/base.json"].

Definition two_files (path : string) : option ResendSettings.BaseJson :=
  if String.eqb path "/app/dist/src/config/base.json" then Some build_config
  else if String.eqb path "/app/config/base.json" then Some project_config
  else None.

Definition two_files_exist (path : string) : bool :=
  match two_files path with Some _ => true | None => false end.

(** ** Listing the requests *)

Module QuotationRequestLists.

Import JSString.

(** A field of a document as the database returns it: missing (or
    another falsy value), an array, or another truthy value.  An element
    of the array is a string or, [None], something else. *)
Inductive JsField :=
| Missing
| Array (elements : list (option string))
| Other.

(** A request as [findAndCount] returns it: its identifier, its owner,
    and the three names under which reference images may be stored. *)
Record RawQuotation := {
  raw_id : string;
  raw_userId : option string;
  raw_referenceImages : JsField;
  raw_referenceimages : JsField;
  raw_reference_images : JsField }.

(** [{ ...quotation, referenceImages }] *)
Record ProcessedQuotation := {
  p_quotation : RawQuotation;
  p_referenceImages : list string }.

(** The [where] object and the query options. *)
Record Where := {
  where_isDeleted : bool;
  where_userId : option string;
  where_or_regex : option string }.   (* the source of [new RegExp(search, 'i')] *)

(** [page] and [limit] are numbers of the language, binary64 floats:
    [skip] is rounded as the product of two such numbers is. *)
Record FindOptions := {
  fo_where : Where;
  fo_skip : option float;
  fo_take : float;
  fo_order_createdAt_DESC : bool }.

Record Page := {
  data : list ProcessedQuotation;
  total : N;
  page : float;
  limit : float }.

(** [a || b] on fields *)
Definition field_or (a b : JsField) : JsField :=
  match a with
  | Missing => b
  | _ => a
  end.

(** The callback of [referenceImages.filter]. *)
Definition keep_url (url : option string) : bool :=
  match url with
  | None => false
  | Some url =>
      if String.eqb url EmptyString then false
      else negb (includes "via.placeholder.com" url) && negb (includes "placeholder" url)
  end.

(** The images of one request, after the filter. *)
Definition processImages (quotation : RawQuotation) : list string :=
  let referenceImages :=
    field_or (raw_referenceImages quotation)
      (field_or (raw_referenceimages quotation)
         (field_or (raw_reference_images quotation) (Array []))) in
  match referenceImages with
  | Array urls => omap (fun url => if keep_url url then url else None) urls
  | _ => []
  end.

Section Methods.

Variable repo_findAndCount : FindOptions -> M (list RawQuotation * N).

Variable repo_find : FindOptions -> M (list RawQuotation).

(** [new RegExp(search, 'i')]: the [SyntaxError] it throws, if any. *)
Variable RegExp_error : string -> option Error.

(** The [where] clause with the search, when there is one. *)
Definition with_search (where_ : Where) (search : option string) : M Where :=
  if JS.truthy search && Nat.ltb 0 (JS.length (JS.trim (JS.str search)))
  then
    match RegExp_error (JS.str search) with
    | Some syntaxError => throw syntaxError
    | None =>
        mret {| where_isDeleted := where_isDeleted where_;
                where_userId := where_userId where_;
                where_or_regex := Some (JS.str search) |}
    end
  else mret where_.

(** [data.map(...)] of [findAll], which logs every request. *)
Fixpoint processAndLog (quotations : list RawQuotation) : M (list ProcessedQuotation) :=
  match quotations with
  | [] => mret []
  | quotation :: later =>
      emit (LogObj "Quotation Request Service - Processing quotation:"
              [("id", raw_id quotation)]);;
      let processedQuotation :=
        {| p_quotation := quotation; p_referenceImages := processImages quotation |} in
      processed ← processAndLog later;
      mret (processedQuotation :: processed)
  end.

(** The objects the logs print are kept by the identifiers of the
    requests they show. *)
Definition findAll (page limit : float) (userId search : option string) : M Page :=
  try_catch
    (let where_ := {| where_isDeleted := false; where_userId := None;
                      where_or_regex := None |} in
     if JS.truthy userId
     then
       let where_ := {| where_isDeleted := false; where_userId := Some (JS.str userId);
                        where_or_regex := None |} in
       where_ ← with_search where_ search;
       emit (LogObj "Quotation Request Service - Query where clause:"
               [("isDeleted", "false"); ("userId", JS.str (where_userId where_))]);;
       found ← repo_findAndCount
                 {| fo_where := where_; fo_skip := Some ((page - 1) * limit)%float;
                    fo_take := limit; fo_order_createdAt_DESC := true |};
       let '(data, total) := found in
       (if Nat.ltb 0 (length data)
        then emit (LogObj "Quotation Request Service - Sample raw data from DB:"
                     (map (fun q => ("id", raw_id q)) (take 2 data)))
        else mret tt);;
       processedData ← processAndLog data;
       (if Nat.ltb 0 (length processedData)
        then emit (LogObj "Quotation Request Service - Sample userIds from results:"
                     (map (fun q => ("userId", JS.str (raw_userId (p_quotation q))))
                        (take 3 processedData)))
        else
          allQuotations ← repo_find
                            {| fo_where := {| where_isDeleted := false; where_userId := None;
                                              where_or_regex := None |};
                               fo_skip := None; fo_take := 5%float;
                               fo_order_createdAt_DESC := false |};
          emit (LogObj "Quotation Request Service - Sample quotations (first 5, any userId):"
                  (map (fun q => ("userId", JS.str (raw_userId q))) allQuotations)));;
       mret {| data := processedData; total := total; page := page; limit := limit |}
     else mret {| data := []; total := 0; page := page; limit := limit |})
    (fun error => throw (Err ("Failed to fetch quotation requests: " ++ message error))).

(** [findAllForAdmin]: no owner in the query, no log inside the map, no
    second query. *)
Definition findAllForAdmin (page limit : float) (search : option string) : M Page :=
  try_catch
    (let where_ := {| where_isDeleted := false; where_userId := None;
                      where_or_regex := None |} in
     where_ ← with_search where_ search;
     emit (LogObj "Quotation Request Service - Admin query where clause:"
             [("isDeleted", "false")]);;
     found ← repo_findAndCount
               {| fo_where := where_; fo_skip := Some ((page - 1) * limit)%float;
                  fo_take := limit; fo_order_createdAt_DESC := true |};
     let '(data, total) := found in
     let processedData :=
       map (fun quotation =>
              {| p_quotation := quotation; p_referenceImages := processImages quotation |})
         data in
     mret {| data := processedData; total := total; page := page; limit := limit |})
    (fun error => throw (Err ("Failed to fetch quotation requests: " ++ message error))).

End Methods.

End QuotationRequestLists.

(** What [findAll] and [findAllForAdmin] return of a request. *)
Definition processed_quotation (quotation : QuotationRequestLists.RawQuotation)
    : QuotationRequestLists.ProcessedQuotation :=
  {| QuotationRequestLists.p_quotation := quotation;
     QuotationRequestLists.p_referenceImages := QuotationRequestLists.processImages quotation |}.

(** The search [findAll] puts into the query. *)
Definition searched (search : option string) : option string :=
  if JS.truthy search && Nat.ltb 0 (JS.length (JS.trim (JS.str search)))
  then Some (JS.str search) else None.

(** The query of [findAll] for the requests of [userId]. *)
Definition query_of (userId : string) (search : option string) (page limit : float)
    : QuotationRequestLists.FindOptions :=
  {| QuotationRequestLists.fo_where :=
       {| QuotationRequestLists.where_isDeleted := false;
          QuotationRequestLists.where_userId := Some userId;
          QuotationRequestLists.where_or_regex := searched search |};
     QuotationRequestLists.fo_skip := Some ((page - 1) * limit)%float;
     QuotationRequestLists.fo_take := limit;
     QuotationRequestLists.fo_order_createdAt_DESC := true |}.

(** The query [findAll] makes when the page is empty, to log what the
    collection holds. *)
Definition any_five : QuotationRequestLists.FindOptions :=
  {| QuotationRequestLists.fo_where :=
       {| QuotationRequestLists.where_isDeleted := false;
          QuotationRequestLists.where_userId := None;
          QuotationRequestLists.where_or_regex := None |};
     QuotationRequestLists.fo_skip := None;
     QuotationRequestLists.fo_take := 5%float;
     QuotationRequestLists.fo_order_createdAt_DESC := false |}.

(** A request with a placeholder among its images. *)
Definition with_placeholder : QuotationRequestLists.RawQuotation :=
  {| QuotationRequestLists.raw_id := "65f1c0ffee0123456789abcd";
     QuotationRequestLists.raw_userId := Some "user-17";
     QuotationRequestLists.raw_referenceImages :=
       QuotationRequestLists.Array
         [Some "https://cdn.example.org/uploads/a.png";
          Some "https://via.placeholder.com/300";
          None; Some EmptyString;
          Some "https://cdn.example.org/uploads/b.png"];
     QuotationRequestLists.raw_referenceimages := QuotationRequestLists.Missing;
     QuotationRequestLists.raw_reference_images := QuotationRequestLists.Missing |}.

(** A collection that holds [with_placeholder] for its owner. *)
Definition one_row (options : QuotationRequestLists.FindOptions)
    : M (list QuotationRequestLists.RawQuotation * N) :=
  if bool_decide (QuotationRequestLists.where_userId (QuotationRequestLists.fo_where options)
                  = Some "user-17")
  then mret ([with_placeholder], 1%N) else mret ([], 0%N).

Definition no_sample (options : QuotationRequestLists.FindOptions)
    : M (list QuotationRequestLists.RawQuotation) :=
  throw (Err "MongoServerSelectionError: timed out").

Definition every_pattern (source : string) : option Error := None.

(** A pattern compiler that refuses an open parenthesis alone. *)
Definition no_parenthesis (source : string) : option Error :=
  if String.eqb source "("
  then Some (Err "Invalid regular expression: /(/: Unterminated group") else None.
(** ** Running a computation step by step *)

Lemma prepend_nil {A} (r : Run A) : prepend [] r = r.
Proof. destruct r; reflexivity. Qed.

Lemma prepend_prepend {A} t1 t2 (r : Run A) :
  prepend t1 (prepend t2 r) = prepend (t1 ++ t2) r.
Proof. unfold prepend. simpl. rewrite app_assoc. reflexivity. Qed.

Lemma run_bind_returned {A B} (m : M A) (f : A -> M B) d w a w' t :
  m d w = mkRun (Returned a) w' t -> bind m f d w = prepend t (f a d w').
Proof. intros H. unfold bind. rewrite H. reflexivity. Qed.

Lemma run_bind_thrown {A B} (m : M A) (f : A -> M B) d w e w' t :
  m d w = mkRun (Thrown e) w' t -> bind m f d w = mkRun (Thrown e) w' t.
Proof. intros H. unfold bind. rewrite H. reflexivity. Qed.

Lemma run_bind_pending {A B} (m : M A) (f : A -> M B) d w w' t :
  m d w = mkRun Pending w' t -> bind m f d w = mkRun Pending w' t.
Proof. intros H. unfold bind. rewrite H. reflexivity. Qed.

Lemma run_try_thrown {A} (m : M A) (h : Error -> M A) d w e w' t :
  m d w = mkRun (Thrown e) w' t -> try_catch m h d w = prepend t (h e d w').
Proof. intros H. unfold try_catch. rewrite H. reflexivity. Qed.

Lemma run_try_returned {A} (m : M A) (h : Error -> M A) d w a w' t :
  m d w = mkRun (Returned a) w' t -> try_catch m h d w = mkRun (Returned a) w' t.
Proof. intros H. unfold try_catch. rewrite H. reflexivity. Qed.

Lemma run_try_pending {A} (m : M A) (h : Error -> M A) d w w' t :
  m d w = mkRun Pending w' t -> try_catch m h d w = mkRun Pending w' t.
Proof. intros H. unfold try_catch. rewrite H. reflexivity. Qed.

(** Runs the pure and the logging steps at the head of a computation. *)
Ltac run_steps :=
  repeat (erewrite run_bind_returned by reflexivity).

(** ** The chain executor *)


Lemma attempt_true s d w :
  outcome (s d w) = Returned true ->
  attempt s d w = mkRun (Returned (Some true)) (final (s d w)) (trace (s d w)).
Proof.
  intros H. unfold attempt, try_catch, mbind, M_bind, bind, mret, M_ret, ret.
  rewrite H. simpl. rewrite app_nil_r. reflexivity.
Qed.

Lemma attempt_false s d w :
  outcome (s d w) = Returned false ->
  attempt s d w = mkRun (Returned None) (final (s d w)) (trace (s d w)).
Proof.
  intros H. unfold attempt, try_catch, mbind, M_bind, bind, mret, M_ret, ret.
  rewrite H. simpl. rewrite app_nil_r. reflexivity.
Qed.

Lemma attempt_thrown s d w e :
  outcome (s d w) = Thrown e ->
  attempt s d w = mkRun (Returned None) (final (s d w)) (trace (s d w)).
Proof.
  intros H. unfold attempt, try_catch, mbind, M_bind, bind, mret, M_ret, ret.
  rewrite H. simpl. rewrite app_nil_r. reflexivity.
Qed.

Lemma attempt_pending s d w :
  outcome (s d w) = Pending ->
  attempt s d w = mkRun Pending (final (s d w)) (trace (s d w)).
Proof.
  intros H. unfold attempt, try_catch, mbind, M_bind, bind, mret, M_ret, ret.
  rewrite H. simpl. reflexivity.
Qed.

Lemma runStrategies_cons s later d w :
  runStrategies (s :: later) d w =
  match outcome (s d w) with
  | Returned true => mkRun (Returned true) (final (s d w)) (trace (s d w))
  | Pending => mkRun Pending (final (s d w)) (trace (s d w))
  | _ => let r := runStrategies later d (final (s d w)) in
         mkRun (outcome r) (final r) (trace (s d w) ++ trace r)
  end.
Proof.
  change (runStrategies (s :: later) d w) with
    (bind (attempt s) (fun left_with => match left_with with Some b => mret b | None => runStrategies later end) d w).
  unfold bind.
  destruct (outcome (s d w)) as [[|]|e|] eqn:H.
  - rewrite (attempt_true _ _ _ H). simpl. rewrite app_nil_r. reflexivity.
  - rewrite (attempt_false _ _ _ H). reflexivity.
  - rewrite (attempt_thrown _ _ _ _ H). reflexivity.
  - rewrite (attempt_pending _ _ _ H). reflexivity.
Qed.

Lemma runStrategies_failed_step s later d w :
  outcome (s d w) = Returned false \/ (exists e, outcome (s d w) = Thrown e) ->
  runStrategies (s :: later) d w =
  let r := runStrategies later d (final (s d w)) in
  mkRun (outcome r) (final r) (trace (s d w) ++ trace r).
Proof.
  intros [H | [e H]]; rewrite runStrategies_cons, H; reflexivity.
Qed.

(** Once a prefix has failed, the walk is the walk of the rest. *)
Lemma runStrategies_after_failures d pre rest w w1 t1 :
  all_fail d pre w w1 t1 ->
  runStrategies (pre ++ rest) d w =
  let r := runStrategies rest d w1 in
  mkRun (outcome r) (final r) (t1 ++ trace r).
Proof.
  induction 1 as [w | s pre w w' t Hs Hpre IH]; simpl app.
  - simpl. symmetry. destruct (runStrategies rest d w); reflexivity.
  - rewrite (runStrategies_failed_step _ _ _ _ Hs). cbv zeta. rewrite IH. cbv zeta. simpl.
    rewrite app_assoc. reflexivity.
Qed.

Lemma runStrategies_stops d pre s post w w1 t1 :
  all_fail d pre w w1 t1 ->
  outcome (s d w1) = Returned true \/ outcome (s d w1) = Pending ->
  runStrategies (pre ++ s :: post) d w =
  mkRun (outcome (s d w1)) (final (s d w1)) (t1 ++ trace (s d w1)).
Proof.
  intros Hpre Hs. rewrite (runStrategies_after_failures _ _ _ _ _ _ Hpre).
  rewrite runStrategies_cons. destruct Hs as [-> | ->]; reflexivity.
Qed.

Lemma runStrategies_settles d chain :
  Forall (settles d) chain ->
  forall w, exists b, outcome (runStrategies chain d w) = Returned b.
Proof.
  induction 1 as [| s later Hs _ IH]; intros w.
  - exists false. reflexivity.
  - rewrite runStrategies_cons. specialize (Hs w).
    destruct (outcome (s d w)) as [[|]|e|]; simpl; eauto. congruence.
Qed.

(** The failures of a prefix can be lined up from any state. *)
Lemma fails_all_fail d pre :
  Forall (fails d) pre -> forall w, exists w1 t1, all_fail d pre w w1 t1.
Proof.
  induction 1 as [| s pre Hs _ IH]; intros w.
  - exists w, []. constructor.
  - destruct (IH (final (s d w))) as (w1 & t1 & H1).
    exists w1, (trace (s d w) ++ t1). constructor; [apply Hs | exact H1].
Qed.

Lemma settles_all_fail_or_success d chain :
  Forall (settles d) chain -> forall w,
  (exists k, succeeds_at d chain w k) \/ (exists w' t, all_fail d chain w w' t).
Proof.
  induction 1 as [| s later Hs _ IH]; intros w.
  - right. exists w, []. constructor.
  - specialize (Hs w). destruct (outcome (s d w)) as [[|]|e|] eqn:E; [| | | congruence].
    + left. exists 0, s, w, []. repeat split; [constructor | exact E].
    + destruct (IH (final (s d w))) as [[k (s' & w1 & t1 & Hk & Hf & Hs')] | (w' & t & Hf)].
      * left. exists (S k), s', w1, (trace (s d w) ++ t1). repeat split; auto.
        simpl. constructor; auto.
      * right. exists w', (trace (s d w) ++ t). constructor; auto.
    + destruct (IH (final (s d w))) as [[k (s' & w1 & t1 & Hk & Hf & Hs')] | (w' & t & Hf)].
      * left. exists (S k), s', w1, (trace (s d w) ++ t1). repeat split; auto.
        simpl. constructor; eauto.
      * right. exists w', (trace (s d w) ++ t). constructor; eauto.
Qed.

Lemma tryConsoleLog_run to subject text d w :
  tryConsoleLog to subject text d w = mkRun (Returned true) w (console_block (now w)).
Proof. reflexivity. Qed.

Lemma succeeds_at_split d chain w k :
  succeeds_at d chain w k ->
  exists pre s post w1 t1, chain = pre ++ s :: post /\ length pre = k /\
    all_fail d pre w w1 t1 /\ outcome (s d w1) = Returned true.
Proof.
  intros (s & w1 & t1 & Hk & Hf & Hs).
  exists (take k chain), s, (drop (S k) chain), w1, t1.
  split; [symmetry; apply take_drop_middle; exact Hk |].
  split; [| split; assumption].
  apply length_take_le. apply lookup_lt_Some in Hk.
  apply Nat.lt_le_incl. exact Hk.
Qed.

Lemma runStrategies_ends_true d pre last :
  Forall (settles d) pre ->
  (forall w, outcome (last d w) = Returned true) ->
  forall w, outcome (runStrategies (pre ++ [last]) d w) = Returned true.
Proof.
  intros Hpre Hlast. induction Hpre as [| s pre Hs _ IH]; intros w; simpl app.
  - rewrite runStrategies_cons, Hlast. reflexivity.
  - rewrite runStrategies_cons. specialize (Hs w).
    destruct (outcome (s d w)) as [[|]|e|]; simpl; auto. congruence.
Qed.

Lemma strategies_split this to subject text :
  strategies this to subject text =
  take 7 (strategies this to subject text) ++ [tryConsoleLog to subject text].
Proof. reflexivity. Qed.

Lemma runStrategies_true_or_pending d pre last :
  (forall w, outcome (last d w) = Returned true) ->
  forall w,
    outcome (runStrategies (pre ++ [last]) d w) = Returned true
    \/ outcome (runStrategies (pre ++ [last]) d w) = Pending.
Proof.
  intros Hlast. induction pre as [| s pre IH]; intros w; simpl app.
  - rewrite runStrategies_cons, Hlast. left. reflexivity.
  - rewrite runStrategies_cons.
    destruct (outcome (s d w)) as [[|]|e|]; simpl; auto.
Qed.

Lemma fails_settles d s : fails d s -> settles d s.
Proof. intros H w. destruct (H w) as [-> | [e ->]]; discriminate. Qed.

(** C1. [sendEmail] has no error channel: whatever the injected services
    do, it never throws and never reports [false]; it returns [true] as
    soon as every strategy settles.  In particular, when each of the seven
    strategies ahead of the console logger reports failure or throws,
    [sendEmail] returns [true], and that [true] comes from
    [tryConsoleLog], whose lines close the trace. *)
Theorem sendEmail_returns_true_when_providers_fail this to subject text d w :
  let r := sendEmail this to subject text d w in
  (outcome r = Returned true \/ outcome r = Pending)
  /\ (Forall (settles d) (strategies this to subject text) -> outcome r = Returned true)
  /\ (Forall (fails d) (take 7 (strategies this to subject text)) ->
      outcome r = Returned true
      /\ exists before, trace r = before ++ console_block (now (final r))).
Proof.
  intros r. subst r. unfold sendEmail. split; [| split].
  - rewrite strategies_split. apply runStrategies_true_or_pending.
    intros w'. reflexivity.
  - intros Hsettle. rewrite strategies_split. apply runStrategies_ends_true.
    + rewrite strategies_split in Hsettle. apply Forall_app in Hsettle. tauto.
    + intros w'. reflexivity.
  - intros Hfail. split.
    + rewrite strategies_split. apply runStrategies_ends_true.
      * eapply Forall_impl; [exact Hfail | apply fails_settles].
      * intros w'. reflexivity.
    + destruct (fails_all_fail _ _ Hfail w) as (w1 & t1 & H1).
      rewrite strategies_split.
      rewrite (runStrategies_after_failures _ _ [tryConsoleLog to subject text] _ _ _ H1).
      exists t1. reflexivity.
Qed.

Lemma sendEmail_returns_true_when_providers_fail_witness :
  outcome (sendEmail failing "ann@example.org" "Booked" "See you" bare start) = Returned true
  /\ exists before,
       trace (sendEmail failing "ann@example.org" "Booked" "See you" bare start)
       = before ++ console_block (now start).
Proof.
  apply (proj2 (proj2 (sendEmail_returns_true_when_providers_fail
                         failing "ann@example.org" "Booked" "See you" bare start))).
  repeat (apply List.Forall_cons; [intros w; vm_compute; eauto |]).
  apply List.Forall_nil.
Defined.

Ltac line_up_failures :=
  repeat (eapply all_fail_cons; [vm_compute; eauto |]); apply all_fail_nil.

Ltac first_to_succeed :=
  eexists _, _, _;
  split; [reflexivity | split; [simpl take; line_up_failures | vm_compute; reflexivity]].

Lemma sendEmail_stops d this to subject text w pre s post w1 t1 :
  strategies this to subject text = pre ++ s :: post ->
  all_fail d pre w w1 t1 ->
  outcome (s d w1) = Returned true \/ outcome (s d w1) = Pending ->
  sendEmail this to subject text d w
  = mkRun (outcome (s d w1)) (final (s d w1)) (t1 ++ trace (s d w1)).
Proof.
  intros Hsplit Hpre Hs. unfold sendEmail. rewrite Hsplit.
  apply runStrategies_stops; assumption.
Qed.

(** C3, as the code has it.  Whichever strategy of the chain is the first
    to succeed (the first one, a later one, or the console logger),
    the caller of [sendEmail] receives the boolean [true] and nothing
    else. *)
Theorem sendEmail_true_whichever_strategy_succeeds this to subject text d w k :
  succeeds_at d (strategies this to subject text) w k ->
  outcome (sendEmail this to subject text d w) = Returned true.
Proof.
  intros H. apply succeeds_at_split in H.
  destruct H as (pre & s & post & w1 & t1 & Hsplit & _ & Hpre & Hs).
  rewrite (sendEmail_stops _ _ _ _ _ _ _ _ _ _ _ Hsplit Hpre (or_introl Hs)).
  exact Hs.
Qed.

Lemma sendEmail_true_whichever_strategy_succeeds_witness :
  succeeds_at sendgrid_up (strategies failing "ann@example.org" "Booked" "See you") start 1
  /\ outcome (sendEmail failing "ann@example.org" "Booked" "See you" sendgrid_up start)
     = Returned true.
Proof.
  assert (H : succeeds_at sendgrid_up
                (strategies failing "ann@example.org" "Booked" "See you") start 1).
  { first_to_succeed. }
  split; [exact H |].
  exact (sendEmail_true_whichever_strategy_succeeds _ _ _ _ _ _ _ H).
Defined.

(** C3, as stated, fails: three requests are served by three different
    strategies (the first, the second, the console logger), and the
    caller sees the same value each time. *)
Lemma sendEmail_result_hides_the_winning_strategy :
  let first := sendEmail (wired (ResendEmailService.new bare))
                 "ann@example.org" "Booked" "See you" bare start in
  let later := sendEmail failing "ann@example.org" "Booked" "See you" sendgrid_up start in
  let logged := sendEmail failing "ann@example.org" "Booked" "See you" bare start in
  succeeds_at bare (strategies (wired (ResendEmailService.new bare))
                      "ann@example.org" "Booked" "See you") start 0
  /\ succeeds_at sendgrid_up (strategies failing "ann@example.org" "Booked" "See you") start 1
  /\ succeeds_at bare (strategies failing "ann@example.org" "Booked" "See you") start 7
  /\ outcome first = Returned true
  /\ outcome later = Returned true
  /\ outcome logged = Returned true.
Proof.
  cbv zeta.
  split; [first_to_succeed | split; [first_to_succeed | split; [first_to_succeed |]]].
  split; [| split]; vm_compute; reflexivity.
Qed.

(** ** The timeout guard and the bucket cascade *)

Lemma leb_add_cancel (a b c : N) : ((a + b <=? a + c) = (b <=? c))%N.
Proof.
  destruct (b <=? c)%N eqn:E.
  - apply N.leb_le. apply N.leb_le in E. lia.
  - apply N.leb_gt. apply N.leb_gt in E. lia.
Qed.

Lemma uploadWithTimeout_call {A} c (answer : Outside -> nat -> Reply A) timeoutMs d w :
  uploadWithTimeout (await_call c answer) timeoutMs d w =
  match answer (outside d) (calls w) with
  | Fulfil ms a =>
      if (ms <=? timeoutMs)%N
      then mkRun (Returned a) (tick ms (called w)) [Call (calls w) c]
      else timed_out_call c timeoutMs w
  | Reject ms e =>
      if (ms <=? timeoutMs)%N
      then mkRun (Thrown e) (tick ms (called w)) [Call (calls w) c]
      else timed_out_call c timeoutMs w
  | Never => timed_out_call c timeoutMs w
  end.
Proof.
  unfold uploadWithTimeout, await_call, timed_out_call.
  destruct (answer (outside d) (calls w)) as [ms a | ms e |]; simpl;
    rewrite ?leb_add_cancel; try destruct (ms <=? timeoutMs)%N; reflexivity.
Qed.

(** What one bucket attempt does, by the answer of Supabase. *)
Lemma uploadToBucket_run bucket fileName buffer mimetype imageIndex total d w :
  let e := bucket_event bucket fileName buffer mimetype w in
  let r := uploadToBucket bucket fileName buffer mimetype imageIndex total d w in
  match took d e with
  | Some url =>
      exists ms line, outcome r = Returned (Some url) /\ final r = tick ms (called w)
                      /\ trace r = [e; Log line]
  | None =>
      outcome r = Returned None
      /\ (exists ms, final r = tick ms (called w) /\ trace r = [e])
         \/ (outcome r = Returned None
             /\ final r = at_time (now w + 30000) (called w)
             /\ trace r = [e; TimerFired 30000])
  end.
Proof.
  intros e r. subst e r.
  unfold uploadToBucket, try_catch, mbind, M_bind, bind, bucket_event, took.
  cbv zeta. fold (bucket_request bucket fileName buffer mimetype).
  rewrite uploadWithTimeout_call.
  destruct (supabase_upload (outside d) (calls w)
              (bucket_request bucket fileName buffer mimetype)) as [ms url | ms err |].
  - destruct (ms <=? 30000)%N; simpl.
    + destruct url as [url |]; simpl; [destruct (negb (String.eqb url EmptyString)) eqn:E |]; simpl.
      * eauto 10.
      * left. eauto.
      * left. eauto.
    + right. auto.
  - destruct (ms <=? 30000)%N; simpl; [left; eauto | right; auto].
  - simpl. right. auto.
Qed.

Lemma walk_targets d buffer tgs t won : walk d buffer tgs t won -> targets t = tgs.
Proof.
  induction 1 as [| tg tgs e q t won He _ Hq _ IH | tg e q url He _ _ Hq].
  - reflexivity.
  - unfold targets in *. simpl. rewrite He. simpl. f_equal.
    rewrite omap_app, IH. destruct Hq as [-> | ->]; reflexivity.
  - unfold targets. simpl. rewrite He. simpl. f_equal.
    destruct Hq as [-> | [line ->]]; reflexivity.
Qed.

Lemma walk_no_attempt_after_success d buffer tgs t won :
  walk d buffer tgs t won -> no_attempt_after_success d t = true.
Proof.
  induction 1 as [| tg tgs e q t won _ He Hq _ IH | tg e q url _ _ He Hq].
  - reflexivity.
  - simpl. rewrite He. destruct Hq as [-> | ->]; simpl; exact IH.
  - simpl. rewrite He. destruct Hq as [-> | [line ->]]; reflexivity.
Qed.


(** A successful attempt of a walk is the one that ends it. *)
Lemma walk_took d buffer tgs t won :
  walk d buffer tgs t won ->
  forall e url, e ∈ t -> took d e = Some url -> won = Some url.
Proof.
  induction 1 as [| tg tgs e0 q t won _ He0 Hq _ IH | tg e0 q u _ _ He0 Hq]; intros e url Hin Ht.
  - apply elem_of_nil in Hin. contradiction.
  - apply elem_of_cons in Hin as [-> | Hin]; [congruence |].
    apply elem_of_app in Hin as [Hin | Hin]; [| exact (IH e url Hin Ht)].
    destruct Hq as [-> | ->].
    + apply elem_of_nil in Hin. contradiction.
    + apply list_elem_of_singleton in Hin. subst e. discriminate Ht.
  - apply elem_of_cons in Hin as [-> | Hin]; [congruence |].
    destruct Hq as [-> | [line ->]].
    + apply elem_of_nil in Hin. contradiction.
    + apply list_elem_of_singleton in Hin. subst e. discriminate Ht.
Qed.

Lemma walk_app d buffer tgs1 t1 tgs2 t2 won :
  walk d buffer tgs1 t1 None -> walk d buffer tgs2 t2 won ->
  walk d buffer (tgs1 ++ tgs2) (t1 ++ t2) won.
Proof.
  intros Hfirst Hsecond. remember None as none eqn:En.
  induction Hfirst as [| tg tgs e q t w0 He Ht Hq _ IH |].
  - exact Hsecond.
  - simpl. rewrite <- app_assoc. apply walk_fail; auto.
  - discriminate.
Qed.

(** One bucket attempt, as a step of the walk. *)
Lemma uploadToBucket_walk bucket fileName buffer mimetype imageIndex total d w :
  let r := uploadToBucket bucket fileName buffer mimetype imageIndex total d w in
  (exists url, outcome r = Returned (Some url)
               /\ walk d buffer [SupabaseBucket bucket] (trace r) (Some url))
  \/ (outcome r = Returned None
      /\ walk d buffer [SupabaseBucket bucket] (trace r) None).
Proof.
  intros r. subst r.
  pose proof (uploadToBucket_run bucket fileName buffer mimetype imageIndex total d w) as H.
  cbv zeta in H.
  destruct (took d (bucket_event bucket fileName buffer mimetype w)) as [url |] eqn:Et.
  - destruct H as (ms & line & Ho & _ & Htr). left. exists url. split; [exact Ho |].
    rewrite Htr. apply walk_won; eauto.
  - right. destruct H as [[Ho (ms & _ & Htr)] | (Ho & _ & Htr)]; (split; [exact Ho |]); rewrite Htr.
    + apply (walk_fail d buffer _ [] _ [] [] None); auto. constructor.
    + apply (walk_fail d buffer _ [] _ [TimerFired 30000] [] None); auto. constructor.
Qed.

Lemma trySupabaseBuckets_cons bucket later fileName buffer mimetype imageIndex total d w :
  trySupabaseBuckets (bucket :: later) fileName buffer mimetype imageIndex total d w =
  let r := uploadToBucket bucket fileName buffer mimetype imageIndex total d w in
  match outcome r with
  | Returned (Some imageUrl) => mkRun (Returned (imageUrl, true)) (final r) (trace r)
  | Returned None =>
      let r' := trySupabaseBuckets later fileName buffer mimetype imageIndex total d (final r) in
      mkRun (outcome r') (final r') (trace r ++ trace r')
  | Thrown e => mkRun (Thrown e) (final r) (trace r)
  | Pending => mkRun Pending (final r) (trace r)
  end.
Proof.
  change (trySupabaseBuckets (bucket :: later) fileName buffer mimetype imageIndex total d w)
    with (bind (uploadToBucket bucket fileName buffer mimetype imageIndex total)
            (fun found => match found with
                          | Some imageUrl => mret (imageUrl, true)
                          | None => trySupabaseBuckets later fileName buffer mimetype imageIndex total
                          end) d w).
  unfold bind. cbv zeta.
  destruct (outcome (uploadToBucket bucket fileName buffer mimetype imageIndex total d w))
    as [[url |] | e |]; try reflexivity.
  simpl. rewrite app_nil_r. reflexivity.
Qed.

(** The loop over the buckets walks them in order and stops at the first
    that takes the file. *)
Lemma trySupabaseBuckets_walk buckets fileName buffer mimetype imageIndex total d w :
  let r := trySupabaseBuckets buckets fileName buffer mimetype imageIndex total d w in
  (exists k url, k <= length buckets
     /\ outcome r = Returned (url, true)
     /\ walk d buffer (take k (map SupabaseBucket buckets)) (trace r) (Some url))
  \/ (outcome r = Returned (EmptyString, false)
      /\ walk d buffer (map SupabaseBucket buckets) (trace r) None).
Proof.
  revert w. induction buckets as [| bucket later IH]; intros w r; subst r.
  - right. split; [reflexivity | constructor].
  - rewrite trySupabaseBuckets_cons. cbv zeta.
    destruct (uploadToBucket_walk bucket fileName buffer mimetype imageIndex total d w)
      as [(url & Ho & Hw) | (Ho & Hw)]; rewrite Ho.
    + left. exists 1, url. simpl. split; [lia |]. split; [reflexivity | exact Hw].
    + specialize (IH (final (uploadToBucket bucket fileName buffer mimetype imageIndex total d w))).
      cbv zeta in IH. destruct IH as [(k & url & Hk & Ho' & Hw') | (Ho' & Hw')]; simpl.
      * left. exists (S k), url. split; [simpl; lia |]. split; [exact Ho' |].
        simpl take. apply (walk_app d buffer [SupabaseBucket bucket]); assumption.
      * right. split; [exact Ho' |].
        apply (walk_app d buffer [SupabaseBucket bucket]); assumption.
Qed.

Lemma tryS3_walk fileName buffer mimetype d w :
  let r := tryS3 fileName buffer mimetype d w in
  (exists url, outcome r = Returned (url, true)
               /\ walk d buffer [AwsS3] (trace r) (Some url))
  \/ ((outcome r = Returned (EmptyString, false)
       \/ (outcome r = Pending /\ exists u, s3_upload (outside d) (calls w) u = Never))
      /\ walk d buffer [AwsS3] (trace r) None).
Proof.
  intros r. subst r.
  unfold tryS3, try_catch, mbind, M_bind, bind, configService_get, await_call.
  cbn [outcome final trace].
  match goal with
  | |- context [s3_upload (outside d) (calls w) ?u] =>
      set (request := u);
      assert (Htook : took d (Call (calls w) (S3UploadCall request))
                      = match s3_upload (outside d) (calls w) request with
                        | Fulfil _ location => if JS.truthy location then location else None
                        | _ => None
                        end) by reflexivity;
      destruct (s3_upload (outside d) (calls w) request) as [ms location | ms err |] eqn:E
  end; cbn [outcome final trace app mret M_ret ret].
  - destruct location as [url |]; [destruct (String.eqb url EmptyString) eqn:Eu |].
    + apply String.eqb_eq in Eu. subst url. right. split; [left; reflexivity |].
      apply (walk_fail d buffer _ [] _ [] [] None); auto. constructor.
    + left. exists url. unfold JS.or, JS.truthy, JS.str. rewrite Eu. simpl. rewrite Eu.
      split; [reflexivity |].
      apply walk_won; auto. rewrite Htook. unfold JS.truthy. rewrite Eu. reflexivity.
    + right. split; [left; reflexivity |].
      apply (walk_fail d buffer _ [] _ [] [] None); auto. constructor.
  - right. split; [left; reflexivity |].
    apply (walk_fail d buffer _ [] _ [] [] None); auto. constructor.
  - right. split; [right; split; [reflexivity | exists request; exact E] |].
    apply (walk_fail d buffer _ [] _ [] [] None); auto. constructor.
Qed.

Lemma take_buckets_cascade k :
  k <= length supabaseBuckets ->
  take k (map SupabaseBucket supabaseBuckets) = take k cascade.
Proof. destruct k as [| [| [| k]]]; simpl; intros H; try reflexivity; lia. Qed.

(** The cascade of one image: a banner, then the targets in order up to
    the first success. *)
Lemma uploadOne_walk hasAwsConfig ext base64Data imageIndex total d w :
  let r := uploadOne hasAwsConfig ext base64Data imageIndex total d w in
  exists banner k won t,
    trace r = Log banner :: t
    /\ walk d (Buffer_from_base64 base64Data) (take k cascade) t won
    /\ (outcome r = Returned (default EmptyString won)
        \/ (won = None /\ outcome r = Pending
            /\ exists n u, s3_upload (outside d) n u = Never)).
Proof.
  intros r. subst r. unfold uploadOne.
  unfold mbind, M_bind, bind, Date_now, Math_random_36, process_env, console_log, emit.
  cbn [outcome final trace].
  destruct (bool_decide (env d !! "NODE_ENV" = Some "local"));
    cbn [outcome final trace app];
    match goal with
    | |- context [outcome (trySupabaseBuckets ?b ?fn ?buf ?mt ?i ?n d ?w0)] =>
        pose proof (trySupabaseBuckets_walk b fn buf mt i n d w0) as Hw; cbv zeta in Hw;
        set (fileName := fn) in *; set (mimetype := mt) in *;
        set (r := trySupabaseBuckets b fileName buf mimetype i n d w0) in *
    end.
  - destruct Hw as [(k & url & Hk & Ho & Hwalk) | (Ho & Hwalk)]; rewrite Ho;
      cbn [outcome final trace mret M_ret ret app]; rewrite app_nil_r.
    + eexists _, k, (Some url), (trace r). split; [reflexivity |]. split; [| left; reflexivity].
      rewrite <- take_buckets_cascade by exact Hk. exact Hwalk.
    + eexists _, 2, None, (trace r). split; [reflexivity |]. split; [| left; reflexivity].
      exact Hwalk.
  - destruct Hw as [(k & url & Hk & Ho & Hwalk) | (Ho & Hwalk)]; rewrite Ho;
      cbn [outcome final trace mret M_ret ret app negb andb].
    + rewrite !app_nil_r.
      eexists _, k, (Some url), (trace r). split; [reflexivity |]. split; [| left; reflexivity].
      rewrite <- take_buckets_cascade by exact Hk. exact Hwalk.
    + destruct hasAwsConfig; cbn [outcome final trace mret M_ret ret app negb andb].
      * pose proof (tryS3_walk fileName (Buffer_from_base64 base64Data) mimetype d (final r)) as Hs.
        cbv zeta in Hs. set (s := tryS3 fileName (Buffer_from_base64 base64Data) mimetype d (final r)) in *.
        destruct Hs as [(url & Hos & Hws) | ([Hos | (Hos & u & Hu)] & Hws)]; rewrite Hos;
          cbn [outcome final trace mret M_ret ret app negb andb]; rewrite ?app_nil_r.
        -- eexists _, 3, (Some url), (trace r ++ trace s).
           split; [reflexivity |]. split; [| left; reflexivity].
           apply (walk_app d _ [SupabaseBucket "profiles"; SupabaseBucket "uploads"] _ [AwsS3]);
             assumption.
        -- eexists _, 3, None, (trace r ++ trace s).
           split; [reflexivity |]. split; [| left; reflexivity].
           apply (walk_app d _ [SupabaseBucket "profiles"; SupabaseBucket "uploads"] _ [AwsS3]);
             assumption.
        -- eexists _, 3, None, (trace r ++ trace s).
           split; [reflexivity |]. split; [| right; eauto].
           apply (walk_app d _ [SupabaseBucket "profiles"; SupabaseBucket "uploads"] _ [AwsS3]);
             assumption.
      * rewrite !app_nil_r.
        eexists _, 2, None, (trace r). split; [reflexivity |]. split; [| left; reflexivity].
        exact Hwalk.
Qed.

(** C2. Both chains attempt their adapters one at a time, in the
    configured order, and stop at the first success.

    E-mail: when the strategies ahead of [s] have been tried in order and
    have all failed, and [s] then succeeds (or never settles), the run of
    [sendEmail] is exactly those attempts followed by [s]; no strategy
    placed after [s] contributes anything.

    Images: the upload calls made for one image follow the order
    Supabase "profiles", Supabase "uploads", AWS S3, and no call is made
    after one that succeeded. *)
Theorem adapters_tried_in_order_until_first_success :
  (forall this to subject text d w pre s post w1 t1,
      strategies this to subject text = pre ++ s :: post ->
      all_fail d pre w w1 t1 ->
      outcome (s d w1) = Returned true \/ outcome (s d w1) = Pending ->
      sendEmail this to subject text d w
      = mkRun (outcome (s d w1)) (final (s d w1)) (t1 ++ trace (s d w1)))
  /\
  (forall hasAwsConfig ext base64Data imageIndex total d w,
      let t := trace (uploadOne hasAwsConfig ext base64Data imageIndex total d w) in
      (exists k, targets t = take k cascade)
      /\ no_attempt_after_success d t = true).
Proof.
  split.
  - intros this to subject text d w pre s post w1 t1 Hsplit Hpre Hs.
    exact (sendEmail_stops _ _ _ _ _ _ _ _ _ _ _ Hsplit Hpre Hs).
  - intros hasAwsConfig ext base64Data imageIndex total d w t. subst t.
    destruct (uploadOne_walk hasAwsConfig ext base64Data imageIndex total d w)
      as (banner & k & won & t & Htrace & Hwalk & _).
    rewrite Htrace. split.
    + exists k. change (targets (Log banner :: t)) with (targets t).
      apply (walk_targets _ _ _ _ _ Hwalk).
    + change (no_attempt_after_success d (Log banner :: t))
        with (no_attempt_after_success d t).
      apply (walk_no_attempt_after_success _ _ _ _ _ Hwalk).
Qed.

Lemma adapters_tried_in_order_until_first_success_witness :
  sendEmail failing "ann@example.org" "Booked" "See you" sendgrid_up start
  = mkRun (Returned true)
      (final (trySendGridAPI "ann@example.org" "Booked" "See you" sendgrid_up start))
      (trace (trySendGridAPI "ann@example.org" "Booked" "See you" sendgrid_up start))
  /\ no_attempt_after_success bare
       (trace (uploadOne false "png" "iVBORw0KGgo=" 1 1 bare start)) = true.
Proof.
  split.
  - apply (proj1 adapters_tried_in_order_until_first_success
             failing "ann@example.org" "Booked" "See you" sendgrid_up start
             [tryResend failing "ann@example.org" "Booked" "See you"]
             (trySendGridAPI "ann@example.org" "Booked" "See you")
             (drop 2 (strategies failing "ann@example.org" "Booked" "See you"))
             start []).
    + reflexivity.
    + apply (all_fail_cons sendgrid_up
               (tryResend failing "ann@example.org" "Booked" "See you") [] start start []).
      * left. reflexivity.
      * apply all_fail_nil.
    + left. vm_compute. reflexivity.
  - apply (proj2 adapters_tried_in_order_until_first_success
             false "png" "iVBORw0KGgo=" 1 1 bare start).
Defined.

(** ** Deadlines *)

Lemma uploadToBucket_never bucket fileName buffer mimetype imageIndex total d w :
  supabase_upload (outside d) (calls w) (bucket_request bucket fileName buffer mimetype) = Never ->
  uploadToBucket bucket fileName buffer mimetype imageIndex total d w
  = mkRun (Returned None) (at_time (now w + 30000) (called w))
      [bucket_event bucket fileName buffer mimetype w; TimerFired 30000].
Proof.
  intros H. unfold uploadToBucket, try_catch, mbind, M_bind, bind. cbv zeta.
  fold (bucket_request bucket fileName buffer mimetype).
  rewrite uploadWithTimeout_call, H. reflexivity.
Qed.

(** C4, as the code has it.  [uploadWithTimeout] always settles, no later
    than its deadline, and turns a promise that never settles into the
    rejection "Upload timeout after <timeoutMs>ms" at the deadline.  Each
    Supabase attempt of the image cascade is guarded this way with 30000 ms:
    when Supabase never answers for a bucket, the loop goes on with the
    next bucket 30000 ms later.  The e-mail chain awaits its strategies
    directly: a strategy that never settles leaves [sendEmail] pending. *)
Theorem supabase_attempts_are_bounded_and_email_strategies_are_not :
  (forall (A : Type) (uploadPromise : M A) timeoutMs d w,
      let r := uploadWithTimeout uploadPromise timeoutMs d w in
      outcome r <> Pending
      /\ (now (final r) <= now w + timeoutMs)%N
      /\ (outcome (uploadPromise d w) = Pending ->
          outcome r = Thrown (Err ("Upload timeout after " ++ JS.of_N timeoutMs ++ "ms")%string)
          /\ now (final r) = (now w + timeoutMs)%N))
  /\
  (forall bucket later fileName buffer mimetype imageIndex total d w,
      supabase_upload (outside d) (calls w)
        (bucket_request bucket fileName buffer mimetype) = Never ->
      let rest := trySupabaseBuckets later fileName buffer mimetype imageIndex total d
                    (at_time (now w + 30000) (called w)) in
      trySupabaseBuckets (bucket :: later) fileName buffer mimetype imageIndex total d w
      = mkRun (outcome rest) (final rest)
          ([bucket_event bucket fileName buffer mimetype w; TimerFired 30000] ++ trace rest))
  /\
  (forall this to subject text d w pre s post w1 t1,
      strategies this to subject text = pre ++ s :: post ->
      all_fail d pre w w1 t1 ->
      outcome (s d w1) = Pending ->
      outcome (sendEmail this to subject text d w) = Pending).
Proof.
  split; [| split].
  - intros A uploadPromise timeoutMs d w r. subst r. unfold uploadWithTimeout.
    destruct (outcome (uploadPromise d w)) as [a | e |] eqn:Ho.
    + destruct (now (final (uploadPromise d w)) <=? now w + timeoutMs)%N eqn:Et.
      * rewrite Ho. split; [discriminate |]. split; [| discriminate].
        apply N.leb_le in Et. lia.
      * simpl. split; [discriminate |]. split; [lia | discriminate].
    + destruct (now (final (uploadPromise d w)) <=? now w + timeoutMs)%N eqn:Et.
      * rewrite Ho. split; [discriminate |]. split; [| discriminate].
        apply N.leb_le in Et. lia.
      * simpl. split; [discriminate |]. split; [lia | discriminate].
    + simpl. split; [discriminate |]. split; [lia | auto].
  - intros bucket later fileName buffer mimetype imageIndex total d w H rest. subst rest.
    rewrite trySupabaseBuckets_cons. cbv zeta.
    rewrite (uploadToBucket_never _ _ _ _ _ _ _ _ H). reflexivity.
  - intros this to subject text d w pre s post w1 t1 Hsplit Hpre Hs.
    rewrite (sendEmail_stops _ _ _ _ _ _ _ _ _ _ _ Hsplit Hpre (or_intror Hs)).
    exact Hs.
Qed.

Lemma supabase_attempts_are_bounded_and_email_strategies_are_not_witness :
  outcome (uploadWithTimeout
             (await_call
                (SupabaseUploadCall
                   (bucket_request "profiles" "photo.png" "iVBORw0KGgo=" "image/png"))
                (fun o n =>
                   supabase_upload o n
                     (bucket_request "profiles" "photo.png" "iVBORw0KGgo=" "image/png")))
             30000 profiles_silent start)
  = Thrown (Err "Upload timeout after 30000ms")
  /\ trace (trySupabaseBuckets supabaseBuckets "photo.png" "iVBORw0KGgo=" "image/png" 1 1
           profiles_silent start)
  = [bucket_event "profiles" "photo.png" "iVBORw0KGgo=" "image/png" start;
     TimerFired 30000]
    ++ trace (trySupabaseBuckets ["uploads"] "photo.png" "iVBORw0KGgo=" "image/png" 1 1
                profiles_silent (at_time (now start + 30000) (called start)))
  /\ outcome (sendEmail (wired (ResendEmailService.new resend_silent))
                "ann@example.org" "Booked" "See you" resend_silent start) = Pending.
Proof.
  split; [| split].
  - apply (proj1 supabase_attempts_are_bounded_and_email_strategies_are_not
             (option string)
             (await_call
                (SupabaseUploadCall
                   (bucket_request "profiles" "photo.png" "iVBORw0KGgo=" "image/png"))
                (fun o n =>
                   supabase_upload o n
                     (bucket_request "profiles" "photo.png" "iVBORw0KGgo=" "image/png")))
             30000%N profiles_silent start).
    reflexivity.
  - apply (f_equal trace
             (proj1 (proj2 supabase_attempts_are_bounded_and_email_strategies_are_not)
                "profiles" ["uploads"] "photo.png" "iVBORw0KGgo=" "image/png" 1 1
                profiles_silent start eq_refl)).
  - apply (proj2 (proj2 supabase_attempts_are_bounded_and_email_strategies_are_not)
             (wired (ResendEmailService.new resend_silent))
             "ann@example.org" "Booked" "See you" resend_silent start
             []
             (tryResend (wired (ResendEmailService.new resend_silent))
                "ann@example.org" "Booked" "See you")
             (drop 1 (strategies (wired (ResendEmailService.new resend_silent))
                        "ann@example.org" "Booked" "See you"))
             start []).
    + reflexivity.
    + apply all_fail_nil.
    + vm_compute. reflexivity.
Defined.

(** C4, as stated, fails on the e-mail chain: when the Resend API never
    answers, no deadline fires and no later strategy is attempted;
    [sendEmail] stays pending after its single external call. *)
Lemma sendEmail_hangs_when_resend_never_answers :
  let r := sendEmail (wired (ResendEmailService.new resend_silent))
             "ann@example.org" "Booked" "See you" resend_silent start in
  outcome r = Pending
  /\ length (ext_calls (trace r)) = 1
  /\ Forall (fun e => forall ms, e <> TimerFired ms) (trace r).
Proof.
  cbv zeta. split; [vm_compute; reflexivity |].
  split; [vm_compute; reflexivity |].
  vm_compute. repeat (apply List.Forall_cons; [intros ms; discriminate |]).
  apply List.Forall_nil.
Qed.

(** ** The Resend service *)

Lemma logEmailFallback_run to subject text d w :
  ResendEmailService.logEmailFallback to subject text d w
  = mkRun (Returned true) (drawn w) (resend_fallback_block to subject text d w).
Proof. reflexivity. Qed.

(** Every path of [ResendEmailService.sendEmail]: it logs its
    configuration, then either falls back to logging at once, or calls the
    API and, by the answer, returns [true], falls back to logging, or
    stays pending. *)
Lemma resend_sendEmail_run resend to subject text d w :
  let r := ResendEmailService.sendEmail resend to subject text d w in
  let call := Call (calls w) (ResendSend (resend_request to subject text d)) in
  exists fields,
    let line := LogObj "📧 Resend Config:" fields in
    if resend_unavailable resend d
    then r = mkRun (Returned true) (drawn w) (line :: resend_fallback_block to subject text d w)
    else
      match resend_emails_send (outside d) (calls w) (resend_request to subject text d) with
      | Fulfil ms {| rs_data := _; rs_error := None |} =>
          r = mkRun (Returned true) (tick ms (called w)) [line; call]
      | Fulfil ms {| rs_data := _; rs_error := Some _ |}
      | Reject ms _ =>
          r = mkRun (Returned true) (drawn (tick ms (called w)))
                (line :: call :: resend_fallback_block to subject text d (tick ms (called w)))
      | Never => r = mkRun Pending (called w) [line; call]
      end.
Proof.
  intros r call. subst r call.
  unfold ResendEmailService.sendEmail, mbind, M_bind, resend_unavailable.
  eexists.
  destruct (negb (JS.truthy (JS.or (env d !! "RESEND_API_KEY") (config d !! "resend.apiKey")))
            || negb (bool_decide (is_Some (ResendEmailService.resendClient resend)))) eqn:G.
  - erewrite run_try_returned; [reflexivity |].
    run_steps. rewrite G. reflexivity.
  - fold (resend_request to subject text d).
    destruct (resend_emails_send (outside d) (calls w) (resend_request to subject text d))
      as [ms [data [err |]] | ms err |] eqn:E.
    + erewrite run_try_returned; [reflexivity |].
      run_steps. rewrite G.
      erewrite run_bind_returned.
      2:{ unfold await_call. fold (resend_request to subject text d). rewrite E. reflexivity. }
      reflexivity.
    + erewrite run_try_returned; [reflexivity |].
      run_steps. rewrite G.
      erewrite run_bind_returned.
      2:{ unfold await_call. fold (resend_request to subject text d). rewrite E. reflexivity. }
      reflexivity.
    + erewrite run_try_thrown.
      2:{ run_steps. rewrite G.
          erewrite run_bind_thrown.
          2:{ unfold await_call. fold (resend_request to subject text d). rewrite E. reflexivity. }
          reflexivity. }
      reflexivity.
    + erewrite run_try_pending; [reflexivity |].
      run_steps. rewrite G.
      erewrite run_bind_pending.
      2:{ unfold await_call. fold (resend_request to subject text d). rewrite E. reflexivity. }
      reflexivity.
Qed.

Lemma resend_sendEmail_outcome resend to subject text d w :
  outcome (ResendEmailService.sendEmail resend to subject text d w) = Returned true
  \/ outcome (ResendEmailService.sendEmail resend to subject text d w) = Pending.
Proof.
  destruct (resend_sendEmail_run resend to subject text d w) as [fields H]. cbv zeta in H.
  destruct (resend_unavailable resend d); [rewrite H; left; reflexivity |].
  destruct (resend_emails_send (outside d) (calls w) (resend_request to subject text d))
    as [ms [data [err |]] | ms err |]; rewrite H; auto.
Qed.

(** Wired to the repository's own services, the chain never gets past its
    first strategy: its run is the run of [ResendEmailService.sendEmail]. *)
Lemma wired_sendEmail_is_resend resend to subject text d w :
  sendEmail (wired resend) to subject text d w
  = ResendEmailService.sendEmail resend to subject text d w.
Proof.
  unfold sendEmail, strategies. rewrite runStrategies_cons.
  unfold tryResend, rethrowing, try_catch. cbn [resendEmailService wired].
  pose proof (resend_sendEmail_outcome resend to subject text d w) as H.
  destruct (ResendEmailService.sendEmail resend to subject text d w) as [o f t].
  cbn [outcome] in H. destruct H as [-> | ->]; reflexivity.
Qed.

(** C6. Without a Resend client (no API key when the service was built),
    [ResendEmailService.sendEmail] returns [true] through its logging
    fallback, without any external call; the run of [sendEmail] on the
    wired chain is that very run: [true] after the first strategy, and no
    attempt of SendGrid, Gmail SMTP or any later strategy. *)
Theorem resend_without_client_returns_true_and_ends_the_chain
    resend to subject text d w :
  ResendEmailService.resendClient resend = None ->
  let r := ResendEmailService.sendEmail resend to subject text d w in
  outcome r = Returned true
  /\ (exists line, trace r = line :: resend_fallback_block to subject text d w)
  /\ ext_calls (trace r) = []
  /\ sendEmail (wired resend) to subject text d w = r.
Proof.
  intros Hclient r. subst r.
  destruct (resend_sendEmail_run resend to subject text d w) as [fields H]. cbv zeta in H.
  assert (G : resend_unavailable resend d = true).
  { unfold resend_unavailable. rewrite Hclient. apply orb_true_r. }
  rewrite G in H.
  split; [rewrite H; reflexivity |].
  split; [eexists; rewrite H; reflexivity |].
  split; [| apply wired_sendEmail_is_resend].
  rewrite H. reflexivity.
Qed.

Lemma resend_without_client_returns_true_and_ends_the_chain_witness :
  outcome (ResendEmailService.sendEmail (ResendEmailService.new bare)
             "ann@example.org" "Booked" "See you" bare start) = Returned true
  /\ sendEmail (wired (ResendEmailService.new bare))
       "ann@example.org" "Booked" "See you" bare start
     = ResendEmailService.sendEmail (ResendEmailService.new bare)
         "ann@example.org" "Booked" "See you" bare start.
Proof.
  destruct (resend_without_client_returns_true_and_ends_the_chain
              (ResendEmailService.new bare)
              "ann@example.org" "Booked" "See you" bare start eq_refl)
    as (Htrue & _ & _ & Hsame).
  split; [exact Htrue | exact Hsame].
Defined.

(** ** Missing credentials *)

Lemma tryGmailSMTP_unconfigured to subject text d w :
  JS.truthy (JS.or (env d !! "SMTP_USER") (config d !! "email.SMTP_USER")) = false
  \/ JS.truthy (JS.or (env d !! "SMTP_PASS") (config d !! "email.SMTP_PASS")) = false ->
  exists line,
    tryGmailSMTP to subject text d w
    = mkRun (Thrown (Err "Gmail SMTP credentials not configured")) w [line]
    /\ ext_calls [line] = [].
Proof.
  intros H.
  assert (Hguard : negb (JS.truthy (JS.or (env d !! "SMTP_USER") (config d !! "email.SMTP_USER")))
                   || negb (JS.truthy (JS.or (env d !! "SMTP_PASS") (config d !! "email.SMTP_PASS")))
                   = true).
  { destruct H as [-> | ->]; [reflexivity | apply orb_true_r]. }
  unfold tryGmailSMTP, rethrowing, mbind, M_bind.
  eexists. split.
  - erewrite run_try_thrown.
    2:{ run_steps. rewrite Hguard. reflexivity. }
    reflexivity.
  - reflexivity.
Qed.

Lemma trySendGridAPI_unconfigured to subject text d w :
  JS.truthy (JS.or (env d !! "SENDGRID_API_KEY") (config d !! "sendGrid.apiKey")) = false
  \/ JS.truthy (JS.or (env d !! "SENDGRID_FROM_EMAIL") (config d !! "sendGrid.fromEmail")) = false ->
  exists line,
    trySendGridAPI to subject text d w
    = mkRun (Thrown (Err "SendGrid API credentials not configured")) w [line]
    /\ ext_calls [line] = [].
Proof.
  intros H.
  assert (Hguard : negb (JS.truthy (JS.or (env d !! "SENDGRID_API_KEY") (config d !! "sendGrid.apiKey")))
                   || negb (JS.truthy (JS.or (env d !! "SENDGRID_FROM_EMAIL") (config d !! "sendGrid.fromEmail")))
                   = true).
  { destruct H as [-> | ->]; [reflexivity | apply orb_true_r]. }
  unfold trySendGridAPI, rethrowing, mbind, M_bind.
  eexists. split.
  - erewrite run_try_thrown.
    2:{ run_steps. rewrite Hguard. reflexivity. }
    reflexivity.
  - reflexivity.
Qed.

(** C5, as the code has it.  Without SMTP user or password [tryGmailSMTP]
    throws "Gmail SMTP credentials not configured", and without API key or
    sender address [trySendGridAPI] throws "SendGrid API credentials not
    configured", both before any external call; the loop of [sendEmail]
    catches the error and goes on with the next strategy.  Without an API
    key [ResendEmailService.sendEmail] does not fail: it logs the message
    and returns [true]. *)
Theorem unconfigured_gmail_and_sendgrid_throw_and_resend_logs to subject text d w :
  (JS.truthy (JS.or (env d !! "SMTP_USER") (config d !! "email.SMTP_USER")) = false
   \/ JS.truthy (JS.or (env d !! "SMTP_PASS") (config d !! "email.SMTP_PASS")) = false ->
   let r := tryGmailSMTP to subject text d w in
   outcome r = Thrown (Err "Gmail SMTP credentials not configured")
   /\ ext_calls (trace r) = []
   /\ forall later,
        runStrategies (tryGmailSMTP to subject text :: later) d w
        = prepend (trace r) (runStrategies later d w))
  /\
  (JS.truthy (JS.or (env d !! "SENDGRID_API_KEY") (config d !! "sendGrid.apiKey")) = false
   \/ JS.truthy (JS.or (env d !! "SENDGRID_FROM_EMAIL") (config d !! "sendGrid.fromEmail")) = false ->
   let r := trySendGridAPI to subject text d w in
   outcome r = Thrown (Err "SendGrid API credentials not configured")
   /\ ext_calls (trace r) = []
   /\ forall later,
        runStrategies (trySendGridAPI to subject text :: later) d w
        = prepend (trace r) (runStrategies later d w))
  /\
  (JS.truthy (JS.or (env d !! "RESEND_API_KEY") (config d !! "resend.apiKey")) = false ->
   forall resend,
     let r := ResendEmailService.sendEmail resend to subject text d w in
     outcome r = Returned true /\ ext_calls (trace r) = []).
Proof.
  split; [| split].
  - intros H r. subst r.
    destruct (tryGmailSMTP_unconfigured to subject text d w H) as (line & Hrun & Hcalls).
    rewrite Hrun. cbn [outcome trace]. split; [reflexivity |]. split; [exact Hcalls |].
    intros later. rewrite runStrategies_cons, Hrun. reflexivity.
  - intros H r. subst r.
    destruct (trySendGridAPI_unconfigured to subject text d w H) as (line & Hrun & Hcalls).
    rewrite Hrun. cbn [outcome trace]. split; [reflexivity |]. split; [exact Hcalls |].
    intros later. rewrite runStrategies_cons, Hrun. reflexivity.
  - intros H resend r. subst r.
    assert (G : resend_unavailable resend d = true).
    { unfold resend_unavailable. rewrite H. reflexivity. }
    pose proof (resend_sendEmail_run resend to subject text d w) as [fields Hrun].
    cbv zeta in Hrun. rewrite G in Hrun. rewrite Hrun. split; reflexivity.
Qed.

Lemma unconfigured_gmail_and_sendgrid_throw_and_resend_logs_witness :
  outcome (tryGmailSMTP "ann@example.org" "Booked" "See you" bare start)
  = Thrown (Err "Gmail SMTP credentials not configured")
  /\ outcome (trySendGridAPI "ann@example.org" "Booked" "See you" bare start)
     = Thrown (Err "SendGrid API credentials not configured")
  /\ outcome (ResendEmailService.sendEmail (ResendEmailService.new bare)
                "ann@example.org" "Booked" "See you" bare start) = Returned true.
Proof.
  pose proof (unconfigured_gmail_and_sendgrid_throw_and_resend_logs
                "ann@example.org" "Booked" "See you" bare start) as (Hgmail & Hgrid & Hresend).
  split; [exact (proj1 (Hgmail (or_introl eq_refl))) |].
  split; [exact (proj1 (Hgrid (or_introl eq_refl))) |].
  exact (proj1 (Hresend eq_refl (ResendEmailService.new bare))).
Defined.

(** C5, as stated, fails for Resend: with no API key configured the
    adapter reports success, not failure, and the chain stops at it
    instead of advancing. *)
Lemma resend_without_api_key_reports_success :
  let resend := ResendEmailService.new bare in
  ResendEmailService.resendClient resend = None
  /\ outcome (ResendEmailService.sendEmail resend
                "ann@example.org" "Booked" "See you" bare start) = Returned true
  /\ succeeds_at bare (strategies (wired resend) "ann@example.org" "Booked" "See you") start 0.
Proof.
  cbv zeta. split; [reflexivity |]. split; [vm_compute; reflexivity |].
  first_to_succeed.
Qed.

(** ** Identifiers *)

(** C9, as the code has it.  There is no identifier of the request:
    [sendEmail] hands [to], [subject] and [text] to its strategies and
    nothing else.  Each logging adapter makes an identifier of its own
    when it runs, from its own prefix, the clock and a random draw; one
    [sendEmail] through the wired chain writes at most one identifier,
    and none when Resend accepts the message. *)
Theorem identifiers_are_made_by_each_logging_adapter to subject text d w :
  ids (trace (WebhookEmailService.sendEmailViaWebhook to subject text d w))
  = [made_id "email_" d w]
  /\ ids (trace (RailwayEmailService.sendEmail to subject text d w))
     = [made_id "railway_email_" d w]
  /\ ids (trace (RailwayDirectEmailService.sendEmail to subject text d w))
     = [made_id "railway_direct_" d w]
  /\ ids (trace (ResendEmailService.logEmailFallback to subject text d w))
     = [made_id "resend_fallback_" d w]
  /\ ids (trace (tryConsoleLog to subject text d w)) = []
  /\ forall resend,
       length (ids (trace (sendEmail (wired resend) to subject text d w))) <= 1
       /\ (resend_unavailable resend d = false ->
           forall ms data,
             resend_emails_send (outside d) (calls w) (resend_request to subject text d)
             = Fulfil ms {| rs_data := data; rs_error := None |} ->
             ids (trace (sendEmail (wired resend) to subject text d w)) = []).
Proof.
  repeat (split; [reflexivity |]).
  intros resend. rewrite wired_sendEmail_is_resend.
  destruct (resend_sendEmail_run resend to subject text d w) as [fields H]. cbv zeta in H.
  destruct (resend_unavailable resend d).
  - rewrite H. split; [simpl; lia | discriminate].
  - destruct (resend_emails_send (outside d) (calls w) (resend_request to subject text d))
      as [ms [data [err |]] | ms err |]; rewrite H;
      (split; [simpl; lia | intros _ ms' data' Heq; try discriminate Heq; reflexivity]).
Qed.

Lemma identifiers_are_made_by_each_logging_adapter_witness :
  ids (trace (sendEmail (wired (ResendEmailService.new resend_up))
                "ann@example.org" "Booked" "See you" resend_up start)) = [].
Proof.
  apply (proj2 (proj2 (proj2 (proj2 (proj2 (proj2
           (identifiers_are_made_by_each_logging_adapter
              "ann@example.org" "Booked" "See you" resend_up start)))))
           (ResendEmailService.new resend_up)) eq_refl 90%N
           (Some "49a3999c-0ce1-4ea6-ab68-afcd6dc2e794") eq_refl).
Defined.

(** C9, as stated, fails.  A request that Resend delivers gets no
    identifier at all, and for one and the same request, in one and the
    same state, the logging adapters make identifiers that differ. *)
Lemma no_identifier_of_the_request :
  outcome (sendEmail (wired (ResendEmailService.new resend_up))
             "ann@example.org" "Booked" "See you" resend_up start) = Returned true
  /\ ids (trace (sendEmail (wired (ResendEmailService.new resend_up))
                   "ann@example.org" "Booked" "See you" resend_up start)) = []
  /\ ids (trace (WebhookEmailService.sendEmailViaWebhook
                   "ann@example.org" "Booked" "See you" bare start))
     = ["email_1700000000000_4fzyo82mv"]
  /\ ids (trace (RailwayEmailService.sendEmail
                   "ann@example.org" "Booked" "See you" bare start))
     = ["railway_email_1700000000000_4fzyo82mv"]
  /\ ids (trace (ResendEmailService.logEmailFallback
                   "ann@example.org" "Booked" "See you" bare start))
     = ["resend_fallback_1700000000000_4fzyo82mv"].
Proof. repeat split; vm_compute; reflexivity. Qed.

(** ** Creating a quotation request *)

(** Once the reference images are settled as [urls], [create] saves the
    entity carrying them and returns what the repository saved. *)
Lemma create_with_saves upload dto userId d w urls w1 t :
  match dto_referenceImages dto with
  | Some referenceImages =>
      if Nat.ltb 0 (length referenceImages)
      then try_catch (upload referenceImages) (fun uploadError => mret [])
      else mret []
  | None => mret []
  end d w = mkRun (Returned urls) w1 t ->
  let r := create_with upload dto userId d w in
  let entity := entity_of dto userId urls in
  Call (calls w1) (RepoSave entity) ∈ trace r
  /\ forall ms saved,
       repo_save (outside d) (calls w1) entity = Fulfil ms saved ->
       outcome r = Returned saved.
Proof.
  intros Himages r entity. subst r entity.
  unfold create_with, mbind, M_bind.
  destruct (repo_save (outside d) (calls w1) (entity_of dto userId urls))
    as [ms saved | ms err |] eqn:Hsave.
  - erewrite run_try_returned.
    2:{ erewrite run_bind_returned by exact Himages.
        fold (entity_of dto userId urls). run_steps.
        erewrite run_bind_returned.
        2:{ unfold await_call. rewrite Hsave. reflexivity. }
        run_steps. reflexivity. }
    split.
    + cbn [trace]. set_solver.
    + intros ms' saved' Heq. injection Heq as _ ->. reflexivity.
  - erewrite run_try_thrown.
    2:{ erewrite run_bind_returned by exact Himages.
        fold (entity_of dto userId urls). run_steps.
        erewrite run_bind_thrown.
        2:{ unfold await_call. rewrite Hsave. reflexivity. }
        reflexivity. }
    split.
    + cbn [trace prepend]. set_solver.
    + intros ms' saved' Heq. discriminate Heq.
  - erewrite run_try_pending.
    2:{ erewrite run_bind_returned by exact Himages.
        fold (entity_of dto userId urls). run_steps.
        erewrite run_bind_pending.
        2:{ unfold await_call. rewrite Hsave. reflexivity. }
        reflexivity. }
    split.
    + cbn [trace]. set_solver.
    + intros ms' saved' Heq. discriminate Heq.
Qed.

(** C10. When the request carries reference images and the upload method
    throws, [create] goes on: it saves the entity with an empty
    [referenceImages] array, and returns what the repository saved. *)
Theorem create_saves_without_images_when_upload_throws
    upload dto userId images e d w :
  dto_referenceImages dto = Some images ->
  images <> [] ->
  outcome (upload images d w) = Thrown e ->
  let r := create_with upload dto userId d w in
  let w1 := final (upload images d w) in
  let entity := entity_of dto userId [] in
  Call (calls w1) (RepoSave entity) ∈ trace r
  /\ forall ms saved,
       repo_save (outside d) (calls w1) entity = Fulfil ms saved ->
       outcome r = Returned saved.
Proof.
  intros Hdto Hne Hthrown r w1 entity. subst r w1 entity.
  apply (create_with_saves upload dto userId d w [] _ (trace (upload images d w))).
  rewrite Hdto. destruct images as [| image images]; [congruence |].
  cbn [length Nat.ltb Nat.leb].
  destruct (upload (image :: images) d w) as [o w1 t] eqn:Hup.
  cbn [outcome final trace] in *. subst o.
  erewrite run_try_thrown by exact Hup. unfold prepend. cbn. rewrite app_nil_r. reflexivity.
Qed.

Lemma create_saves_without_images_when_upload_throws_witness :
  Call 0 (RepoSave (entity_of sample_dto "user-17" []))
    ∈ trace (create_with broken_upload sample_dto "user-17" bare start)
  /\ outcome (create_with broken_upload sample_dto "user-17" bare start)
     = Returned (entity_of sample_dto "user-17" []).
Proof.
  assert (Hne : ["data:image/png;base64,iVBORw0KGgo="] <> @nil string)
    by (intros H; discriminate H).
  destruct (create_saves_without_images_when_upload_throws
              broken_upload sample_dto "user-17"
              ["data:image/png;base64,iVBORw0KGgo="] (Err "storage unavailable")
              bare start eq_refl Hne eq_refl) as [Hsaved Hreturned].
  split; [exact Hsaved | exact (Hreturned 5%N _ eq_refl)].
Defined.

(** ** The loop over the images *)

Lemma pause_unless_last_run i total d w :
  pause_unless_last (i + 1) total d w
  = mkRun (Returned tt) (world_after_pause i total w) (pause_after i total).
Proof.
  unfold pause_unless_last, world_after_pause, pause_after.
  destruct (Nat.ltb (i + 1) total); reflexivity.
Qed.

(** One round of the loop. *)
Lemma uploadLoop_cons hasAwsConfig total i image later uploadedUrls d w :
  uploadLoop hasAwsConfig total i (image :: later) uploadedUrls d w =
  match match_data_url image with
  | None => uploadLoop hasAwsConfig total (S i) later uploadedUrls d w
  | Some (ext, base64Data) =>
      let r := uploadOne hasAwsConfig ext base64Data (i + 1) total d w in
      match outcome r with
      | Returned imageUrl =>
          prepend (trace r ++ pause_after i total)
            (uploadLoop hasAwsConfig total (S i) later
               (if kept imageUrl then uploadedUrls ++ [imageUrl] else uploadedUrls)
               d (world_after_pause i total (final r)))
      | Thrown e =>
          prepend (trace r ++ pause_after i total)
            (uploadLoop hasAwsConfig total (S i) later uploadedUrls
               d (world_after_pause i total (final r)))
      | Pending => mkRun Pending (final r) (trace r)
      end
  end.
Proof.
  change (uploadLoop hasAwsConfig total i (image :: later) uploadedUrls d w) with
    ((if String.eqb image EmptyString
      then uploadLoop hasAwsConfig total (S i) later uploadedUrls
      else
        bind
          (try_catch
             (match match_data_url image with
              | None => mret uploadedUrls
              | Some (ext, base64Data) =>
                  bind (uploadOne hasAwsConfig ext base64Data (i + 1) total)
                    (fun imageUrl =>
                       bind (pause_unless_last (i + 1) total)
                         (fun _ =>
                            mret (if kept imageUrl
                                  then uploadedUrls ++ [imageUrl] else uploadedUrls)))
              end)
             (fun imageError =>
                bind (pause_unless_last (i + 1) total) (fun _ => mret uploadedUrls)))
          (fun uploadedUrls => uploadLoop hasAwsConfig total (S i) later uploadedUrls)) d w).
  destruct (String.eqb image EmptyString) eqn:Eempty.
  - apply String.eqb_eq in Eempty. subst image. reflexivity.
  - destruct (match_data_url image) as [[ext base64Data] |].
    + cbv zeta.
      destruct (uploadOne hasAwsConfig ext base64Data (i + 1) total d w) as [o w1 t1] eqn:Hone.
      cbn [outcome final trace]. destruct o as [imageUrl | e |].
      * erewrite run_bind_returned.
        2:{ erewrite run_try_returned; [reflexivity |].
            erewrite run_bind_returned by exact Hone.
            erewrite run_bind_returned by apply pause_unless_last_run.
            reflexivity. }
        unfold prepend. cbn [outcome final trace]. rewrite !app_nil_r. reflexivity.
      * erewrite run_bind_returned.
        2:{ erewrite run_try_thrown.
            2:{ erewrite run_bind_thrown by exact Hone. reflexivity. }
            erewrite run_bind_returned by apply pause_unless_last_run.
            reflexivity. }
        unfold prepend. cbn [outcome final trace]. rewrite !app_nil_r. reflexivity.
      * erewrite run_bind_pending; [reflexivity |].
        erewrite run_try_pending; [reflexivity |].
        erewrite run_bind_pending by exact Hone. reflexivity.
    + erewrite run_bind_returned by reflexivity. apply prepend_nil.
Qed.

Lemma uploadBase64Images_run images d w :
  let r := uploadLoop (hasAwsConfig_of d) (length images) 0 images [] d w in
  uploadBase64Images images d w =
  match outcome r with
  | Returned uploadedUrls =>
      mkRun (Returned (filter (fun url => kept url = true) uploadedUrls)) (final r) (trace r)
  | Thrown e => mkRun (Thrown e) (final r) (trace r)
  | Pending => mkRun Pending (final r) (trace r)
  end.
Proof.
  intros r. subst r. unfold uploadBase64Images, rethrowing, mbind, M_bind.
  fold (hasAwsConfig_of d).
  destruct (uploadLoop (hasAwsConfig_of d) (length images) 0 images [] d w)
    as [o w1 t] eqn:Hloop.
  cbn [outcome final trace]. destruct o as [uploadedUrls | e |].
  - erewrite run_try_returned; [reflexivity |].
    run_steps. fold (hasAwsConfig_of d).
    erewrite run_bind_returned by exact Hloop.
    unfold prepend. cbn. rewrite app_nil_r. reflexivity.
  - erewrite run_try_thrown.
    2:{ run_steps. fold (hasAwsConfig_of d).
        erewrite run_bind_thrown by exact Hloop. reflexivity. }
    unfold prepend. cbn. rewrite app_nil_r. reflexivity.
  - erewrite run_try_pending; [reflexivity |].
    run_steps. fold (hasAwsConfig_of d).
    erewrite run_bind_pending by exact Hloop. reflexivity.
Qed.

Lemma filter_kept_twice (l : list string) :
  filter (fun url => kept url = true) (filter (fun url => kept url = true) l)
  = filter (fun url => kept url = true) l.
Proof.
  induction l as [| url l IH]; [reflexivity |].
  destruct (kept url) eqn:E.
  - rewrite (filter_cons_True (fun url => kept url = true)) by exact E.
    rewrite (filter_cons_True (fun url => kept url = true)) by exact E.
    rewrite IH. reflexivity.
  - rewrite (filter_cons_False (fun url => kept url = true)) by (rewrite E; discriminate).
    exact IH.
Qed.


(** ** The list of uploaded URLs *)

(** The cascade of one image in full: its banner, then between one
    attempt and as many as there are stores due, all of them when none
    succeeds. *)
Lemma uploadOne_cascade ext base64Data imageIndex total d w :
  let r := uploadOne (hasAwsConfig_of d) ext base64Data imageIndex total d w in
  exists k won t,
    trace r = Log (banner d imageIndex total) :: t
    /\ walk d (Buffer_from_base64 base64Data) (take k cascade) t won
    /\ 1 <= k <= due d
    /\ (won = None -> k = due d)
    /\ (outcome r = Returned (default EmptyString won)
        \/ (outcome r = Pending /\ exists n u, s3_upload (outside d) n u = Never)).
Proof.
  intros r. subst r. unfold uploadOne, banner, due.
  unfold mbind, M_bind, bind, Date_now, Math_random_36, process_env, console_log, emit.
  cbn [outcome final trace].
  destruct (bool_decide (env d !! "NODE_ENV" = Some "local"));
    cbn [outcome final trace app];
    match goal with
    | |- context [outcome (trySupabaseBuckets ?b ?fn ?buf ?mt ?i ?n d ?w0)] =>
        pose proof (trySupabaseBuckets_walk b fn buf mt i n d w0) as Hw; cbv zeta in Hw;
        set (fileName := fn) in *; set (mimetype := mt) in *;
        set (r := trySupabaseBuckets b fileName buf mimetype i n d w0) in *
    end.
  - destruct Hw as [(k & url & Hk & Ho & Hwalk) | (Ho & Hwalk)]; rewrite Ho;
      cbn [outcome final trace mret M_ret ret app]; rewrite app_nil_r.
    + exists k, (Some url), (trace r). split; [reflexivity |].
      split; [rewrite <- take_buckets_cascade by exact Hk; exact Hwalk |].
      split; [| split; [discriminate | left; reflexivity]].
      split; [| exact Hk]. destruct k; [inversion Hwalk | lia].
    + exists 2, None, (trace r). split; [reflexivity |]. split; [exact Hwalk |].
      split; [lia |]. split; [reflexivity | left; reflexivity].
  - destruct Hw as [(k & url & Hk & Ho & Hwalk) | (Ho & Hwalk)]; rewrite Ho;
      cbn [outcome final trace mret M_ret ret app negb andb].
    + rewrite !app_nil_r. exists k, (Some url), (trace r). split; [reflexivity |].
      split; [rewrite <- take_buckets_cascade by exact Hk; exact Hwalk |].
      split; [| split; [discriminate | left; reflexivity]].
      split; [destruct k; [inversion Hwalk | lia] |].
      simpl in Hk. destruct (hasAwsConfig_of d); lia.
    + destruct (hasAwsConfig_of d); cbn [outcome final trace mret M_ret ret app negb andb].
      * pose proof (tryS3_walk fileName (Buffer_from_base64 base64Data) mimetype d (final r)) as Hs.
        cbv zeta in Hs.
        set (s := tryS3 fileName (Buffer_from_base64 base64Data) mimetype d (final r)) in *.
        destruct Hs as [(url & Hos & Hws) | ([Hos | (Hos & u & Hu)] & Hws)]; rewrite Hos;
          cbn [outcome final trace mret M_ret ret app negb andb]; rewrite ?app_nil_r.
        -- exists 3, (Some url), (trace r ++ trace s). split; [reflexivity |].
           split; [| split; [lia | split; [discriminate | left; reflexivity]]].
           apply (walk_app d _ [SupabaseBucket "profiles"; SupabaseBucket "uploads"] _ [AwsS3]);
             assumption.
        -- exists 3, None, (trace r ++ trace s). split; [reflexivity |].
           split; [| split; [lia | split; [reflexivity | left; reflexivity]]].
           apply (walk_app d _ [SupabaseBucket "profiles"; SupabaseBucket "uploads"] _ [AwsS3]);
             assumption.
        -- exists 3, None, (trace r ++ trace s). split; [reflexivity |].
           split; [| split; [lia | split; [reflexivity | right; eauto]]].
           apply (walk_app d _ [SupabaseBucket "profiles"; SupabaseBucket "uploads"] _ [AwsS3]);
             assumption.
      * rewrite !app_nil_r. exists 2, None, (trace r). split; [reflexivity |].
        split; [exact Hwalk |]. split; [lia |]. split; [reflexivity | left; reflexivity].
Qed.

Lemma returned_urls_cons won per :
  returned_urls (won :: per)
  = (if kept (default EmptyString won) then [default EmptyString won] else [])
      ++ returned_urls per.
Proof.
  unfold returned_urls. destruct won as [url |].
  - change (default EmptyString (Some url)) with url.
    change (omap id (Some url :: per)) with (url :: omap id per).
    destruct (kept url) eqn:Ek.
    + rewrite (filter_cons_True (fun url => kept url = true)) by exact Ek. reflexivity.
    + rewrite (filter_cons_False (fun url => kept url = true)) by (rewrite Ek; discriminate).
      reflexivity.
  - reflexivity.
Qed.

(** The loop works on the images one after the other and gives back what
    they obtained, in their order. *)
Lemma uploadLoop_image_by_image total d :
  (forall n u, s3_upload (outside d) n u <> Never) ->
  forall images i uploadedUrls w,
    let r := uploadLoop (hasAwsConfig_of d) total i images uploadedUrls d w in
    exists per,
      image_by_image d total i images (trace r) per
      /\ outcome r = Returned (uploadedUrls ++ returned_urls per).
Proof.
  intros Hs3. induction images as [| image later IH]; intros i uploadedUrls w r; subst r.
  - exists []. split; [constructor |]. cbn. rewrite app_nil_r. reflexivity.
  - rewrite uploadLoop_cons. destruct (match_data_url image) as [[ext base64Data] |] eqn:Hm.
    + cbv zeta.
      destruct (uploadOne_cascade ext base64Data (i + 1) total d w)
        as (k & won & t & Htrace & Hwalk & Hk & Hall & [Hout | (_ & n & u & Hnever)]);
        [| exfalso; exact (Hs3 n u Hnever)].
      rewrite Hout, Htrace.
      set (imageUrl := default EmptyString won) in *.
      specialize (IH (S i)
                    (if kept imageUrl then uploadedUrls ++ [imageUrl] else uploadedUrls)
                    (world_after_pause i total
                       (final (uploadOne (hasAwsConfig_of d) ext base64Data (i + 1) total d w)))).
      cbv zeta in IH. destruct IH as (per & Hper & Hrest).
      exists (won :: per). unfold prepend. cbn [outcome final trace]. split.
      * cbn [app]. rewrite <- app_assoc.
        apply (image_uploaded d total i image ext base64Data later k t won); assumption.
      * rewrite Hrest, returned_urls_cons. fold imageUrl.
        destruct (kept imageUrl); [rewrite <- app_assoc |]; reflexivity.
    + specialize (IH (S i) uploadedUrls w). cbv zeta in IH.
      destruct IH as (per & Hper & Hrest).
      exists (None :: per). split; [apply image_skipped; assumption |].
      rewrite Hrest. reflexivity.
Qed.

(** An upload that succeeded is the one its image obtained its URL
    from. *)
Lemma image_by_image_took d total i images t per :
  image_by_image d total i images t per ->
  forall e url, e ∈ t -> took d e = Some url -> Some url ∈ per.
Proof.
  induction 1 as [| i image later t per _ _ IH
                  | i image ext base64Data later k attempts won t per _ Hwalk _ _ _ IH];
    intros e url Hin Ht.
  - apply elem_of_nil in Hin. contradiction.
  - apply elem_of_cons. right. exact (IH e url Hin Ht).
  - apply elem_of_cons in Hin as [-> | Hin]; [discriminate Ht |].
    apply elem_of_app in Hin as [Hin | Hin].
    { apply elem_of_cons. left. symmetry. exact (walk_took _ _ _ _ _ Hwalk e url Hin Ht). }
    apply elem_of_app in Hin as [Hin | Hin]; [| apply elem_of_cons; right; exact (IH e url Hin Ht)].
    unfold pause_after in Hin. destruct (Nat.ltb (i + 1) total).
    + apply list_elem_of_singleton in Hin. subst e. discriminate Ht.
    + apply elem_of_nil in Hin. contradiction.
Qed.

(** C7. When the loop comes to its end (the one call without a deadline,
    the AWS upload, does answer), [uploadBase64Images] returns the URLs
    that the images obtained, in the order of the images.  The trace is the
    work on the images one after the other; an image obtains the URL of
    its upload that succeeded, and nothing when it is no data URL or when
    every store that was due failed; the result is the list of the URLs
    obtained, in that order, without an entry for an image that obtained
    nothing.  So every URL that a successful upload of the run obtained
    is in the result, unless it is blank, and no element of the result is
    the empty string. *)
Theorem uploaded_urls_keep_input_order_and_omit_failures images d w :
  (forall n u, s3_upload (outside d) n u <> Never) ->
  let r := uploadBase64Images images d w in
  exists per : list (option string),
    image_by_image d (length images) 0 images (trace r) per
    /\ outcome r = Returned (returned_urls per)
    /\ (forall e url, e ∈ trace r -> took d e = Some url -> kept url = true ->
        url ∈ returned_urls per)
    /\ Forall (fun url => url <> EmptyString /\ JS.nonblank url = true) (returned_urls per).
Proof.
  intros Hs3 r. subst r. rewrite uploadBase64Images_run. cbv zeta.
  destruct (uploadLoop_image_by_image (length images) d Hs3 images 0 [] w)
    as (per & Hper & Hout).
  cbv zeta in Hout. rewrite Hout. cbn [outcome trace app].
  exists per. split; [exact Hper |].
  split; [unfold returned_urls; rewrite filter_kept_twice; reflexivity |]. split.
  - intros e url Hin Ht Hk. unfold returned_urls. apply list_elem_of_filter. split; [exact Hk |].
    apply list_elem_of_omap. exists (Some url). split; [| reflexivity].
    exact (image_by_image_took _ _ _ _ _ _ Hper e url Hin Ht).
  - apply Forall_forall. intros url Hin. apply list_elem_of_filter in Hin as [Hk _].
    unfold kept in Hk. apply andb_true_iff in Hk as [Hne Hnb]. split; [| exact Hnb].
    intros ->. discriminate Hne.
Qed.

Lemma uploaded_urls_keep_input_order_and_omit_failures_witness :
  exists per : list (option string),
    image_by_image profiles_silent (length three_images) 0 three_images
      (trace (uploadBase64Images three_images profiles_silent start)) per
    /\ outcome (uploadBase64Images three_images profiles_silent start)
       = Returned (returned_urls per)
    /\ (forall e url,
          e ∈ trace (uploadBase64Images three_images profiles_silent start) ->
          took profiles_silent e = Some url -> kept url = true -> url ∈ returned_urls per)
    /\ Forall (fun url => url <> EmptyString /\ JS.nonblank url = true) (returned_urls per).
Proof.
  apply (uploaded_urls_keep_input_order_and_omit_failures three_images profiles_silent start).
  intros n u H. discriminate H.
Defined.

(** The same run, computed: the second image is left out, the other two
    keep their order. *)
Example uploadBase64Images_three_images :
  outcome (uploadBase64Images three_images profiles_silent start)
  = Returned
      ["https://cdn.example.org/quotation/request_quotation_1700000000000_82mvyr0.png";
       "https://cdn.example.org/quotation/request_quotation_1700000031300_82mvyr1.jpeg"].
Proof. vm_compute. reflexivity. Qed.

(** ** Pauses *)







(** ** The chains as the application wires them *)

(** On the wired chain a request is answered with [true] as soon as the
    Resend API answers at all, whatever it answers. *)
Lemma wired_sendEmail_returns_true resend to subject text d w :
  (forall n request, resend_emails_send (outside d) n request <> Never) ->
  outcome (sendEmail (wired resend) to subject text d w) = Returned true.
Proof.
  intros Hanswer. rewrite wired_sendEmail_is_resend.
  destruct (resend_sendEmail_run resend to subject text d w) as [fields H]. cbv zeta in H.
  destruct (resend_unavailable resend d); [rewrite H; reflexivity |].
  specialize (Hanswer (calls w) (resend_request to subject text d)).
  destruct (resend_emails_send (outside d) (calls w) (resend_request to subject text d))
    as [ms [data [err |]] | ms err |]; try rewrite H; try reflexivity.
  congruence.
Qed.

(** The repository's own upload method catches every error of an image:
    it never throws. *)
Lemma uploadLoop_never_throws hasAwsConfig total d images :
  forall i uploadedUrls w e,
    outcome (uploadLoop hasAwsConfig total i images uploadedUrls d w) <> Thrown e.
Proof.
  induction images as [| image later IH]; intros i uploadedUrls w e.
  - discriminate.
  - rewrite uploadLoop_cons. destruct (match_data_url image) as [[ext base64Data] |].
    + cbv zeta.
      destruct (uploadOne_walk hasAwsConfig ext base64Data (i + 1) total d w)
        as (banner & k & won & t & _ & _ & [Hout | (_ & Hout & _)]); rewrite Hout.
      * apply IH.
      * discriminate.
    + apply IH.
Qed.

Lemma uploadBase64Images_never_throws images d w e :
  outcome (uploadBase64Images images d w) <> Thrown e.
Proof.
  rewrite uploadBase64Images_run. cbv zeta.
  pose proof (uploadLoop_never_throws (hasAwsConfig_of d) (length images) d images 0 [] w) as H.
  destruct (outcome (uploadLoop (hasAwsConfig_of d) (length images) 0 images [] d w))
    as [urls | e' |]; try discriminate.
  exfalso. exact (H e' eq_refl).
Qed.

(** X1. With the repository's own upload method, [create] saves the entity
    with whatever URLs the uploads gave, none when every upload failed. *)
Lemma create_saves_the_uploaded_urls dto userId images urls d w :
  dto_referenceImages dto = Some images ->
  images <> [] ->
  outcome (uploadBase64Images images d w) = Returned urls ->
  let r := create dto userId d w in
  let w1 := final (uploadBase64Images images d w) in
  Call (calls w1) (RepoSave (entity_of dto userId urls)) ∈ trace r
  /\ forall ms saved,
       repo_save (outside d) (calls w1) (entity_of dto userId urls) = Fulfil ms saved ->
       outcome r = Returned saved.
Proof.
  intros Hdto Hne Hout r w1. subst r w1.
  apply (create_with_saves uploadBase64Images dto userId d w urls _
           (trace (uploadBase64Images images d w))).
  rewrite Hdto. destruct images as [| image images]; [congruence |].
  cbn [length Nat.ltb Nat.leb].
  destruct (uploadBase64Images (image :: images) d w) as [o w1 t] eqn:Hup.
  cbn [outcome final trace] in *. subst o.
  erewrite run_try_returned by exact Hup. reflexivity.
Qed.

Example create_when_every_upload_fails :
  outcome (uploadBase64Images two_images bare start) = Returned []
  /\ outcome (create {| dto_referenceImages := Some two_images;
                        dto_eventDate := "2026-05-01"; dto_endDate := "2026-05-02";
                        dto_rest := [] |} "user-17" bare start)
     = Returned {| q_rest := []; q_userId := "user-17"; q_referenceImages := [];
                   q_eventDate := "2026-05-01"; q_endDate := "2026-05-02";
                   q_status := "pending"; q_isDeleted := false |}.
Proof. split; vm_compute; reflexivity. Qed.

(** * Further properties of the code *)

(** ** Data URLs *)

Lemma prefix_split p s :
  String.prefix p s = true -> s = (p ++ JS.drop (String.length p) s)%string.
Proof.
  revert s. induction p as [| c p IH]; intros s H.
  - reflexivity.
  - destruct s as [| c' s]; [discriminate H |]. simpl in H.
    destruct (Ascii.ascii_dec c c') as [-> | _]; [| discriminate H].
    change (String c' s = String c' (p ++ JS.drop (String.length p) s)%string).
    f_equal. apply IH. exact H.
Qed.

Lemma strip_prefix_Some p s rest :
  strip_prefix p s = Some rest -> s = (p ++ rest)%string.
Proof.
  unfold strip_prefix. destruct (String.prefix p s) eqn:H; [| discriminate].
  intros [= <-]. apply prefix_split. exact H.
Qed.

Lemma payload_after_Some ext rest e data :
  payload_after ext rest = Some (e, data) ->
  e = ext /\ rest = (ext ++ ";base64," ++ data)%string
  /\ data <> EmptyString /\ no_line_terminator data = true.
Proof.
  unfold payload_after.
  destruct (strip_prefix (ext ++ ";base64,") rest) as [d |] eqn:Hs; [| discriminate].
  destruct (negb (String.eqb d EmptyString) && no_line_terminator d) eqn:Hd; [| discriminate].
  intros [= <- <-]. apply andb_true_iff in Hd as [Hne Hlt].
  apply strip_prefix_Some in Hs. split; [reflexivity |].
  split; [rewrite Hs; clear; induction ext as [| c ext IH];
          [reflexivity
          | change (String c ((ext ++ ";base64,") ++ d) = String c (ext ++ ";base64," ++ d))%string;
            congruence] |].
  split; [| exact Hlt]. intros ->. discriminate Hne.
Qed.

Lemma prefix_app p r : String.prefix p (p ++ r)%string = true.
Proof.
  induction p as [| c p IH]; [destruct r; reflexivity |].
  change (String.prefix (String c p) (String c (p ++ r)%string) = true).
  simpl. destruct (Ascii.ascii_dec c c); [exact IH | congruence].
Qed.

Lemma drop_app p r : JS.drop (String.length p) (p ++ r)%string = r.
Proof.
  induction p as [| c p IH]; [destruct r; reflexivity |].
  change (JS.drop (S (String.length p)) (String c (p ++ r)%string) = r). exact IH.
Qed.

Lemma strip_prefix_app p r : strip_prefix p (p ++ r)%string = Some r.
Proof. unfold strip_prefix. rewrite prefix_app, drop_app. reflexivity. Qed.

Lemma string_app_assoc (a b c : string) : ((a ++ b) ++ c = a ++ b ++ c)%string.
Proof.
  induction a as [| x a IH]; [reflexivity |].
  change (String x ((a ++ b) ++ c) = String x (a ++ b ++ c))%string. congruence.
Qed.

Lemma payload_after_app ext data :
  negb (String.eqb data EmptyString) && no_line_terminator data = true ->
  payload_after ext (ext ++ ";base64," ++ data)%string = Some (ext, data).
Proof.
  intros Hd. unfold payload_after.
  rewrite <- string_app_assoc, strip_prefix_app, Hd. reflexivity.
Qed.

Lemma payload_after_other ext other data :
  String.prefix (ext ++ ";base64,") (other ++ ";base64," ++ data) = false ->
  payload_after ext (other ++ ";base64," ++ data)%string = None.
Proof. intros H. unfold payload_after, strip_prefix. rewrite H. reflexivity. Qed.

(** X2. The regular expression of [uploadBase64Images] accepts exactly the
    strings [data:image/<ext>;base64,<payload>] with [ext] one of png,
    jpeg, jpg and a payload that is not empty and holds no line
    terminator, and gives back that extension and that payload. *)
Theorem match_data_url_accepts_exactly_png_jpeg_jpg image ext base64Data :
  match_data_url image = Some (ext, base64Data)
  <-> (ext = "png" \/ ext = "jpeg" \/ ext = "jpg")
      /\ base64Data <> EmptyString
      /\ no_line_terminator base64Data = true
      /\ image = ("data:image/" ++ ext ++ ";base64," ++ base64Data)%string.
Proof.
  split.
  - unfold match_data_url.
    destruct (strip_prefix "data:image/" image) as [rest |] eqn:Hs; [| discriminate].
    apply strip_prefix_Some in Hs. intros H.
    assert (Hcase : payload_after "png" rest = Some (ext, base64Data)
                    \/ payload_after "jpeg" rest = Some (ext, base64Data)
                    \/ payload_after "jpg" rest = Some (ext, base64Data)).
    { destruct (payload_after "png" rest); [left; exact H |].
      destruct (payload_after "jpeg" rest); [right; left; exact H | right; right; exact H]. }
    destruct Hcase as [Hp | [Hp | Hp]]; apply payload_after_Some in Hp;
      destruct Hp as (-> & -> & Hne & Hlt); subst image; repeat split; auto.
  - intros (Hext & Hne & Hlt & ->).
    assert (Hd : negb (String.eqb base64Data EmptyString) && no_line_terminator base64Data = true).
    { rewrite Hlt, andb_true_r. destruct (String.eqb_spec base64Data EmptyString); [contradiction | reflexivity]. }
    unfold match_data_url. rewrite strip_prefix_app.
    destruct Hext as [-> | [-> | ->]].
    + rewrite (payload_after_app _ _ Hd). reflexivity.
    + rewrite (payload_after_other "png" "jpeg") by (vm_compute; reflexivity).
      rewrite (payload_after_app _ _ Hd). reflexivity.
    + rewrite (payload_after_other "png" "jpg") by (vm_compute; reflexivity).
      rewrite (payload_after_other "jpeg" "jpg") by (vm_compute; reflexivity).
      rewrite (payload_after_app _ _ Hd). reflexivity.
Qed.

(** ** Images that are skipped *)

Lemma uploadLoop_skips hasAwsConfig total d images :
  Forall (fun image => processed image = false) images ->
  forall i uploadedUrls w,
    uploadLoop hasAwsConfig total i images uploadedUrls d w
    = mkRun (Returned uploadedUrls) w [].
Proof.
  induction 1 as [| image later Himage _ IH]; intros i uploadedUrls w.
  - reflexivity.
  - rewrite uploadLoop_cons. unfold processed in Himage.
    destruct (match_data_url image); [discriminate Himage | apply IH].
Qed.

(** X3. When no entry of the array is a png, jpeg or jpg data URL (the array
    is empty, or holds empty strings, plain names, other formats),
    [uploadBase64Images] returns the empty list at once: no upload is
    attempted, no pause is taken, nothing is logged. *)
Theorem uploadBase64Images_skips_what_is_no_data_url images d w :
  Forall (fun image => processed image = false) images ->
  uploadBase64Images images d w = mkRun (Returned []) w [].
Proof.
  intros H. rewrite uploadBase64Images_run. cbv zeta.
  rewrite (uploadLoop_skips _ _ _ _ H). reflexivity.
Qed.

Lemma uploadBase64Images_skips_what_is_no_data_url_witness :
  uploadBase64Images skipped_images profiles_silent start = mkRun (Returned []) start [].
Proof.
  apply uploadBase64Images_skips_what_is_no_data_url.
  repeat (apply List.Forall_cons; [vm_compute; reflexivity |]). apply List.Forall_nil.
Defined.

(** ** What the attempts for one image have in common *)

Lemma uploadToBucket_trace bucket fileName buffer mimetype imageIndex total d w :
  exists rest,
    trace (uploadToBucket bucket fileName buffer mimetype imageIndex total d w)
    = bucket_event bucket fileName buffer mimetype w :: rest
    /\ Forall (fun e => upload_target e = None) rest.
Proof.
  pose proof (uploadToBucket_run bucket fileName buffer mimetype imageIndex total d w) as H.
  cbv zeta in H.
  destruct (took d (bucket_event bucket fileName buffer mimetype w)).
  - destruct H as (ms & line & _ & _ & ->). eexists. split; [reflexivity |].
    repeat constructor.
  - destruct H as [[_ (ms & _ & ->)] | (_ & _ & ->)];
      (eexists; split; [reflexivity | repeat constructor]).
Qed.

Lemma same_file_no_upload d fileName buffer mimetype e :
  upload_target e = None -> same_file d fileName buffer mimetype e.
Proof. destruct e as [| | | n [] | |]; try discriminate; intros _; exact I. Qed.

Lemma trySupabaseBuckets_same_file buckets fileName buffer mimetype imageIndex total d :
  forall w,
    Forall (same_file d fileName buffer mimetype)
      (trace (trySupabaseBuckets buckets fileName buffer mimetype imageIndex total d w)).
Proof.
  induction buckets as [| bucket later IH]; intros w.
  - constructor.
  - rewrite trySupabaseBuckets_cons. cbv zeta.
    destruct (uploadToBucket_trace bucket fileName buffer mimetype imageIndex total d w)
      as (rest & Htrace & Hrest).
    assert (Hfirst : Forall (same_file d fileName buffer mimetype)
                       (trace (uploadToBucket bucket fileName buffer mimetype
                                 imageIndex total d w))).
    { rewrite Htrace. constructor; [reflexivity |].
      eapply Forall_impl; [exact Hrest |]. intros e. apply same_file_no_upload. }
    destruct (outcome (uploadToBucket bucket fileName buffer mimetype imageIndex total d w))
      as [[url |] | e |]; cbn [trace]; try exact Hfirst.
    apply Forall_app. split; [exact Hfirst | apply IH].
Qed.

Lemma tryS3_trace fileName buffer mimetype d w :
  exists n u,
    trace (tryS3 fileName buffer mimetype d w) = [Call n (S3UploadCall u)]
    /\ same_file d fileName buffer mimetype (Call n (S3UploadCall u)).
Proof.
  unfold tryS3, try_catch, mbind, M_bind, bind, configService_get, await_call.
  cbn [outcome final trace].
  match goal with
  | |- context [s3_upload (outside d) (calls w) ?u] =>
      set (request := u);
      destruct (s3_upload (outside d) (calls w) request) as [ms location | ms err |]
  end; cbn [outcome final trace app mret M_ret ret];
    exists (calls w), request; (split; [reflexivity | repeat split]).
Qed.

(** How the trace of one image is put together: a banner, the Supabase
    loop and, only in production, with AWS configured and after both
    buckets failed, the AWS upload. *)
Lemma uploadOne_shape hasAwsConfig ext base64Data imageIndex total d w :
  let fileName := file_name ext d w in
  let buffer := Buffer_from_base64 base64Data in
  let mimetype := ("image/" ++ ext)%string in
  let b := trySupabaseBuckets supabaseBuckets fileName buffer mimetype imageIndex total d
             (drawn w) in
  let r := uploadOne hasAwsConfig ext base64Data imageIndex total d w in
  exists banner,
    trace r = Log banner :: trace b
    \/ (trace r = Log banner :: trace b ++ trace (tryS3 fileName buffer mimetype d (final b))
        /\ hasAwsConfig = true
        /\ env d !! "NODE_ENV" <> Some "local"
        /\ walk d buffer (map SupabaseBucket supabaseBuckets) (trace b) None).
Proof.
  intros fileName buffer mimetype b r. subst r. unfold uploadOne.
  unfold mbind, M_bind, bind, Date_now, Math_random_36, process_env, console_log, emit.
  cbn [outcome final trace].
  fold (file_name ext d w). fold fileName. fold buffer. fold mimetype.
  pose proof (trySupabaseBuckets_walk supabaseBuckets fileName buffer mimetype
                imageIndex total d (drawn w)) as Hw.
  cbv zeta in Hw. fold b in Hw.
  destruct (bool_decide (env d !! "NODE_ENV" = Some "local")) eqn:Elocal;
    cbn [outcome final trace app]; fold b.
  - eexists. left.
    destruct Hw as [(k & url & _ & Ho & _) | (Ho & _)]; rewrite Ho;
      cbn [outcome final trace mret M_ret ret app]; rewrite app_nil_r; reflexivity.
  - apply bool_decide_eq_false in Elocal.
    destruct Hw as [(k & url & _ & Ho & _) | (Ho & Hwalk)]; rewrite Ho;
      cbn [outcome final trace mret M_ret ret app negb andb].
    + eexists. left. rewrite !app_nil_r. reflexivity.
    + destruct hasAwsConfig; cbn [outcome final trace mret M_ret ret app negb andb].
      * eexists. right. split; [| repeat split; assumption].
        destruct (outcome (tryS3 fileName buffer mimetype d (final b))) as [[u s] | e |];
          cbn [outcome final trace mret M_ret ret app]; try reflexivity.
        destruct (negb s); cbn [trace]; rewrite !app_nil_r; reflexivity.
      * eexists. left. rewrite !app_nil_r. reflexivity.
Qed.

(** X4. Every upload attempt made for one image carries the same file: one
    name, [request_quotation_<Date.now()>_<random>.<ext>], made once
    before the first attempt, the decoded payload, and the content type
    [image/<ext>]; Supabase gets it under [quotation/], AWS under
    [<bucketFolderName>/quotation/]. *)
Theorem attempts_for_one_image_carry_one_file
    hasAwsConfig ext base64Data imageIndex total d w :
  Forall (same_file d (file_name ext d w) (Buffer_from_base64 base64Data)
            ("image/" ++ ext)%string)
    (trace (uploadOne hasAwsConfig ext base64Data imageIndex total d w)).
Proof.
  destruct (uploadOne_shape hasAwsConfig ext base64Data imageIndex total d w)
    as [banner [-> | (-> & _)]].
  - constructor; [exact I | apply trySupabaseBuckets_same_file].
  - constructor; [exact I |]. apply Forall_app. split.
    + apply trySupabaseBuckets_same_file.
    + match goal with
      | |- context [tryS3 ?f ?b ?m d ?w0] =>
          destruct (tryS3_trace f b m d w0) as (n & u & -> & Hsame)
      end.
      constructor; [exact Hsame | constructor].
Qed.

Lemma walk_failed_all d buffer tgs t won :
  walk d buffer tgs t won -> won = None -> Forall (fun e => took d e = None) t.
Proof.
  induction 1 as [| tg tgs e q t won _ He Hq _ IH |]; intros Ew;
    [constructor | | discriminate].
  constructor; [exact He |]. apply Forall_app. split; [| exact (IH Ew)].
  destruct Hq as [-> | ->]; repeat constructor.
Qed.

(** X5. AWS S3 is the last resort of production only.  When the trace of an
    image holds an AWS upload, then AWS is configured (bucket name and
    folder), the process does not run with NODE_ENV=local, the two
    Supabase buckets were tried before it, in order, and neither attempt
    succeeded. *)
Theorem aws_is_tried_last_and_only_in_production
    hasAwsConfig ext base64Data imageIndex total d w :
  let t := trace (uploadOne hasAwsConfig ext base64Data imageIndex total d w) in
  AwsS3 ∈ targets t ->
  hasAwsConfig = true
  /\ env d !! "NODE_ENV" <> Some "local"
  /\ targets t = cascade
  /\ forall e, e ∈ t -> upload_target e <> Some AwsS3 -> took d e = None.
Proof.
  intros t Haws. subst t.
  destruct (uploadOne_shape hasAwsConfig ext base64Data imageIndex total d w)
    as [banner [Htrace | (Htrace & Hcfg & Hlocal & Hwalk)]].
  - exfalso. rewrite Htrace in Haws.
    change (targets (Log banner :: ?x)) with (targets x) in Haws.
    match type of Haws with
    | context [trySupabaseBuckets ?b ?f ?bu ?m ?i ?n d ?w0] =>
        destruct (trySupabaseBuckets_walk b f bu m i n d w0)
          as [(k & url & _ & _ & Hw) | (_ & Hw)];
          cbv zeta in Hw; rewrite (walk_targets _ _ _ _ _ Hw) in Haws
    end.
    + apply elem_of_take in Haws as (i & Hi & _).
      destruct i as [| [| i]]; discriminate Hi.
    + apply list_elem_of_In in Haws. cbn in Haws. intuition discriminate.
  - split; [exact Hcfg |]. split; [exact Hlocal |].
    match type of Htrace with
    | context [tryS3 ?f ?b ?m d ?w0] =>
        destruct (tryS3_trace f b m d w0) as (n & u & Hs3 & _)
    end.
    rewrite Hs3 in Htrace. rewrite Htrace. split.
    + change (targets (Log banner :: ?x)) with (targets x).
      unfold targets. rewrite omap_app. fold (targets (trace
        (trySupabaseBuckets supabaseBuckets (file_name ext d w)
           (Buffer_from_base64 base64Data) ("image/" ++ ext)%string imageIndex total d
           (drawn w)))).
      rewrite (walk_targets _ _ _ _ _ Hwalk). reflexivity.
    + intros e Hin Hnot. apply elem_of_cons in Hin as [-> | Hin]; [reflexivity |].
      apply elem_of_app in Hin as [Hin | Hin].
      * pose proof (walk_failed_all _ _ _ _ _ Hwalk eq_refl) as Hall.
        rewrite Forall_forall in Hall. apply Hall. exact Hin.
      * apply list_elem_of_singleton in Hin. subst e. exfalso. apply Hnot. reflexivity.
Qed.

Lemma aws_is_tried_last_and_only_in_production_witness :
  targets (trace (uploadOne true "png" "iVBORw0KGgo=" 1 1 aws_only start)) = cascade.
Proof.
  apply (aws_is_tried_last_and_only_in_production true "png" "iVBORw0KGgo=" 1 1 aws_only start).
  vm_compute. set_solver.
Defined.

(** ** Answers that come too late *)

(** X6. An answer of Supabase that comes after the deadline is discarded,
    even when it says that the file was stored: the attempt counts as
    failed at [now + 30000], its URL is lost, and the loop goes on to
    upload the same file to the next bucket.  An answer that comes by the
    deadline, the deadline included, is kept: with a URL it ends the
    loop. *)
Theorem supabase_answers_after_the_deadline_are_discarded
    bucket later fileName buffer mimetype imageIndex total d w ms publicUrl :
  supabase_upload (outside d) (calls w) (bucket_request bucket fileName buffer mimetype)
  = Fulfil ms publicUrl ->
  let r := trySupabaseBuckets (bucket :: later) fileName buffer mimetype imageIndex total d w in
  ((30000 < ms)%N ->
   r = prepend [bucket_event bucket fileName buffer mimetype w; TimerFired 30000]
         (trySupabaseBuckets later fileName buffer mimetype imageIndex total d
            (at_time (now w + 30000) (called w))))
  /\ ((ms <= 30000)%N -> JS.truthy publicUrl = true ->
      outcome r = Returned (JS.str publicUrl, true)
      /\ final r = tick ms (called w)
      /\ targets (trace r) = [SupabaseBucket bucket]).
Proof.
  intros Hreply r. subst r. rewrite trySupabaseBuckets_cons. cbv zeta. split.
  - intros Hlate.
    assert (Hrun : uploadToBucket bucket fileName buffer mimetype imageIndex total d w
                   = mkRun (Returned None) (at_time (now w + 30000) (called w))
                       [bucket_event bucket fileName buffer mimetype w; TimerFired 30000]).
    { unfold uploadToBucket, try_catch, mbind, M_bind, bind. cbv zeta.
      fold (bucket_request bucket fileName buffer mimetype).
      rewrite uploadWithTimeout_call, Hreply.
      replace (ms <=? 30000)%N with false by (symmetry; apply N.leb_gt; exact Hlate).
      reflexivity. }
    rewrite Hrun. reflexivity.
  - intros Hintime Htruthy.
    assert (Hrun : exists line,
              uploadToBucket bucket fileName buffer mimetype imageIndex total d w
              = mkRun (Returned (Some (JS.str publicUrl))) (tick ms (called w))
                  [bucket_event bucket fileName buffer mimetype w; Log line]).
    { unfold uploadToBucket, try_catch, mbind, M_bind, bind. cbv zeta.
      fold (bucket_request bucket fileName buffer mimetype).
      rewrite uploadWithTimeout_call, Hreply.
      replace (ms <=? 30000)%N with true by (symmetry; apply N.leb_le; exact Hintime).
      cbn [outcome final trace]. rewrite Htruthy. eexists. reflexivity. }
    destruct Hrun as [line Hrun]. rewrite Hrun. cbn [outcome final trace].
    split; [reflexivity |]. split; reflexivity.
Qed.

Lemma supabase_answers_after_the_deadline_are_discarded_witness :
  outcome (trySupabaseBuckets supabaseBuckets "photo.png" "iVBORw0KGgo=" "image/png" 1 1
             profiles_slow start)
  = Returned ("https://cdn.example.org/uploads/quotation/photo.png", true).
Proof.
  unfold supabaseBuckets.
  rewrite (proj1 (supabase_answers_after_the_deadline_are_discarded
                    "profiles" ["uploads"] "photo.png" "iVBORw0KGgo=" "image/png" 1 1
                    profiles_slow start 45000
                    (Some "https://cdn.example.org/profiles/quotation/photo.png") eq_refl));
    [vm_compute; reflexivity | reflexivity].
Defined.

(** ** More on [create] *)

(** X7. Without reference images (the field is missing or the array is
    empty) [create] never calls the upload method: whatever that method
    is, the only external call is the save of the entity with an empty
    [referenceImages]. *)
Theorem create_without_images_only_saves upload dto userId d w :
  dto_referenceImages dto = None \/ dto_referenceImages dto = Some [] ->
  ext_calls (trace (create_with upload dto userId d w))
  = [RepoSave (entity_of dto userId [])].
Proof.
  intros Hdto.
  assert (Himages :
    match dto_referenceImages dto with
    | Some referenceImages =>
        if Nat.ltb 0 (length referenceImages)
        then try_catch (upload referenceImages) (fun uploadError => mret [])
        else mret []
    | None => mret []
    end d w = mkRun (Returned []) w []).
  { destruct Hdto as [-> | ->]; reflexivity. }
  unfold create_with, mbind, M_bind.
  destruct (repo_save (outside d) (calls w) (entity_of dto userId []))
    as [ms saved | ms err |] eqn:Hsave.
  - erewrite run_try_returned.
    2:{ erewrite run_bind_returned by exact Himages.
        fold (entity_of dto userId []). run_steps.
        erewrite run_bind_returned.
        2:{ unfold await_call. rewrite Hsave. reflexivity. }
        run_steps. reflexivity. }
    reflexivity.
  - erewrite run_try_thrown.
    2:{ erewrite run_bind_returned by exact Himages.
        fold (entity_of dto userId []). run_steps.
        erewrite run_bind_thrown.
        2:{ unfold await_call. rewrite Hsave. reflexivity. }
        reflexivity. }
    reflexivity.
  - erewrite run_try_pending.
    2:{ erewrite run_bind_returned by exact Himages.
        fold (entity_of dto userId []). run_steps.
        erewrite run_bind_pending.
        2:{ unfold await_call. rewrite Hsave. reflexivity. }
        reflexivity. }
    reflexivity.
Qed.

Lemma create_without_images_only_saves_witness :
  ext_calls (trace (create_with broken_upload plain_dto "user-17" bare start))
  = [RepoSave (entity_of plain_dto "user-17" [])].
Proof.
  apply create_without_images_only_saves. left. reflexivity.
Defined.

(** X8. No error leaves [create] as it was thrown: whatever fails inside
    (the save, or anything else), the caller gets a new [Error] whose
    message is "Failed to create quotation request: " followed by the
    message of the cause; the class of the cause is lost. *)
Theorem create_wraps_every_error upload dto userId d w e :
  outcome (create_with upload dto userId d w) = Thrown e ->
  exists cause, e = Err ("Failed to create quotation request: " ++ message cause)%string.
Proof.
  unfold create_with, try_catch.
  match goal with
  | |- context [outcome (mbind ?f ?m d w)] => set (body := mbind f m d w)
  end.
  destruct (outcome body) as [saved | cause |] eqn:Hbody; cbn [outcome].
  - rewrite Hbody. discriminate.
  - intros [= <-]. exists cause. reflexivity.
  - rewrite Hbody. discriminate.
Qed.

Lemma create_wraps_every_error_witness :
  exists cause,
    Err "Failed to create quotation request: MongoNetworkError: connection closed"
    = Err ("Failed to create quotation request: " ++ message cause)%string.
Proof.
  apply (create_wraps_every_error uploadBase64Images plain_dto "user-17" db_down start).
  vm_compute. reflexivity.
Defined.

Lemma create_saves_the_uploaded_urls_witness :
  outcome (create sample_dto "user-17" profiles_silent start)
  = Returned
      (entity_of sample_dto "user-17"
         ["https://cdn.example.org/quotation/request_quotation_1700000000000_82mvyr0.png"]).
Proof.
  assert (Hne : ["data:image/png;base64,iVBORw0KGgo="] <> @nil string)
    by (intros H; discriminate H).
  assert (Hup : outcome (uploadBase64Images ["data:image/png;base64,iVBORw0KGgo="]
                           profiles_silent start)
                = Returned ["https://cdn.example.org/quotation/request_quotation_1700000000000_82mvyr0.png"])
    by (vm_compute; reflexivity).
  destruct (create_saves_the_uploaded_urls sample_dto "user-17" _ _ profiles_silent start
              eq_refl Hne Hup) as [_ Hreturned].
  exact (Hreturned 5%N _ eq_refl).
Defined.

(** ** What the upload method never does *)

Lemma uploadLoop_pending_on_s3 hasAwsConfig total d images :
  forall i uploadedUrls w,
    outcome (uploadLoop hasAwsConfig total i images uploadedUrls d w) = Pending ->
    exists n u, s3_upload (outside d) n u = Never.
Proof.
  induction images as [| image later IH]; intros i uploadedUrls w.
  - discriminate.
  - rewrite uploadLoop_cons. destruct (match_data_url image) as [[ext base64Data] |].
    + cbv zeta.
      destruct (uploadOne_walk hasAwsConfig ext base64Data (i + 1) total d w)
        as (banner & k & won & t & _ & _ & [Hout | (_ & Hout & Hs3)]); rewrite Hout.
      * apply IH.
      * intros _. exact Hs3.
    + apply IH.
Qed.

(** X9. [uploadBase64Images] never throws, whatever the stores answer: the
    error of an image is caught in the loop.  Every Supabase attempt
    ends by its deadline, so the method returns unless an upload to AWS
    S3, the one call without a deadline, never answers. *)
Theorem uploadBase64Images_returns_unless_s3_never_answers images d w :
  let r := uploadBase64Images images d w in
  (forall e, outcome r <> Thrown e)
  /\ (outcome r = Pending -> exists n u, s3_upload (outside d) n u = Never)
  /\ ((forall n u, s3_upload (outside d) n u <> Never) -> exists urls, outcome r = Returned urls).
Proof.
  intros r. subst r.
  assert (Hpending : outcome (uploadBase64Images images d w) = Pending ->
                     exists n u, s3_upload (outside d) n u = Never).
  { rewrite uploadBase64Images_run. cbv zeta.
    pose proof (uploadLoop_pending_on_s3 (hasAwsConfig_of d) (length images) d images 0 [] w) as H.
    destruct (outcome (uploadLoop (hasAwsConfig_of d) (length images) 0 images [] d w))
      as [urls | e' |]; try discriminate.
    intros _. apply H. reflexivity. }
  split; [intros e; apply uploadBase64Images_never_throws |].
  split; [exact Hpending |].
  intros Hs3.
  destruct (outcome (uploadBase64Images images d w)) as [urls | e |] eqn:Ho.
  - exists urls. reflexivity.
  - exfalso. exact (uploadBase64Images_never_throws images d w e Ho).
  - exfalso. destruct (Hpending eq_refl) as (n & u & Hn). exact (Hs3 n u Hn).
Qed.

(** ** More on the e-mail services *)

(** X10. [ResendEmailService.sendEmail] cannot fail.  It never throws and
    never returns [false]; it stays pending only while a configured API
    never answers.  When the API rejects the call or answers with an
    error, the message is logged after the one call that was made, under
    a [resend_fallback_] identifier, and [true] is returned all the
    same. *)
Theorem resend_sendEmail_reports_every_failure_as_success resend to subject text d w :
  let r := ResendEmailService.sendEmail resend to subject text d w in
  let reply := resend_emails_send (outside d) (calls w) (resend_request to subject text d) in
  (outcome r = Returned true \/ outcome r = Pending)
  /\ (outcome r = Pending <-> resend_unavailable resend d = false /\ reply = Never)
  /\ (resend_unavailable resend d = false ->
      forall ms,
        (exists data err, reply = Fulfil ms {| rs_data := data; rs_error := Some err |})
        \/ (exists err, reply = Reject ms err) ->
        outcome r = Returned true
        /\ ext_calls (trace r) = [ResendSend (resend_request to subject text d)]
        /\ ids (trace r) = [made_id "resend_fallback_" d (tick ms (called w))]).
Proof.
  intros r reply. subst r reply.
  destruct (resend_sendEmail_run resend to subject text d w) as [fields H]. cbv zeta in H.
  destruct (resend_unavailable resend d).
  - rewrite H. cbn [outcome]. split; [left; reflexivity |]. split.
    + split; [discriminate | intros [Hfalse _]; discriminate Hfalse].
    + discriminate.
  - destruct (resend_emails_send (outside d) (calls w) (resend_request to subject text d))
      as [ms [data [err |]] | ms err |]; rewrite H; cbn [outcome trace].
    + split; [left; reflexivity |]. split.
      * split; [discriminate | intros [_ Hn]; discriminate Hn].
      * intros _ ms' [(data' & err' & Heq) | (err' & Heq)]; [| discriminate Heq].
        injection Heq as <- _ _. repeat split; reflexivity.
    + split; [left; reflexivity |]. split.
      * split; [discriminate | intros [_ Hn]; discriminate Hn].
      * intros _ ms' [(data' & err' & Heq) | (err' & Heq)]; discriminate Heq.
    + split; [left; reflexivity |]. split.
      * split; [discriminate | intros [_ Hn]; discriminate Hn].
      * intros _ ms' [(data' & err' & Heq) | (err' & Heq)]; [discriminate Heq |].
        injection Heq as <- _. repeat split; reflexivity.
    + split; [right; reflexivity |]. split.
      * split; [intros _; split; reflexivity | reflexivity].
      * intros _ ms' [(data' & err' & Heq) | (err' & Heq)]; discriminate Heq.
Qed.

Lemma resend_sendEmail_reports_every_failure_as_success_witness :
  outcome (ResendEmailService.sendEmail (ResendEmailService.new resend_down)
             "ann@example.org" "Booked" "See you" resend_down start) = Returned true
  /\ ids (trace (ResendEmailService.sendEmail (ResendEmailService.new resend_down)
                   "ann@example.org" "Booked" "See you" resend_down start))
     = ["resend_fallback_1700000000010_4fzyo82mv"].
Proof.
  destruct (proj2 (proj2 (resend_sendEmail_reports_every_failure_as_success
                            (ResendEmailService.new resend_down)
                            "ann@example.org" "Booked" "See you" resend_down start))
              eq_refl 10%N (or_intror (ex_intro _ (Err "ECONNREFUSED") eq_refl)))
    as (Htrue & _ & Hids).
  split; [exact Htrue | exact Hids].
Defined.

(** X11. Wired to the repository's own services, [sendEmail] contacts Resend
    and nothing else, whatever is configured and whatever Resend
    answers: its run is the run of [ResendEmailService.sendEmail], so
    SendGrid, the SMTP relays and the other services of the chain are
    never reached. *)
Theorem wired_chain_contacts_resend_only resend to subject text d w :
  let r := sendEmail (wired resend) to subject text d w in
  r = ResendEmailService.sendEmail resend to subject text d w
  /\ (ext_calls (trace r) = []
      \/ ext_calls (trace r) = [ResendSend (resend_request to subject text d)]).
Proof.
  intros r. subst r. rewrite wired_sendEmail_is_resend. split; [reflexivity |].
  destruct (resend_sendEmail_run resend to subject text d w) as [fields H]. cbv zeta in H.
  destruct (resend_unavailable resend d); [rewrite H; left; reflexivity |].
  destruct (resend_emails_send (outside d) (calls w) (resend_request to subject text d))
    as [ms [data [err |]] | ms err |]; rewrite H; right; reflexivity.
Qed.

(** A strategy that cannot fail cuts the chain: nothing placed after it
    is ever the one that succeeds. *)
Lemma runStrategies_cut d pre s post :
  (forall w, outcome (s d w) = Returned true) ->
  forall w,
    outcome (runStrategies (pre ++ s :: post) d w) = Pending
    \/ exists k, k <= length pre /\ succeeds_at d (pre ++ s :: post) w k.
Proof.
  intros Hs. induction pre as [| a pre IH]; intros w.
  - right. exists 0. split; [reflexivity |]. exists s, w, [].
    split; [reflexivity |]. split; [constructor | apply Hs].
  - simpl app. rewrite runStrategies_cons.
    destruct (outcome (a d w)) as [[|] | e |] eqn:Ha.
    + right. exists 0. split; [simpl; lia |]. exists a, w, [].
      split; [reflexivity |]. split; [constructor | exact Ha].
    + destruct (IH (final (a d w))) as [Hp | (k & Hk & s' & w1 & t1 & Hlook & Hfail & Hok)].
      * left. exact Hp.
      * right. exists (S k). split; [simpl; lia |].
        exists s', w1, (trace (a d w) ++ t1). split; [exact Hlook |].
        split; [| exact Hok]. simpl take. constructor; [left; exact Ha | exact Hfail].
    + destruct (IH (final (a d w))) as [Hp | (k & Hk & s' & w1 & t1 & Hlook & Hfail & Hok)].
      * left. exact Hp.
      * right. exists (S k). split; [simpl; lia |].
        exists s', w1, (trace (a d w) ++ t1). split; [exact Hlook |].
        split; [| exact Hok]. simpl take. constructor; [right; eauto | exact Hfail].
    + left. reflexivity.
Qed.

(** X12. [RailwayDirectEmailService] only logs and always returns [true].
    With it in fifth place, whatever the four services ahead of it do,
    [sendEmail] is answered by one of the first five strategies (or stays
    pending): [tryRailwayEmail], [tryWebhook] and [tryConsoleLog] are
    never the strategy that succeeds. *)
Theorem chain_never_gets_past_railway_direct this to subject text d w :
  railwayDirectEmailService this = RailwayDirectEmailService.sendEmail ->
  outcome (sendEmail this to subject text d w) = Pending
  \/ exists k, k <= 4 /\ succeeds_at d (strategies this to subject text) w k.
Proof.
  intros Hdirect. unfold sendEmail.
  change (strategies this to subject text)
    with ([tryResend this to subject text; trySendGridAPI to subject text;
           tryGmailSMTP to subject text; trySmtpOnly this to subject text]
            ++ tryRailwayDirect this to subject text
            :: [tryRailwayEmail this to subject text; tryWebhook this to subject text;
                tryConsoleLog to subject text]).
  apply runStrategies_cut. intros w'. unfold tryRailwayDirect. rewrite Hdirect. reflexivity.
Qed.

Lemma chain_never_gets_past_railway_direct_witness :
  outcome (sendEmail failing_but_railway_direct "ann@example.org" "Booked" "See you" bare start)
  = Pending
  \/ exists k, k <= 4
       /\ succeeds_at bare
            (strategies failing_but_railway_direct "ann@example.org" "Booked" "See you") start k.
Proof.
  apply chain_never_gets_past_railway_direct. reflexivity.
Defined.

(** ** The Gmail and SendGrid strategies *)

Lemma rethrowing_run {A} (m : M A) d w :
  outcome (rethrowing m d w) = outcome (m d w)
  /\ trace (rethrowing m d w) = trace (m d w)
  /\ final (rethrowing m d w) = final (m d w).
Proof.
  unfold rethrowing, try_catch. destruct (m d w) as [[a | e |] w' t]; cbn.
  - repeat split.
  - rewrite app_nil_r. repeat split.
  - repeat split.
Qed.

Lemma tryGmailConfigs_cons config later mail d w :
  tryGmailConfigs (config :: later) mail d w =
  match smtp_verify (outside d) (calls w) config with
  | Fulfil ms _ =>
      match smtp_sendMail (outside d) (S (calls w)) config mail with
      | Fulfil ms2 _ =>
          mkRun (Returned true) (tick ms2 (called (tick ms (called w))))
            [Call (calls w) (SmtpVerify config); Call (S (calls w)) (SmtpSendMail config mail)]
      | Reject ms2 _ =>
          prepend [Call (calls w) (SmtpVerify config);
                   Call (S (calls w)) (SmtpSendMail config mail)]
            (tryGmailConfigs later mail d (tick ms2 (called (tick ms (called w)))))
      | Never =>
          mkRun Pending (called (tick ms (called w)))
            [Call (calls w) (SmtpVerify config); Call (S (calls w)) (SmtpSendMail config mail)]
      end
  | Reject ms _ =>
      prepend [Call (calls w) (SmtpVerify config)]
        (tryGmailConfigs later mail d (tick ms (called w)))
  | Never => mkRun Pending (called w) [Call (calls w) (SmtpVerify config)]
  end.
Proof.
  cbn [tryGmailConfigs].
  unfold mbind, M_bind, bind, try_catch, await_call, mret, M_ret, ret, prepend.
  destruct (smtp_verify (outside d) (calls w) config) as [ms [] | ms e |]; cbn.
  - destruct (smtp_sendMail (outside d) (S (calls w)) config mail) as [ms2 [] | ms2 e |]; cbn;
      reflexivity.
  - reflexivity.
  - reflexivity.
Qed.

Lemma sent_after_verify_prepend d mail t t' :
  sent_after_verify d mail t' ->
  (forall n c m, In (Call n (SmtpSendMail c m)) t ->
     m = mail /\ exists n0 ms, n = S n0 /\ In (Call n0 (SmtpVerify c)) t
                               /\ smtp_verify (outside d) n0 c = Fulfil ms tt) ->
  sent_after_verify d mail (t ++ t').
Proof.
  intros Hrest Hhead n c m Hin. apply in_app_or in Hin. destruct Hin as [Hin | Hin].
  - destruct (Hhead n c m Hin) as (Hm & n0 & ms & Hn & Hv & Hok).
    split; [exact Hm |]. exists n0, ms. split; [exact Hn |]. split; [| exact Hok].
    apply in_or_app. left. exact Hv.
  - destruct (Hrest n c m Hin) as (Hm & n0 & ms & Hn & Hv & Hok).
    split; [exact Hm |]. exists n0, ms. split; [exact Hn |]. split; [| exact Hok].
    apply in_or_app. right. exact Hv.
Qed.

Lemma ends_accepted_prepend d mail t t' :
  ends_accepted d mail t' -> ends_accepted d mail (t ++ t').
Proof.
  intros (n & c & ms & Hlast & Hok). exists n, c, ms. split; [| exact Hok].
  rewrite last_app, Hlast. reflexivity.
Qed.

Lemma tryGmailConfigs_walk configs mail d : forall w,
  let r := tryGmailConfigs configs mail d w in
  (outcome r = Returned true
   \/ outcome r = Thrown (Err "All Gmail SMTP configurations failed")
   \/ outcome r = Pending)
  /\ (exists k, verified (trace r) = take k configs)
  /\ (outcome r = Thrown (Err "All Gmail SMTP configurations failed") ->
      verified (trace r) = configs)
  /\ sent_after_verify d mail (trace r)
  /\ (outcome r = Returned true -> ends_accepted d mail (trace r))
  /\ (accepted d (trace r) -> outcome r = Returned true).
Proof.
  induction configs as [| config later IH]; intros w r; subst r.
  - cbn. split; [right; left; reflexivity |]. split; [exists 0; reflexivity |].
    split; [reflexivity |]. split; [intros n c m [] |]. split; [discriminate |].
    intros (n & c & m & ms & [] & _).
  - rewrite tryGmailConfigs_cons.
    destruct (smtp_verify (outside d) (calls w) config) as [ms [] | ms e |] eqn:Hv.
    + destruct (smtp_sendMail (outside d) (S (calls w)) config mail) as [ms2 [] | ms2 e |] eqn:Hs.
      * cbn [outcome trace]. split; [left; reflexivity |].
        split; [exists 1; reflexivity |]. split; [discriminate |]. split; [| split].
        -- intros n c m [Hin | [Hin | []]]; [discriminate Hin |].
           injection Hin as <- <- <-. split; [reflexivity |].
           exists (calls w), ms. split; [reflexivity |]. split; [left; reflexivity | exact Hv].
        -- intros _. exists (S (calls w)), config, ms2. split; [reflexivity | exact Hs].
        -- reflexivity.
      * destruct (IH (tick ms2 (called (tick ms (called w)))))
          as (Ho & [k Hk] & Hall & Hsent & Hend & Hacc).
        cbn [prepend outcome trace]. split; [exact Ho |].
        split; [exists (S k); cbn; f_equal; exact Hk |].
        split; [intros Hthrown; cbn; f_equal; exact (Hall Hthrown) |]. split; [| split].
        -- apply (sent_after_verify_prepend d mail [_; _]); [exact Hsent |].
           intros n c m [Hin | [Hin | []]]; [discriminate Hin |].
           injection Hin as <- <- <-. split; [reflexivity |].
           exists (calls w), ms. split; [reflexivity |]. split; [left; reflexivity | exact Hv].
        -- intros Htrue. apply (ends_accepted_prepend d mail [_; _]). exact (Hend Htrue).
        -- intros (n & c & m & ms' & Hin & Hok). apply Hacc.
           destruct Hin as [Hin | [Hin | Hin]]; [discriminate Hin | | exists n, c, m, ms'; auto].
           injection Hin as <- <- <-. congruence.
      * cbn [outcome trace]. split; [right; right; reflexivity |].
        split; [exists 1; reflexivity |]. split; [discriminate |]. split; [| split; [discriminate |]].
        -- intros n c m [Hin | [Hin | []]]; [discriminate Hin |].
           injection Hin as <- <- <-. split; [reflexivity |].
           exists (calls w), ms. split; [reflexivity |]. split; [left; reflexivity | exact Hv].
        -- intros (n & c & m & ms' & Hin & Hok).
           destruct Hin as [Hin | [Hin | []]]; [discriminate Hin |].
           injection Hin as <- <- <-. congruence.
    + destruct (IH (tick ms (called w))) as (Ho & [k Hk] & Hall & Hsent & Hend & Hacc).
      cbn [prepend outcome trace]. split; [exact Ho |].
      split; [exists (S k); cbn; f_equal; exact Hk |].
      split; [intros Hthrown; cbn; f_equal; exact (Hall Hthrown) |]. split; [| split].
      * apply (sent_after_verify_prepend d mail [_]); [exact Hsent |].
        intros n c m [Hin | []]. discriminate Hin.
      * intros Htrue. apply (ends_accepted_prepend d mail [_]). exact (Hend Htrue).
      * intros (n & c & m & ms' & Hin & Hok). apply Hacc.
        destruct Hin as [Hin | Hin]; [discriminate Hin | exists n, c, m, ms'; auto].
    + cbn [outcome trace]. split; [right; right; reflexivity |].
      split; [exists 1; reflexivity |]. split; [discriminate |]. split; [| split; [discriminate |]].
      * intros n c m [Hin | []]. discriminate Hin.
      * intros (n & c & m & ms' & Hin & Hok). destruct Hin as [Hin | []]. discriminate Hin.
Qed.

Lemma tryGmailSMTP_configured to subject text d w :
  JS.truthy (smtp_user d) = true ->
  JS.truthy (smtp_pass d) = true ->
  exists line,
    let inner := tryGmailConfigs (gmail_configs (JS.str (smtp_user d)) (JS.str (smtp_pass d)))
                   (gmail_mail to subject text d) d w in
    outcome (tryGmailSMTP to subject text d w) = outcome inner
    /\ trace (tryGmailSMTP to subject text d w) = line :: trace inner
    /\ verified [line] = [] /\ sent [line] = []
    /\ forall n c, line <> Call n c.
Proof.
  intros Hu Hp.
  assert (Hguard : negb (JS.truthy (JS.or (env d !! "SMTP_USER") (config d !! "email.SMTP_USER")))
                   || negb (JS.truthy (JS.or (env d !! "SMTP_PASS") (config d !! "email.SMTP_PASS")))
                   = false).
  { unfold smtp_user in Hu. unfold smtp_pass in Hp. rewrite Hu, Hp. reflexivity. }
  eexists. cbv zeta.
  unfold tryGmailSMTP.
  match goal with
  | |- context [rethrowing ?m d w] => destruct (rethrowing_run m d w) as (Ho & Ht & _)
  end.
  rewrite Ho, Ht. clear Ho Ht.
  unfold mbind, M_bind. run_steps. rewrite Hguard.
  cbn [prepend outcome trace app].
  split; [reflexivity |]. split; [reflexivity |]. split; [reflexivity |].
  split; [reflexivity | discriminate].
Qed.

(** X13. With SMTP user and password configured, [tryGmailSMTP] verifies the
    transports of ports 587, 465 and 2525 in that order, going on to the
    next one when verification or sending fails.  A message is only sent
    through a transport whose verification has just succeeded, and it is
    the message for [to] with sender ["No Reply" <from>].  The strategy
    returns [true] exactly when a relay accepted the message, which then
    ends the trace; when all three transports fail it throws "All Gmail
    SMTP configurations failed", whatever the SMTP errors were, and it
    never returns [false]. *)
Theorem tryGmailSMTP_walks_the_three_transports to subject text d w :
  JS.truthy (smtp_user d) = true ->
  JS.truthy (smtp_pass d) = true ->
  let r := tryGmailSMTP to subject text d w in
  let mail := gmail_mail to subject text d in
  (outcome r = Returned true
   \/ outcome r = Thrown (Err "All Gmail SMTP configurations failed")
   \/ outcome r = Pending)
  /\ (exists k, map cfg_port (verified (trace r)) = take k [587; 465; 2525]%N)
  /\ (outcome r = Thrown (Err "All Gmail SMTP configurations failed") ->
      map cfg_port (verified (trace r)) = [587; 465; 2525]%N)
  /\ sent_after_verify d mail (trace r)
  /\ (outcome r = Returned true -> ends_accepted d mail (trace r))
  /\ (accepted d (trace r) -> outcome r = Returned true).
Proof.
  intros Hu Hp r mail. subst r mail.
  destruct (tryGmailSMTP_configured to subject text d w Hu Hp)
    as (line & Ho & Ht & Hverified & Hsent & Hline). cbv zeta in Ho, Ht.
  destruct (tryGmailConfigs_walk
              (gmail_configs (JS.str (smtp_user d)) (JS.str (smtp_pass d)))
              (gmail_mail to subject text d) d w)
    as (Hout & [k Hk] & Hall & Hafter & Hend & Hacc).
  rewrite Ho, Ht. split; [exact Hout |].
  assert (Hv : forall t, verified (line :: t) = verified t).
  { intros t. change (line :: t) with ([line] ++ t). unfold verified in *.
    rewrite omap_app, Hverified. reflexivity. }
  rewrite Hv. split.
  { exists k. rewrite Hk. do 3 (destruct k as [| k]; [reflexivity |]). destruct k; reflexivity. }
  split.
  { intros Hthrown. rewrite (Hall Hthrown). reflexivity. }
  split; [| split].
  - apply (sent_after_verify_prepend d _ [line]); [exact Hafter |].
    intros n c m [Hin | []]. exfalso. exact (Hline _ _ Hin).
  - intros Htrue. apply (ends_accepted_prepend d _ [line]). exact (Hend Htrue).
  - intros (n & c & m & ms & Hin & Hok). apply Hacc.
    destruct Hin as [Hin | Hin]; [exfalso; exact (Hline _ _ Hin) | exists n, c, m, ms; auto].
Qed.

Lemma tryGmailSMTP_walks_the_three_transports_witness :
  let r := tryGmailSMTP "ann@example.org" "Booked" "See you" gmail_465 start in
  outcome r = Returned true
  /\ map cfg_port (verified (trace r)) = [587; 465]%N
  /\ sent_after_verify gmail_465 (gmail_mail "ann@example.org" "Booked" "See you" gmail_465)
       (trace r).
Proof.
  pose proof (tryGmailSMTP_walks_the_three_transports
                "ann@example.org" "Booked" "See you" gmail_465 start eq_refl eq_refl)
    as (_ & _ & _ & Hsent & _ & _).
  split; [vm_compute; reflexivity |]. split; [vm_compute; reflexivity | exact Hsent].
Defined.

(** X14. With API key and sender configured, [trySendGridAPI] posts one
    request, carrying the key as bearer token, and nothing else.  It
    returns [true] exactly when the response is [ok]; any other response
    is thrown as "SendGrid API failed: <status> - <body>", a failed
    request is thrown as it is, and [false] is never returned. *)
Theorem trySendGridAPI_succeeds_only_on_an_ok_response to subject text d w :
  JS.truthy (sendgrid_key d) = true ->
  JS.truthy (sendgrid_from d) = true ->
  let r := trySendGridAPI to subject text d w in
  let request := sendgrid_request to subject text d in
  let reply := sendgrid_fetch (outside d) (calls w) request in
  ext_calls (trace r) = [SendGridFetch request]
  /\ outcome r <> Returned false
  /\ (outcome r = Returned true <-> exists ms response, reply = Fulfil ms response
                                                       /\ resp_ok response = true)
  /\ (forall ms response ms' body,
        reply = Fulfil ms response -> resp_ok response = false ->
        resp_text response = Fulfil ms' body ->
        outcome r = Thrown (Err ("SendGrid API failed: " ++ JS.of_N (resp_status response)
                                   ++ " - " ++ body)%string))
  /\ (forall ms e, reply = Reject ms e -> outcome r = Thrown e).
Proof.
  intros Hk Hf r request reply.
  assert (Hguard : negb (JS.truthy (JS.or (env d !! "SENDGRID_API_KEY") (config d !! "sendGrid.apiKey")))
                   || negb (JS.truthy (JS.or (env d !! "SENDGRID_FROM_EMAIL")
                                         (config d !! "sendGrid.fromEmail")))
                   = false).
  { unfold sendgrid_key in Hk. unfold sendgrid_from in Hf. rewrite Hk, Hf. reflexivity. }
  subst r. unfold trySendGridAPI.
  match goal with
  | |- context [rethrowing ?m d w] => destruct (rethrowing_run m d w) as (Ho & Ht & _)
  end.
  rewrite Ho, Ht. clear Ho Ht.
  unfold mbind, M_bind. run_steps. rewrite Hguard.
  cbn [prepend outcome trace app].
  match goal with
  | |- context [await_call (SendGridFetch ?rq)] => change rq with request
  end.
  unfold bind, await_call. fold reply.
  destruct reply as [ms [ok status txt] | ms e |] eqn:Hreply; cbn.
  - destruct ok; cbn.
    + split; [reflexivity |]. split; [discriminate |]. split.
      * split; [intros _; eauto | reflexivity].
      * split; [| discriminate]. intros ? ? ? ? Heq Hok. injection Heq as <- <-. discriminate Hok.
    + unfold await_reply. destruct txt as [ms' body | ms' e |]; cbn.
      * split; [reflexivity |]. split; [discriminate |]. split.
        -- split; [discriminate |]. intros (? & ? & Heq & Hok). injection Heq as <- <-.
           discriminate Hok.
        -- split; [| discriminate]. intros ? ? ? ? Heq _ Htxt. injection Heq as <- <-.
           cbn in Htxt. injection Htxt as <- <-. reflexivity.
      * split; [reflexivity |]. split; [discriminate |]. split.
        -- split; [discriminate |]. intros (? & ? & Heq & Hok). injection Heq as <- <-.
           discriminate Hok.
        -- split; [| discriminate]. intros ? ? ? ? Heq _ Htxt. injection Heq as <- <-.
           discriminate Htxt.
      * split; [reflexivity |]. split; [discriminate |]. split.
        -- split; [discriminate |]. intros (? & ? & Heq & Hok). injection Heq as <- <-.
           discriminate Hok.
        -- split; [| discriminate]. intros ? ? ? ? Heq _ Htxt. injection Heq as <- <-.
           discriminate Htxt.
  - split; [reflexivity |]. split; [discriminate |]. split.
    + split; [discriminate |]. intros (? & ? & Heq & _). discriminate Heq.
    + split; [discriminate |]. intros ? ? Heq. injection Heq as <- <-. reflexivity.
  - split; [reflexivity |]. split; [discriminate |]. split.
    + split; [discriminate |]. intros (? & ? & Heq & _). discriminate Heq.
    + split; discriminate.
Qed.

Lemma trySendGridAPI_succeeds_only_on_an_ok_response_witness :
  outcome (trySendGridAPI "ann@example.org" "Booked" "See you" sendgrid_unauthorized start)
  = Thrown (Err "SendGrid API failed: 401 - invalid api key").
Proof.
  destruct (trySendGridAPI_succeeds_only_on_an_ok_response
              "ann@example.org" "Booked" "See you" sendgrid_unauthorized start eq_refl eq_refl)
    as (_ & _ & _ & Hnot_ok & _).
  exact (Hnot_ok 80%N {| resp_ok := false; resp_status := 401;
                         resp_text := Fulfil 2 "invalid api key" |} 2%N "invalid api key"
           eq_refl eq_refl eq_refl).
Defined.

(** ** Reading and changing a stored request *)

Import QuotationRequestUpdates.

Lemma findOne_run repo id d w :
  let r := repo id d w in
  findOne repo id d w =
  match outcome r with
  | Returned None =>
      mkRun (Returned (NotFoundException "Quotation request not found")) (final r) (trace r)
  | Returned (Some entity) => mkRun (Returned (Here entity)) (final r) (trace r)
  | Thrown e =>
      mkRun (Thrown (Err ("Failed to fetch quotation request: " ++ message e))) (final r) (trace r)
  | Pending => mkRun Pending (final r) (trace r)
  end.
Proof.
  intros r. subst r. unfold findOne, mbind, M_bind, bind, try_catch, mret, M_ret, ret, throw.
  destruct (repo id d w) as [[[entity |] | e |] w1 t1]; cbn; rewrite ?app_nil_r; reflexivity.
Qed.

(** The three methods that read the request first and then save it have
    one shape. *)
Lemma read_then {A} repo id (body : Quotation -> M (Found A)) (prefix : string) d w :
  let r := repo id d w in
  try_catch
    (found ← findOne repo id;
     match found with
     | NotFoundException reason => mret (NotFoundException reason)
     | Here entity => body entity
     end)
    (fun error => throw (Err (prefix ++ message error))) d w
  = match outcome r with
    | Returned None =>
        mkRun (Returned (NotFoundException "Quotation request not found")) (final r) (trace r)
    | Returned (Some entity) =>
        prepend (trace r)
          (try_catch (body entity) (fun error => throw (Err (prefix ++ message error)))
             d (final r))
    | Thrown e =>
        mkRun (Thrown (Err (prefix ++ "Failed to fetch quotation request: " ++ message e)))
          (final r) (trace r)
    | Pending => mkRun Pending (final r) (trace r)
    end.
Proof.
  intros r. subst r. pose proof (findOne_run repo id d w) as Hf. cbv zeta in Hf.
  unfold mbind, M_bind.
  destruct (repo id d w) as [[[entity |] | e |] w1 t1]; cbn [outcome final trace] in *.
  - unfold try_catch at 1. erewrite run_bind_returned by exact Hf.
    unfold prepend, try_catch.
    destruct (body entity d w1) as [[a | e |] w2 t2]; cbn; rewrite ?app_nil_r; reflexivity.
  - erewrite run_try_returned; [reflexivity |].
    erewrite run_bind_returned by exact Hf. unfold prepend. cbn. rewrite app_nil_r. reflexivity.
  - erewrite run_try_thrown.
    2:{ erewrite run_bind_thrown by exact Hf. reflexivity. }
    unfold prepend. cbn. rewrite app_nil_r. reflexivity.
  - erewrite run_try_pending; [reflexivity |].
    erewrite run_bind_pending by exact Hf. reflexivity.
Qed.

(** X15. A request that cannot be read is never written.  When the
    repository has no such request, [update], [updateStatus] and
    [remove] answer with the [NotFoundException] "Quotation request not
    found" and do nothing but the lookup: no upload, no save.  When the
    lookup itself fails, they stop as well, and the error carries two
    prefixes, the one of [findOne] inside their own. *)
Theorem a_request_that_is_not_read_is_not_written
    repo upload id updateDto status quotationAmount notes d w :
  let r := repo id d w in
  (outcome r = Returned None ->
   update repo upload id updateDto d w
   = mkRun (Returned (NotFoundException "Quotation request not found")) (final r) (trace r)
   /\ updateStatus repo id status quotationAmount notes d w
      = mkRun (Returned (NotFoundException "Quotation request not found")) (final r) (trace r)
   /\ remove repo id d w
      = mkRun (Returned (NotFoundException "Quotation request not found")) (final r) (trace r))
  /\
  (forall e, outcome r = Thrown e ->
   update repo upload id updateDto d w
   = mkRun (Thrown (Err ("Failed to update quotation request: "
                           ++ "Failed to fetch quotation request: " ++ message e)))
       (final r) (trace r)
   /\ updateStatus repo id status quotationAmount notes d w
      = mkRun (Thrown (Err ("Failed to update quotation request: "
                              ++ "Failed to fetch quotation request: " ++ message e)))
          (final r) (trace r)
   /\ remove repo id d w
      = mkRun (Thrown (Err ("Failed to delete quotation request: "
                              ++ "Failed to fetch quotation request: " ++ message e)))
          (final r) (trace r)).
Proof.
  intros r. subst r. split.
  - intros Hnone. unfold update, updateStatus, remove.
    rewrite !read_then. cbv zeta. rewrite Hnone. repeat split.
  - intros e He. unfold update, updateStatus, remove.
    rewrite !read_then. cbv zeta. rewrite He. repeat split.
Qed.

Lemma a_request_that_is_not_read_is_not_written_witness :
  update one_request storing_upload "000000000000000000000000" picture_only bare start
  = mkRun (Returned (NotFoundException "Quotation request not found")) start []
  /\ outcome (remove no_database "65f1c0ffee0123456789abcd" bare start)
     = Thrown (Err ("Failed to delete quotation request: "
                      ++ "Failed to fetch quotation request: "
                      ++ "MongoNetworkError: connection closed")).
Proof.
  split.
  - apply (proj1 (a_request_that_is_not_read_is_not_written
                    one_request storing_upload "000000000000000000000000" picture_only
                    "accepted" None None bare start)).
    reflexivity.
  - destruct (proj2 (a_request_that_is_not_read_is_not_written
                       no_database storing_upload "65f1c0ffee0123456789abcd" picture_only
                       "accepted" None None bare start)
                (Err "MongoNetworkError: connection closed") eq_refl) as (_ & _ & Hr).
    rewrite Hr. reflexivity.
Defined.

(** The save that ends [update], [updateStatus] and [remove]. *)
Lemma save_then {A} (entity : Quotation) (answer : Quotation -> Found A) (prefix : string) d w :
  try_catch
    (saved ← await_call (RepoSave entity) (fun o n => repo_save o n entity);
     mret (answer saved))
    (fun error => throw (Err (prefix ++ message error))) d w
  = match repo_save (outside d) (calls w) entity with
    | Fulfil ms saved =>
        mkRun (Returned (answer saved)) (tick ms (called w)) [Call (calls w) (RepoSave entity)]
    | Reject ms e =>
        mkRun (Thrown (Err (prefix ++ message e))) (tick ms (called w))
          [Call (calls w) (RepoSave entity)]
    | Never => mkRun Pending (called w) [Call (calls w) (RepoSave entity)]
    end.
Proof.
  unfold mbind, M_bind, bind, try_catch, await_call, mret, M_ret, ret, throw.
  destruct (repo_save (outside d) (calls w) entity) as [ms saved | ms e |]; reflexivity.
Qed.

Lemma run_try_bind_returned {A B} (m : M A) (f : A -> M B) (h : Error -> M B) d w a w' t :
  m d w = mkRun (Returned a) w' t ->
  try_catch (bind m f) h d w = prepend t (try_catch (f a) h d w').
Proof.
  intros H. unfold try_catch, bind, prepend. rewrite H. cbn [outcome final trace].
  destruct (f a d w') as [[b | e |] w2 t2]; cbn; rewrite ?app_assoc; reflexivity.
Qed.

(** [update] once the request is read and the images to store are
    known. *)
Lemma update_found repo upload id updateDto entity images d w :
  outcome (repo id d w) = Returned (Some entity) ->
  let w1 := final (repo id d w) in
  let s := imagesToStore upload entity updateDto d w1 in
  outcome s = Returned images ->
  let request := assigned entity updateDto images in
  trace (update repo upload id updateDto d w)
  = trace (repo id d w) ++ trace s ++ [Call (calls (final s)) (RepoSave request)]
  /\ outcome (update repo upload id updateDto d w)
     = match repo_save (outside d) (calls (final s)) request with
       | Fulfil ms saved => Returned (Here saved)
       | Reject ms e => Thrown (Err ("Failed to update quotation request: " ++ message e))
       | Never => Pending
       end.
Proof.
  intros Hfound w1 s Himages request. subst w1 s request.
  unfold update. rewrite read_then. cbv zeta. rewrite Hfound.
  destruct (imagesToStore upload entity updateDto d (final (repo id d w))) as [o w2 t2] eqn:Hs.
  cbn [outcome final trace] in *. subst o.
  unfold mbind, M_bind.
  erewrite run_try_bind_returned by exact Hs.
  pose proof (save_then (assigned entity updateDto images) Here
                "Failed to update quotation request: " d w2) as Hsave.
  unfold mbind, M_bind in Hsave. rewrite Hsave.
  destruct (repo_save (outside d) (calls w2) (assigned entity updateDto images))
    as [ms saved | ms e |]; split; reflexivity.
Qed.

Lemma ltb_0_length {A} (l : list A) : l <> [] -> Nat.ltb 0 (length l) = true.
Proof. destruct l; [congruence | reflexivity]. Qed.

Lemma filter_nonempty {A} (p : A -> bool) (l : list A) : List.filter p l <> [] -> l <> [].
Proof. destruct l; [intros H; exact H | discriminate]. Qed.

Lemma filter_none_negb_all {A} (p : A -> bool) (l : list A) :
  List.filter p l = [] -> List.filter (fun x => negb (p x)) l = l.
Proof.
  induction l as [| x l IH]; [reflexivity |]. cbn. destruct (p x); [discriminate |].
  intros H. cbn. rewrite (IH H). reflexivity.
Qed.

(** The images to store when the DTO brings pictures to upload. *)
Lemma imagesToStore_uploading upload entity updateDto referenceImages d w :
  upd_referenceImages updateDto = Some referenceImages ->
  List.filter is_base64 referenceImages <> [] ->
  let existingUrls := List.filter (fun img => negb (is_base64 img)) referenceImages in
  let u := upload (List.filter is_base64 referenceImages) d w in
  imagesToStore upload entity updateDto d w =
  match outcome u with
  | Returned urls => mkRun (Returned (existingUrls ++ urls)) (final u) (trace u)
  | Thrown e =>
      mkRun (Returned (if Nat.ltb 0 (length existingUrls)
                       then existingUrls else q_referenceImages entity))
        (final u) (trace u)
  | Pending => mkRun Pending (final u) (trace u)
  end.
Proof.
  intros Hdto Hnew existingUrls u. subst existingUrls u. unfold imagesToStore.
  rewrite Hdto, (ltb_0_length _ (filter_nonempty _ _ Hnew)), (ltb_0_length _ Hnew).
  unfold mbind, M_bind, bind, try_catch, mret, M_ret, ret.
  destruct (upload (List.filter is_base64 referenceImages) d w) as [[urls | e |] w2 t2];
    cbn; rewrite ?app_nil_r; reflexivity.
Qed.

(** X16. When the DTO of [update] brings pictures to upload, the request is
    saved with the URLs the DTO names first, in their order, and the URLs
    of the new uploads after them, wherever the pictures stood in the
    DTO; the images stored before are replaced.  When the upload method
    throws, the request is saved all the same, with the URLs the DTO
    names or, if it names none, with the images stored before. *)
Theorem update_stores_named_urls_before_new_uploads
    repo upload id updateDto entity referenceImages d w :
  outcome (repo id d w) = Returned (Some entity) ->
  upd_referenceImages updateDto = Some referenceImages ->
  List.filter is_base64 referenceImages <> [] ->
  let existingUrls := List.filter (fun img => negb (is_base64 img)) referenceImages in
  let u := upload (List.filter is_base64 referenceImages) d (final (repo id d w)) in
  let r := update repo upload id updateDto d w in
  (forall urls, outcome u = Returned urls ->
     trace r = trace (repo id d w) ++ trace u
                 ++ [Call (calls (final u))
                       (RepoSave (assigned entity updateDto (existingUrls ++ urls)))])
  /\ (forall e, outcome u = Thrown e ->
        trace r = trace (repo id d w) ++ trace u
                    ++ [Call (calls (final u))
                          (RepoSave (assigned entity updateDto
                                       (if Nat.ltb 0 (length existingUrls)
                                        then existingUrls else q_referenceImages entity)))]).
Proof.
  intros Hfound Hdto Hnew existingUrls u r. subst existingUrls u r.
  pose proof (imagesToStore_uploading upload entity updateDto referenceImages d
                (final (repo id d w)) Hdto Hnew) as Hs. cbv zeta in Hs.
  split.
  - intros urls Hu. rewrite Hu in Hs.
    destruct (update_found repo upload id updateDto entity _ d w Hfound
                (eq_trans (f_equal outcome Hs) eq_refl)) as [Ht _].
    rewrite Ht, Hs. reflexivity.
  - intros e Hu. rewrite Hu in Hs.
    destruct (update_found repo upload id updateDto entity _ d w Hfound
                (eq_trans (f_equal outcome Hs) eq_refl)) as [Ht _].
    rewrite Ht, Hs. reflexivity.
Qed.

Lemma update_stores_named_urls_before_new_uploads_witness :
  trace (update one_request storing_upload "65f1c0ffee0123456789abcd" picture_and_url bare start)
  = [Call 0 (RepoSave {| q_rest := q_rest stored; q_userId := "user-17";
                         q_referenceImages := ["https://cdn.example.org/uploads/old.png";
                                               "https://cdn.example.org/uploads/new.png"];
                         q_eventDate := "2026-05-01"; q_endDate := "2026-05-02";
                         q_status := "quoted"; q_isDeleted := false |})].
Proof.
  apply (proj1 (update_stores_named_urls_before_new_uploads
                  one_request storing_upload "65f1c0ffee0123456789abcd" picture_and_url stored
                  ["data:image/png;base64,iVBORw0KGgo="; "https://cdn.example.org/uploads/old.png"]
                  bare start eq_refl eq_refl ltac:(discriminate))
           ["https://cdn.example.org/uploads/new.png"]).
  reflexivity.
Defined.

(** X17. When the DTO of [update] brings no picture to upload, nothing is
    uploaded: the lookup is followed by the save alone.  A DTO that lists
    URLs replaces the stored images by its list; a DTO without images, or
    with an empty list, leaves the stored images as they are. *)
Theorem update_without_new_pictures_uploads_nothing repo upload id updateDto entity d w :
  outcome (repo id d w) = Returned (Some entity) ->
  List.filter is_base64 (default [] (upd_referenceImages updateDto)) = [] ->
  let images :=
    match upd_referenceImages updateDto with
    | Some (url :: urls) => url :: urls
    | _ => q_referenceImages entity
    end in
  trace (update repo upload id updateDto d w)
  = trace (repo id d w)
      ++ [Call (calls (final (repo id d w))) (RepoSave (assigned entity updateDto images))].
Proof.
  intros Hfound Hnone images. subst images.
  assert (Hs : imagesToStore upload entity updateDto d (final (repo id d w))
               = mkRun (Returned match upd_referenceImages updateDto with
                                 | Some (url :: urls) => url :: urls
                                 | _ => q_referenceImages entity
                                 end) (final (repo id d w)) []).
  { unfold imagesToStore. destruct (upd_referenceImages updateDto) as [[| url urls] |];
      [reflexivity | | reflexivity].
    change (List.filter is_base64 (url :: urls) = []) in Hnone. cbn [length Nat.ltb Nat.leb].
    rewrite Hnone, (filter_none_negb_all _ _ Hnone). reflexivity. }
  destruct (update_found repo upload id updateDto entity _ d w Hfound
              (eq_trans (f_equal outcome Hs) eq_refl)) as [Ht _].
  rewrite Ht, Hs. reflexivity.
Qed.

Lemma update_without_new_pictures_uploads_nothing_witness :
  trace (update one_request broken_upload "65f1c0ffee0123456789abcd" hall_and_status bare start)
  = [Call 0 (RepoSave (assigned stored hall_and_status
                         ["https://cdn.example.org/uploads/old.png"]))].
Proof.
  apply (update_without_new_pictures_uploads_nothing
           one_request broken_upload "65f1c0ffee0123456789abcd" hall_and_status stored bare start);
    reflexivity.
Defined.

(** X18. With the repository's own upload method the handler of [update]
    that keeps the stored images is never entered, because
    [uploadBase64Images] catches the error of every image itself: the
    request is saved with the URLs the DTO names followed by the uploads
    that worked, so that a DTO of new pictures whose uploads all fail
    leaves the request without images. *)
Theorem update_does_not_fall_back_to_the_stored_images
    repo id updateDto entity referenceImages d w :
  outcome (repo id d w) = Returned (Some entity) ->
  upd_referenceImages updateDto = Some referenceImages ->
  List.filter is_base64 referenceImages <> [] ->
  let existingUrls := List.filter (fun img => negb (is_base64 img)) referenceImages in
  let u := uploadBase64Images (List.filter is_base64 referenceImages) d (final (repo id d w)) in
  let r := update repo uploadBase64Images id updateDto d w in
  (outcome u = Pending /\ outcome r = Pending)
  \/ exists urls,
       outcome u = Returned urls
       /\ trace r = trace (repo id d w) ++ trace u
                      ++ [Call (calls (final u))
                            (RepoSave (assigned entity updateDto (existingUrls ++ urls)))].
Proof.
  intros Hfound Hdto Hnew existingUrls u r. subst existingUrls u r.
  pose proof (imagesToStore_uploading uploadBase64Images entity updateDto referenceImages d
                (final (repo id d w)) Hdto Hnew) as Hs. cbv zeta in Hs.
  pose proof (uploadBase64Images_never_throws (List.filter is_base64 referenceImages) d
                (final (repo id d w))) as Hnever.
  destruct (outcome (uploadBase64Images (List.filter is_base64 referenceImages) d
                       (final (repo id d w)))) as [urls | e |] eqn:Hu.
  - right. exists urls. split; [reflexivity |].
    destruct (update_found repo uploadBase64Images id updateDto entity _ d w Hfound
                (eq_trans (f_equal outcome Hs) eq_refl)) as [Ht _].
    rewrite Ht, Hs. reflexivity.
  - exfalso. exact (Hnever e eq_refl).
  - left. split; [reflexivity |].
    unfold update. rewrite read_then. cbv zeta. rewrite Hfound.
    unfold mbind, M_bind.
    erewrite (run_try_pending (bind _ _)); [reflexivity |].
    erewrite run_bind_pending by exact Hs. reflexivity.
Qed.

Lemma update_does_not_fall_back_to_the_stored_images_witness :
  q_referenceImages stored = ["https://cdn.example.org/uploads/old.png"]
  /\ exists t,
       trace (update one_request uploadBase64Images "65f1c0ffee0123456789abcd" picture_only
                bare start)
       = t ++ [Call 2 (RepoSave {| q_rest := q_rest stored; q_userId := "user-17";
                                   q_referenceImages := [];
                                   q_eventDate := "2026-05-01"; q_endDate := "2026-05-02";
                                   q_status := "quoted"; q_isDeleted := false |})].
Proof.
  split; [reflexivity |].
  destruct (update_does_not_fall_back_to_the_stored_images
              one_request "65f1c0ffee0123456789abcd" picture_only stored
              ["data:image/png;base64,iVBORw0KGgo="] bare start eq_refl eq_refl
              ltac:(discriminate)) as [[Hp _] | (urls & Hu & Ht)].
  - vm_compute in Hp. discriminate Hp.
  - vm_compute in Hu. injection Hu as <-.
    exists (trace (one_request "65f1c0ffee0123456789abcd" bare start)
              ++ trace (uploadBase64Images
                          (List.filter is_base64 ["data:image/png;base64,iVBORw0KGgo="]) bare
                          (final (one_request "65f1c0ffee0123456789abcd" bare start)))).
    rewrite Ht, app_assoc. f_equal.
Defined.

Lemma get_set_field_same name value fields :
  get_field name (set_field name value fields) = Some value.
Proof.
  induction fields as [| [key old] rest IH]; cbn.
  - rewrite String.eqb_refl. reflexivity.
  - destruct (String.eqb key name) eqn:E; cbn; rewrite E; [reflexivity | exact IH].
Qed.

Lemma get_set_field_other name other value fields :
  other <> name -> get_field name (set_field other value fields) = get_field name fields.
Proof.
  intros Hne. induction fields as [| [key old] rest IH]; cbn.
  - destruct (String.eqb other name) eqn:E; [| reflexivity].
    apply String.eqb_eq in E. contradiction.
  - destruct (String.eqb key other) eqn:E; cbn.
    + apply String.eqb_eq in E. subst key.
      destruct (String.eqb other name) eqn:E'; [| reflexivity].
      apply String.eqb_eq in E'. contradiction.
    + destruct (String.eqb key name); [reflexivity | exact IH].
Qed.

Lemma get_copied names from name : forall to,
  get_field name
    (fold_left
       (fun entity name =>
          match get_field name from with
          | Some value => set_field name value entity
          | None => entity
          end) names to)
  = if existsb (String.eqb name) names
    then match get_field name from with
         | Some value => Some value
         | None => get_field name to
         end
    else get_field name to.
Proof.
  induction names as [| first names IH]; intros to; [reflexivity |].
  cbn [fold_left existsb]. rewrite IH. destruct (String.eqb name first) eqn:E.
  - apply String.eqb_eq in E. subst first. cbn [orb].
    destruct (get_field name from) as [value |] eqn:Hv.
    + rewrite get_set_field_same. destruct (existsb (String.eqb name) names); reflexivity.
    + destruct (existsb (String.eqb name) names); reflexivity.
  - cbn [orb].
    assert (Hne : first <> name) by (intros ->; rewrite String.eqb_refl in E; discriminate).
    destruct (get_field first from) as [value |]; [| reflexivity].
    rewrite (get_set_field_other name first value to Hne). reflexivity.
Qed.

(** X19. [update] copies the fields it lists and no other.  In the request
    it saves, a listed field has the value of the DTO when the DTO
    defines it; every other field of the entity, [status] and [isDeleted]
    among them, is what was stored, whatever the DTO carries under such a
    name.  The owner of the request is a listed field: a DTO with a
    [userId] hands the request to that user. *)
Theorem update_copies_the_listed_fields_only repo upload id updateDto entity images d w :
  outcome (repo id d w) = Returned (Some entity) ->
  outcome (imagesToStore upload entity updateDto d (final (repo id d w))) = Returned images ->
  exists n request,
    last (trace (update repo upload id updateDto d w)) = Some (Call n (RepoSave request))
    /\ q_referenceImages request = images
    /\ q_status request = q_status entity
    /\ q_isDeleted request = q_isDeleted entity
    /\ q_userId request = default (q_userId entity) (upd_userId updateDto)
    /\ forall name,
         get_field name (q_rest request)
         = if existsb (String.eqb name) copied_fields
           then match get_field name (upd_rest updateDto) with
                | Some value => Some value
                | None => get_field name (q_rest entity)
                end
           else get_field name (q_rest entity).
Proof.
  intros Hfound Himages.
  destruct (update_found repo upload id updateDto entity images d w Hfound Himages) as [Ht _].
  eexists _, (assigned entity updateDto images). split.
  { rewrite Ht, !last_app. reflexivity. }
  repeat split. intros name. apply get_copied.
Qed.

Lemma update_copies_the_listed_fields_only_witness :
  exists n request,
    last (trace (update one_request broken_upload "65f1c0ffee0123456789abcd" hall_and_status
                   bare start)) = Some (Call n (RepoSave request))
    /\ q_status request = "quoted"
    /\ q_userId request = "user-99"
    /\ get_field "eventHall" (q_rest request) = Some "Rooftop Terrace"
    /\ get_field "notes" (q_rest request) = Some "call first"
    /\ get_field "status" (q_rest request) = None.
Proof.
  destruct (update_copies_the_listed_fields_only
              one_request broken_upload "65f1c0ffee0123456789abcd" hall_and_status stored
              (q_referenceImages stored) bare start eq_refl eq_refl)
    as (n & request & Hlast & _ & Hstatus & _ & Huser & Hfields).
  exists n, request. split; [exact Hlast |]. split; [exact Hstatus |]. split; [exact Huser |].
  split; [rewrite Hfields; reflexivity |]. split; rewrite Hfields; reflexivity.
Defined.

(** ** The base URLs of the frontend *)

Import JSString ApiBaseUrl.

Lemma cons_app c (a t : string) : (String c a ++ t = String c (a ++ t))%string.
Proof. reflexivity. Qed.

Lemma nil_app (t : string) : (EmptyString ++ t = t)%string.
Proof. reflexivity. Qed.

Lemma prefix_app_l p : forall a t, String.prefix p a = true -> String.prefix p (a ++ t) = true.
Proof.
  induction p as [| c p IH]; intros a t H; [destruct (a ++ t)%string; reflexivity |].
  destruct a as [| c' a]; [discriminate H |]. rewrite cons_app. cbn in *.
  destruct (Ascii.ascii_dec c c'); [| discriminate H]. apply IH. exact H.
Qed.

Lemma prefix_refl p : String.prefix p p = true.
Proof.
  induction p as [| c p IH]; [reflexivity |]. cbn.
  destruct (Ascii.ascii_dec c c); [exact IH | congruence].
Qed.

Lemma includes_unfold sub s :
  includes sub s
  = if String.prefix sub s then true
    else match s with
         | EmptyString => false
         | String _ rest => includes sub rest
         end.
Proof. destruct s; reflexivity. Qed.

Lemma includes_prefix sub s : String.prefix sub s = true -> includes sub s = true.
Proof. intros H. rewrite includes_unfold, H. reflexivity. Qed.

Lemma includes_cons sub c s : includes sub s = true -> includes sub (String c s) = true.
Proof.
  intros H. rewrite includes_unfold. destruct (String.prefix sub (String c s)); [reflexivity | exact H].
Qed.

Lemma includes_app_l sub t : forall a, includes sub a = true -> includes sub (a ++ t) = true.
Proof.
  induction a as [| c a IH]; intros H.
  - rewrite includes_unfold in H. destruct (String.prefix sub EmptyString) eqn:E; [| discriminate H].
    apply includes_prefix. apply (prefix_app_l sub EmptyString t E).
  - rewrite includes_unfold in H. destruct (String.prefix sub (String c a)) eqn:E.
    + apply includes_prefix. apply prefix_app_l. exact E.
    + rewrite cons_app. apply includes_cons. apply IH. exact H.
Qed.

Lemma includes_app_r sub : forall a, includes sub (a ++ sub) = true.
Proof.
  induction a as [| c a IH].
  - rewrite nil_app. apply includes_prefix. apply prefix_refl.
  - rewrite cons_app. apply includes_cons. exact IH.
Qed.

Lemma strip_slashes_unfold c rest :
  strip_slashes (String c rest)
  = if slashes (String c rest) then EmptyString else String c (strip_slashes rest).
Proof. reflexivity. Qed.

(** Stripping cuts a tail off. *)
Lemma strip_slashes_prefix s : exists t, s = (strip_slashes s ++ t)%string.
Proof.
  induction s as [| c s [t IH]]; [exists EmptyString; reflexivity |].
  rewrite strip_slashes_unfold. destruct (slashes (String c s)).
  - exists (String c s). reflexivity.
  - exists t. rewrite cons_app, <- IH. reflexivity.
Qed.

Lemma includes_strip_slashes sub s :
  includes sub (strip_slashes s) = true -> includes sub s = true.
Proof.
  intros H. destruct (strip_slashes_prefix s) as [t Ht]. rewrite Ht.
  apply includes_app_l. exact H.
Qed.

Lemma strip_slashes_empty s :
  strip_slashes s = EmptyString -> s = EmptyString \/ slashes s = true.
Proof.
  destruct s as [| c s]; [left; reflexivity |]. rewrite strip_slashes_unfold.
  destruct (slashes (String c s)); [right; reflexivity | discriminate].
Qed.

Lemma endsWith_unfold suffix s :
  endsWith suffix s
  = if String.eqb s suffix then true
    else match s with
         | EmptyString => false
         | String _ rest => endsWith suffix rest
         end.
Proof. destruct s; reflexivity. Qed.

Lemma eqb_one c s d :
  String.eqb (String c s) (String d EmptyString) = Ascii.eqb c d && String.eqb s EmptyString.
Proof. cbn. destruct (Ascii.eqb c d); [| reflexivity]. destruct s; reflexivity. Qed.

(** What is left after stripping does not end with a slash. *)
Lemma strip_slashes_no_slash s : endsWith "/" (strip_slashes s) = false.
Proof.
  induction s as [| c s IH]; [reflexivity |].
  rewrite strip_slashes_unfold. destruct (slashes (String c s)) eqn:Es; [reflexivity |].
  rewrite endsWith_unfold. change "/" with (String (Ascii.ascii_of_nat 47) EmptyString) at 1.
  rewrite eqb_one.
  destruct (Ascii.eqb c (Ascii.ascii_of_nat 47)) eqn:Ec; [| exact IH].
  destruct (String.eqb (strip_slashes s) EmptyString) eqn:Ee; [| exact IH].
  exfalso. apply String.eqb_eq in Ee. cbn [slashes] in Es. rewrite Ec in Es.
  destruct (strip_slashes_empty s Ee) as [-> | Hs]; [discriminate Es |].
  rewrite Hs, orb_true_r in Es. discriminate Es.
Qed.

Lemma app_nonempty (s t : string) : t <> EmptyString -> String.eqb (s ++ t) EmptyString = false.
Proof.
  intros Ht. destruct s as [| c s]; [| reflexivity]. rewrite nil_app.
  destruct t; [congruence | reflexivity].
Qed.

(** Appending to a string moves the test to what is appended. *)
Lemma endsWith_slash_app t :
  t <> EmptyString -> forall s, endsWith "/" (s ++ t) = endsWith "/" t.
Proof.
  intros Ht. induction s as [| c s IH]; [reflexivity |].
  rewrite cons_app, endsWith_unfold.
  change "/" with (String (Ascii.ascii_of_nat 47) EmptyString) at 1.
  rewrite eqb_one, (app_nonempty s t Ht), andb_false_r. exact IH.
Qed.

Lemma includes_false_cons sub c s :
  includes sub (String c s) = false -> includes sub s = false.
Proof.
  rewrite includes_unfold. destruct (String.prefix sub (String c s)); [discriminate | tauto].
Qed.

Lemma strip_api_path_unfold s :
  strip_api_path s
  = if String.eqb s "/api/v1" || String.eqb s "/api/v1/" then EmptyString
    else match s with
         | EmptyString => EmptyString
         | String c rest => String c (strip_api_path rest)
         end.
Proof. destruct s; reflexivity. Qed.

(** A URL without the path is left as it is. *)
Lemma strip_api_path_absent s : includes "/api/v1" s = false -> strip_api_path s = s.
Proof.
  induction s as [| c s IH]; intros H; [reflexivity |].
  rewrite strip_api_path_unfold.
  destruct (String.eqb (String c s) "/api/v1") eqn:E1.
  { apply String.eqb_eq in E1. rewrite E1 in H. discriminate H. }
  destruct (String.eqb (String c s) "/api/v1/") eqn:E2.
  { apply String.eqb_eq in E2. rewrite E2 in H. discriminate H. }
  cbn [orb]. rewrite (IH (includes_false_cons _ _ _ H)). reflexivity.
Qed.

Lemma string_app_assoc' (a b c : string) : ((a ++ b) ++ c = a ++ b ++ c)%string.
Proof. induction a as [| x a IH]; [reflexivity |]. rewrite !cons_app, IH. reflexivity. Qed.

Lemma replace_unfold pattern by_ s :
  replace pattern by_ s
  = if String.prefix pattern s then (by_ ++ JS.drop (String.length pattern) s)%string
    else match s with
         | EmptyString => EmptyString
         | String c rest => String c (replace pattern by_ rest)
         end.
Proof. destruct s; reflexivity. Qed.

Lemma truthy_replace pattern c by_ url :
  JS.truthy (Some url) = true -> JS.truthy (Some (replace pattern (String c by_) url)) = true.
Proof.
  intros Ht. rewrite replace_unfold. destruct (String.prefix pattern url); [reflexivity |].
  destruct url; [discriminate Ht | reflexivity].
Qed.

Lemma truthy_corrected url : JS.truthy (Some url) = true -> JS.truthy (Some (corrected url)) = true.
Proof.
  intros Ht. unfold corrected.
  destruct (includes "marketplace.whiz-cloud.com" url
            && negb (includes "apimarketplace.whiz-cloud.com" url)); [| exact Ht].
  apply truthy_replace. exact Ht.
Qed.

(** The two functions go on with the same URL. *)
Lemma getApiBaseUrl_dev url :
  JS.truthy (Some url) = true ->
  getApiBaseUrl (Some url) false
  = let envUrl := strip_slashes (corrected url) in
    let envUrl :=
      if negb (includes "/api/v1" envUrl) then (envUrl ++ "/api/v1")%string else envUrl in
    (envUrl ++ "/")%string.
Proof.
  intros Ht. pose proof (truthy_corrected url Ht) as Hc.
  unfold getApiBaseUrl, corrected in *. cbv zeta. rewrite Ht. cbn [andb].
  change (JS.str (Some url)) with url.
  destruct (includes "marketplace.whiz-cloud.com" url
            && negb (includes "apimarketplace.whiz-cloud.com" url));
    rewrite Hc;
    match goal with
    | |- context [strip_slashes (JS.str (Some ?u))] => change (JS.str (Some u)) with u
    end;
    match goal with
    | |- context [strip_slashes ?u] => set (stripped := strip_slashes u);
        pose proof (strip_slashes_no_slash u) as Hn; fold stripped in Hn
    end;
    (destruct (includes "/api/v1" stripped); cbn [negb];
     [rewrite Hn; reflexivity |
      rewrite (endsWith_slash_app "/api/v1" ltac:(discriminate) stripped); reflexivity]).
Qed.

Lemma getBaseUrl_set url :
  JS.truthy (Some url) = true ->
  getBaseUrl (Some url) = strip_slashes (strip_api_path (corrected url)).
Proof. intros Ht. unfold getBaseUrl, corrected. cbv zeta. rewrite Ht. reflexivity. Qed.

Lemma endsWith_slash_snoc s : endsWith "/" (s ++ "/") = true.
Proof. rewrite (endsWith_slash_app "/" ltac:(discriminate) s). reflexivity. Qed.

(** X20. Whatever the environment holds, the API base URL contains the path
    [/api/v1] and ends with one slash: it is some [base] that does not end
    with a slash, followed by a slash.  In a production build it is the
    relative path [/api/v1/], whatever [VITE_API_BASE_URL] holds. *)
Theorem getApiBaseUrl_has_the_path_and_one_final_slash VITE_API_BASE_URL PROD :
  let url := getApiBaseUrl VITE_API_BASE_URL PROD in
  includes "/api/v1" url = true
  /\ (exists base, url = (base ++ "/")%string /\ endsWith "/" base = false)
  /\ (PROD = true -> url = "/api/v1/").
Proof.
  intros url. subst url. destruct PROD.
  - split; [| split].
    + unfold getApiBaseUrl. cbv zeta. reflexivity.
    + exists "/api/v1". split; reflexivity.
    + reflexivity.
  - destruct (JS.truthy VITE_API_BASE_URL) eqn:Ht.
    + destruct VITE_API_BASE_URL as [env |]; [| discriminate Ht].
      rewrite (getApiBaseUrl_dev env Ht). cbv zeta.
      set (stripped := strip_slashes (corrected env)).
      pose proof (strip_slashes_no_slash (corrected env)) as Hn. fold stripped in Hn.
      destruct (includes "/api/v1" stripped) eqn:Ei; cbn [negb].
      * split; [apply includes_app_l; exact Ei |]. split; [| discriminate].
        exists stripped. split; [reflexivity | exact Hn].
      * split; [apply includes_app_l; apply includes_app_r |]. split; [| discriminate].
        exists (stripped ++ "/api/v1")%string. split; [reflexivity |].
        rewrite (endsWith_slash_app "/api/v1" ltac:(discriminate) stripped). reflexivity.
    + assert (Hd : getApiBaseUrl VITE_API_BASE_URL false = DEFAULT_API_BASE_WITH_PATH).
      { unfold getApiBaseUrl. cbv zeta. rewrite Ht. cbn [andb]. rewrite Ht. reflexivity. }
      rewrite Hd. split; [reflexivity |]. split; [| discriminate].
      exists "https://apimarketplace.whiz-cloud.com/api/v1". split; reflexivity.
Qed.

(** X21. The base URL never ends with a slash, so that a path that starts
    with one can be appended to it. *)
Theorem getBaseUrl_has_no_final_slash VITE_API_BASE_URL :
  endsWith "/" (getBaseUrl VITE_API_BASE_URL) = false.
Proof.
  destruct (JS.truthy VITE_API_BASE_URL) eqn:Ht.
  - destruct VITE_API_BASE_URL as [env |]; [| discriminate Ht].
    rewrite (getBaseUrl_set env Ht). apply strip_slashes_no_slash.
  - unfold getBaseUrl. cbv zeta. rewrite Ht. reflexivity.
Qed.

(** X22. In a development build the two URLs agree when [VITE_API_BASE_URL]
    is not set or does not hold the path: the API base URL is the base
    URL followed by [/api/v1/]. *)
Theorem getApiBaseUrl_is_getBaseUrl_with_the_path VITE_API_BASE_URL :
  (forall url, VITE_API_BASE_URL = Some url -> includes "/api/v1" (corrected url) = false) ->
  getApiBaseUrl VITE_API_BASE_URL false = (getBaseUrl VITE_API_BASE_URL ++ "/api/v1/")%string.
Proof.
  intros Hpath. destruct (JS.truthy VITE_API_BASE_URL) eqn:Ht.
  - destruct VITE_API_BASE_URL as [env |]; [| discriminate Ht].
    specialize (Hpath env eq_refl).
    rewrite (getApiBaseUrl_dev env Ht), (getBaseUrl_set env Ht). cbv zeta.
    rewrite (strip_api_path_absent _ Hpath).
    destruct (includes "/api/v1" (strip_slashes (corrected env))) eqn:Ei.
    + apply includes_strip_slashes in Ei. congruence.
    + cbn [negb]. rewrite string_app_assoc'. reflexivity.
  - unfold getApiBaseUrl, getBaseUrl. cbv zeta. rewrite Ht. cbn [andb]. rewrite Ht. reflexivity.
Qed.

Lemma getApiBaseUrl_is_getBaseUrl_with_the_path_witness :
  getApiBaseUrl (Some "https://marketplace.whiz-cloud.com//") false
  = (getBaseUrl (Some "https://marketplace.whiz-cloud.com//") ++ "/api/v1/")%string
  /\ getBaseUrl (Some "https://marketplace.whiz-cloud.com//")
     = "https://apimarketplace.whiz-cloud.com".
Proof.
  split; [| reflexivity].
  apply getApiBaseUrl_is_getBaseUrl_with_the_path.
  intros url Heq. injection Heq as <-. reflexivity.
Defined.

Lemma slashes_unfold c rest :
  slashes (String c rest)
  = Ascii.eqb c (Ascii.ascii_of_nat 47) && (String.eqb rest EmptyString || slashes rest).
Proof. reflexivity. Qed.

Lemma slashes_end s : slashes s = true -> endsWith "/" s = true.
Proof.
  induction s as [| c s IH]; [discriminate |]. rewrite slashes_unfold. intros H.
  apply andb_true_iff in H as [Hc Hs]. rewrite endsWith_unfold.
  change "/" with (String (Ascii.ascii_of_nat 47) EmptyString) at 1. rewrite eqb_one, Hc.
  destruct (String.eqb s EmptyString); [reflexivity |]. cbn [andb orb] in *. exact (IH Hs).
Qed.

Lemma endsWith_false_cons suffix c s :
  endsWith suffix (String c s) = false -> endsWith suffix s = false.
Proof.
  rewrite endsWith_unfold. destruct (String.eqb (String c s) suffix); [discriminate | tauto].
Qed.

(** There is nothing to strip from a URL without a final slash. *)
Lemma strip_slashes_id s : endsWith "/" s = false -> strip_slashes s = s.
Proof.
  induction s as [| c s IH]; intros H; [reflexivity |]. rewrite strip_slashes_unfold.
  destruct (slashes (String c s)) eqn:Es.
  - apply slashes_end in Es. congruence.
  - rewrite (IH (endsWith_false_cons _ _ _ H)). reflexivity.
Qed.

Lemma length_app (a b : string) :
  String.length (a ++ b) = String.length a + String.length b.
Proof. induction a as [| c a IH]; [reflexivity |]. rewrite cons_app. cbn. rewrite IH. reflexivity. Qed.

Lemma strip_api_path_app base tail :
  tail = "/api/v1" \/ tail = "/api/v1/" -> strip_api_path (base ++ tail) = base.
Proof.
  intros Htail. induction base as [| c base IH].
  - rewrite nil_app. destruct Htail as [-> | ->]; reflexivity.
  - rewrite cons_app, strip_api_path_unfold.
    destruct (String.eqb (String c (base ++ tail)) "/api/v1") eqn:E1.
    { apply String.eqb_eq in E1. apply (f_equal String.length) in E1.
      cbn in E1. rewrite length_app in E1. destruct Htail as [-> | ->]; cbn in E1; lia. }
    destruct (String.eqb (String c (base ++ tail)) "/api/v1/") eqn:E2.
    { apply String.eqb_eq in E2. pose proof (f_equal String.length E2) as Hl.
      cbn in Hl. rewrite length_app in Hl.
      destruct Htail as [-> | ->]; cbn in Hl; [| lia].
      destruct base as [| c' base]; [| cbn in Hl; lia].
      rewrite nil_app in E2. discriminate E2. }
    cbn [orb]. rewrite IH. reflexivity.
Qed.

Lemma slashes_snoc s : slashes (s ++ "/") = true -> s = EmptyString \/ slashes s = true.
Proof.
  induction s as [| c s IH]; [left; reflexivity |]. rewrite cons_app, !slashes_unfold.
  intros H. apply andb_true_iff in H as [Hc Hs]. right. rewrite Hc. cbn [andb].
  rewrite (app_nonempty s "/" ltac:(discriminate)) in Hs. cbn [orb] in Hs.
  destruct (IH Hs) as [-> | ->]; [reflexivity | apply orb_true_r].
Qed.

(** One final slash is stripped. *)
Lemma strip_slashes_snoc s : endsWith "/" s = false -> strip_slashes (s ++ "/") = s.
Proof.
  induction s as [| c s IH]; intros H; [reflexivity |].
  rewrite cons_app, strip_slashes_unfold.
  destruct (slashes (String c (s ++ "/"))) eqn:Es.
  - exfalso. change (String c (s ++ "/")) with (String c s ++ "/")%string in Es.
    destruct (slashes_snoc _ Es) as [Hnil | Hs]; [discriminate Hnil |].
    apply slashes_end in Hs. congruence.
  - rewrite (IH (endsWith_false_cons _ _ _ H)). reflexivity.
Qed.

(** X23. When [VITE_API_BASE_URL] is a base without final slash followed by
    [/api/v1] or [/api/v1/], the base URL is that base and the API base
    URL is the base followed by [/api/v1/]. *)
Theorem base_url_and_api_base_url_of_a_full_path url base :
  (corrected url = base ++ "/api/v1" \/ corrected url = base ++ "/api/v1/")%string ->
  endsWith "/" base = false ->
  getBaseUrl (Some url) = base
  /\ getApiBaseUrl (Some url) false = (base ++ "/api/v1/")%string.
Proof.
  intros Hurl Hbase.
  assert (Ht : JS.truthy (Some url) = true).
  { destruct url as [| c url]; [| reflexivity]. exfalso.
    change (corrected EmptyString) with EmptyString in Hurl.
    destruct Hurl as [H | H]; apply (f_equal String.length) in H;
      rewrite length_app in H; cbn in H; lia. }
  rewrite (getBaseUrl_set url Ht), (getApiBaseUrl_dev url Ht). cbv zeta. split.
  - destruct Hurl as [-> | ->]; (rewrite strip_api_path_app; [| tauto]);
      apply strip_slashes_id; exact Hbase.
  - assert (Hs : strip_slashes (corrected url) = (base ++ "/api/v1")%string).
    { destruct Hurl as [-> | ->].
      - apply strip_slashes_id.
        rewrite (endsWith_slash_app "/api/v1" ltac:(discriminate) base). reflexivity.
      - change "/api/v1/" with ("/api/v1" ++ "/")%string.
        rewrite <- string_app_assoc'. apply strip_slashes_snoc.
        rewrite (endsWith_slash_app "/api/v1" ltac:(discriminate) base). reflexivity. }
    rewrite Hs, includes_app_r. cbn [negb]. rewrite string_app_assoc'. reflexivity.
Qed.

Lemma base_url_and_api_base_url_of_a_full_path_witness :
  getBaseUrl (Some "http://localhost:3000/api/v1/") = "http://localhost:3000"
  /\ getApiBaseUrl (Some "http://localhost:3000/api/v1/") false
     = "http://localhost:3000/api/v1/".
Proof.
  apply (base_url_and_api_base_url_of_a_full_path
           "http://localhost:3000/api/v1/" "http://localhost:3000");
    [right; reflexivity | reflexivity].
Defined.

(** ** The Resend settings of the e-mail helper module *)

Import JSString ResendSettings.

Lemma fromConfigFile_find exists_ read field paths :
  fromConfigFile exists_ read field paths
  = match List.find exists_ paths with
    | Some configPath =>
        match read configPath with
        | Some config => if JS.truthy (field config) then field config else None
        | None => None
        end
    | None => None
    end.
Proof.
  induction paths as [| configPath later IH]; [reflexivity |].
  cbn [fromConfigFile List.find]. destruct (exists_ configPath); [reflexivity | exact IH].
Qed.

(** X24. Without a usable [RESEND_API_KEY] in the environment, the key comes
    from the first candidate file that exists, and from no other: when
    that file cannot be read or parsed, or holds no key, the answer is
    [null] whatever the later candidates hold. *)
Theorem getResendApiKey_reads_the_first_existing_file_only
    possiblePaths fs_existsSync read_json RESEND_API_KEY :
  JS.truthy RESEND_API_KEY = false \/ JS.trim (JS.str RESEND_API_KEY) = EmptyString ->
  getResendApiKey possiblePaths fs_existsSync read_json RESEND_API_KEY
  = match List.find fs_existsSync possiblePaths with
    | Some configPath =>
        match read_json configPath with
        | Some config =>
            if JS.truthy (resend_apiKey config) then resend_apiKey config else None
        | None => None
        end
    | None => None
    end.
Proof.
  intros Henv. unfold getResendApiKey.
  assert (Hguard : JS.truthy RESEND_API_KEY
                   && negb (String.eqb (JS.trim (JS.str RESEND_API_KEY)) EmptyString) = false).
  { destruct Henv as [-> | ->]; [reflexivity | apply andb_false_r]. }
  rewrite Hguard. apply fromConfigFile_find.
Qed.

Lemma getResendApiKey_reads_the_first_existing_file_only_witness :
  getResendApiKey three_paths two_files_exist two_files (Some "   ") = None
  /\ List.find two_files_exist three_paths = Some "/app/dist/src/config/base.json"
  /\ two_files "/app/config/base.json" = Some project_config.
Proof.
  split; [| split; reflexivity].
  rewrite (getResendApiKey_reads_the_first_existing_file_only
             three_paths two_files_exist two_files (Some "   ") (or_intror eq_refl)).
  reflexivity.
Defined.

(** *** White space at both ends *)

Lemma trimStart_unfold c rest :
  JS.trimStart (String c rest)
  = if JS.is_space c then JS.trimStart rest
    else
      match rest with
      | EmptyString => String c rest
      | String c1 rest1 =>
          if JS.is_space2 c c1 then JS.trimStart rest1
          else
            match rest1 with
            | EmptyString => String c rest
            | String c2 rest2 =>
                if JS.is_space3 c c1 c2 then JS.trimStart rest2 else String c rest
            end
      end.
Proof. reflexivity. Qed.

(** What [trimStart] does to a string: nothing, or what it does to a
    string that is shorter by one character of white space. *)
Lemma trimStart_cases s :
  JS.trimStart s = s
  \/ exists white s',
       s = (white ++ s')%string /\ white <> EmptyString
       /\ JS.trimStart s = JS.trimStart s'
       /\ forall tail, JS.trimStart (white ++ tail) = JS.trimStart tail.
Proof.
  destruct s as [| c rest]; [left; reflexivity |].
  rewrite trimStart_unfold. destruct (JS.is_space c) eqn:E1.
  { right. exists (String c EmptyString), rest. split; [reflexivity |].
    split; [discriminate |]. split; [reflexivity |].
    intros tail. change (String c EmptyString ++ tail)%string with (String c tail).
    rewrite trimStart_unfold, E1. reflexivity. }
  destruct rest as [| c1 rest1]; [left; reflexivity |].
  destruct (JS.is_space2 c c1) eqn:E2.
  { right. exists (String c (String c1 EmptyString)), rest1. split; [reflexivity |].
    split; [discriminate |]. split; [reflexivity |].
    intros tail.
    change (String c (String c1 EmptyString) ++ tail)%string with (String c (String c1 tail)).
    rewrite trimStart_unfold, E1, E2. reflexivity. }
  destruct rest1 as [| c2 rest2]; [left; reflexivity |].
  destruct (JS.is_space3 c c1 c2) eqn:E3; [| left; reflexivity].
  right. exists (String c (String c1 (String c2 EmptyString))), rest2. split; [reflexivity |].
  split; [discriminate |]. split; [reflexivity |].
  intros tail.
  change (String c (String c1 (String c2 EmptyString)) ++ tail)%string
    with (String c (String c1 (String c2 tail))).
  rewrite trimStart_unfold, E1, E2, E3. reflexivity.
Qed.

Lemma length_white_app (white s : string) :
  white <> EmptyString -> String.length s < String.length (white ++ s).
Proof. intros H. rewrite length_app. destruct white; [congruence | simpl; lia]. Qed.

(** Induction on the characters of white space that [trimStart] takes
    off. *)
Lemma trimStart_ind (P : string -> Prop) :
  (forall s, JS.trimStart s = s -> P s) ->
  (forall white s,
     white <> EmptyString ->
     JS.trimStart (white ++ s) = JS.trimStart s ->
     (forall tail, JS.trimStart (white ++ tail) = JS.trimStart tail) ->
     P s -> P (white ++ s)%string) ->
  forall s, P s.
Proof.
  intros Hstop Hstep s.
  remember (String.length s) as n eqn:Hn. revert s Hn.
  induction n as [n IH] using lt_wf_ind. intros s Hn.
  destruct (trimStart_cases s) as [Hs | (white & s' & -> & Hw & Heq & Htail)].
  - apply Hstop. exact Hs.
  - apply Hstep; [exact Hw | exact Heq | exact Htail |].
    apply (IH (String.length s')); [| reflexivity].
    subst n. apply length_white_app. exact Hw.
Qed.

Lemma trimStart_length s : String.length (JS.trimStart s) <= String.length s.
Proof.
  induction s as [s Hs | white s Hw Heq _ IH] using trimStart_ind.
  - rewrite Hs. reflexivity.
  - rewrite Heq. pose proof (length_white_app white s Hw). lia.
Qed.

Lemma trimStart_twice s : JS.trimStart (JS.trimStart s) = JS.trimStart s.
Proof.
  induction s as [s Hs | white s _ Heq _ IH] using trimStart_ind.
  - rewrite !Hs. reflexivity.
  - rewrite Heq. exact IH.
Qed.

(** White space in front of a string does not count. *)
Lemma trimStart_blank_app x y :
  JS.blank x = true -> JS.trimStart (x ++ y) = JS.trimStart y.
Proof.
  induction x as [x Hx | white x Hw Heq Htail IH] using trimStart_ind; intros Hb.
  - unfold JS.blank in Hb. rewrite Hx in Hb. apply String.eqb_eq in Hb. subst x. reflexivity.
  - rewrite string_app_assoc', Htail. apply IH.
    unfold JS.blank in *. rewrite <- Heq. exact Hb.
Qed.

Lemma trimEnd_unfold c rest :
  JS.trimEnd (String c rest)
  = if JS.blank (String c rest) then EmptyString else String c (JS.trimEnd rest).
Proof. reflexivity. Qed.

(** What [trimEnd] cuts off is white space. *)
Lemma trimEnd_split s : exists y, s = (JS.trimEnd s ++ y)%string /\ JS.blank y = true.
Proof.
  induction s as [| c s (y & Hy & Hb)]; [exists EmptyString; split; reflexivity |].
  rewrite trimEnd_unfold. destruct (JS.blank (String c s)) eqn:E.
  - exists (String c s). split; [reflexivity | exact E].
  - exists y. split; [| exact Hb]. rewrite cons_app, <- Hy. reflexivity.
Qed.

Lemma blank_trimEnd s : JS.blank (JS.trimEnd s) = JS.blank s.
Proof.
  destruct (trimEnd_split s) as (y & Hy & Hb).
  destruct (JS.blank (JS.trimEnd s)) eqn:E.
  - symmetry. rewrite Hy. unfold JS.blank. rewrite (trimStart_blank_app _ y E). exact Hb.
  - destruct (JS.blank s) eqn:Es; [| reflexivity].
    destruct s as [| c s]; [discriminate E |].
    rewrite trimEnd_unfold, Es in E. discriminate E.
Qed.

Lemma trimEnd_twice s : JS.trimEnd (JS.trimEnd s) = JS.trimEnd s.
Proof.
  induction s as [| c s IH]; [reflexivity |].
  pose proof (blank_trimEnd (String c s)) as Hb.
  rewrite trimEnd_unfold in *. destruct (JS.blank (String c s)) eqn:E; [reflexivity |].
  rewrite trimEnd_unfold, Hb, IH. reflexivity.
Qed.

(** Cutting the end of a string that starts with no white space leaves
    a string that starts with none. *)
Lemma trimStart_trimEnd t : JS.trimStart t = t -> JS.trimStart (JS.trimEnd t) = JS.trimEnd t.
Proof.
  intros Ht. destruct (trimStart_cases (JS.trimEnd t)) as [H | (white & s' & Hs & Hw & _ & Htail)];
    [exact H |].
  exfalso. destruct (trimEnd_split t) as (y & Hy & _).
  rewrite Hs, string_app_assoc' in Hy.
  pose proof (trimStart_length (s' ++ y)) as Hlen.
  rewrite <- (Htail (s' ++ y)%string), <- Hy, Ht, Hy in Hlen.
  pose proof (length_white_app white (s' ++ y) Hw). lia.
Qed.

Lemma trim_twice s : JS.trim (JS.trim s) = JS.trim s.
Proof.
  unfold JS.trim.
  rewrite (trimStart_trimEnd _ (trimStart_twice s)). apply trimEnd_twice.
Qed.

(** X25. The helpers give no empty setting.  The key is [null] or a string
    that is not empty, the sender address is never empty, and a key of
    the environment that is more than white space is the key, without
    the white space around it, whatever the configuration files hold,
    and it passes the test that guards the construction of the client. *)
Theorem resend_settings_are_never_empty
    possiblePaths fs_existsSync read_json RESEND_API_KEY RESEND_FROM_EMAIL :
  (forall key,
     getResendApiKey possiblePaths fs_existsSync read_json RESEND_API_KEY = Some key ->
     key <> EmptyString)
  /\ getResendFromEmail possiblePaths fs_existsSync read_json RESEND_FROM_EMAIL <> EmptyString
  /\ (forall value,
        RESEND_API_KEY = Some value -> JS.trim value <> EmptyString ->
        getResendApiKey possiblePaths fs_existsSync read_json RESEND_API_KEY
        = Some (JS.trim value)
        /\ JS.trim (JS.trim value) = JS.trim value
        /\ hasClient possiblePaths fs_existsSync read_json RESEND_API_KEY = true).
Proof.
  assert (Hfile : forall field key,
            fromConfigFile fs_existsSync read_json field possiblePaths = Some key ->
            key <> EmptyString).
  { intros field key. rewrite fromConfigFile_find.
    destruct (List.find fs_existsSync possiblePaths) as [configPath |]; [| discriminate].
    destruct (read_json configPath) as [config |]; [| discriminate].
    destruct (JS.truthy (field config)) eqn:Ht; [| discriminate].
    intros Hk. rewrite Hk in Ht. intros ->. discriminate Ht. }
  split; [| split].
  - intros key. unfold getResendApiKey.
    destruct (JS.truthy RESEND_API_KEY
              && negb (String.eqb (JS.trim (JS.str RESEND_API_KEY)) EmptyString)) eqn:E.
    + intros Hk. injection Hk as <-. apply andb_true_iff in E as [_ E].
      intros Hempty. rewrite Hempty in E. discriminate E.
    + apply Hfile.
  - unfold getResendFromEmail.
    destruct (JS.truthy RESEND_FROM_EMAIL
              && negb (String.eqb (JS.trim (JS.str RESEND_FROM_EMAIL)) EmptyString)) eqn:E.
    + apply andb_true_iff in E as [_ E]. intros Hempty. rewrite Hempty in E. discriminate E.
    + destruct (fromConfigFile fs_existsSync read_json resend_fromEmail possiblePaths)
        as [fromEmail |] eqn:Hf; [exact (Hfile _ _ Hf) | discriminate].
  - intros value -> Hvalue.
    assert (Hkey : getResendApiKey possiblePaths fs_existsSync read_json (Some value)
                   = Some (JS.trim value)).
    { unfold getResendApiKey. change (JS.str (Some value)) with value.
      assert (Ht : JS.truthy (Some value) = true).
      { destruct value; [exfalso; apply Hvalue; reflexivity | reflexivity]. }
      rewrite Ht. apply String.eqb_neq in Hvalue. rewrite Hvalue. reflexivity. }
    split; [exact Hkey |]. split; [apply trim_twice |].
    unfold hasClient. cbv zeta. rewrite Hkey. change (JS.str (Some (JS.trim value))) with (JS.trim value).
    rewrite trim_twice. apply String.eqb_neq in Hvalue. rewrite Hvalue.
    unfold JS.truthy. rewrite Hvalue. reflexivity.
Qed.

(** ** Listing the requests *)

Import QuotationRequestLists.

Lemma includes_split sub : forall s,
  includes sub s = true -> exists x y, s = (x ++ sub ++ y)%string.
Proof.
  induction s as [| c s IH]; intros H; rewrite includes_unfold in H.
  - destruct (String.prefix sub EmptyString) eqn:E; [| discriminate H].
    exists EmptyString, (JS.drop (String.length sub) EmptyString). apply prefix_split. exact E.
  - destruct (String.prefix sub (String c s)) eqn:E.
    + exists EmptyString, (JS.drop (String.length sub) (String c s)). apply prefix_split. exact E.
    + destruct (IH H) as (x & y & ->). exists (String c x), y. reflexivity.
Qed.

Lemma includes_mid sub y : forall x, includes sub (x ++ sub ++ y) = true.
Proof.
  induction x as [| c x IH].
  - rewrite nil_app. apply includes_prefix. apply prefix_app.
  - rewrite cons_app. apply includes_cons. exact IH.
Qed.

(** The first test of the filter is implied by the second. *)
Lemma via_placeholder_is_placeholder s :
  includes "via.placeholder.com" s = true -> includes "placeholder" s = true.
Proof.
  intros H. destruct (includes_split _ _ H) as (x & y & ->).
  change "via.placeholder.com" with ("via." ++ "placeholder" ++ ".com")%string.
  rewrite !string_app_assoc', <- (string_app_assoc' x "via.").
  apply includes_mid.
Qed.

Lemma keep_url_spec url :
  keep_url url = true
  <-> exists s, url = Some s /\ s <> EmptyString /\ includes "placeholder" s = false.
Proof.
  unfold keep_url. destruct url as [s |].
  - destruct (String.eqb s EmptyString) eqn:E.
    + apply String.eqb_eq in E. split; [discriminate |].
      intros (s' & Hs & Hne & _). injection Hs as <-. contradiction.
    + apply String.eqb_neq in E. split.
      * intros H. apply andb_true_iff in H as [_ H]. apply negb_true_iff in H. eauto.
      * intros (s' & Hs & _ & Hp). injection Hs as <-. rewrite Hp.
        destruct (includes "via.placeholder.com" s) eqn:Ev; [| reflexivity].
        apply via_placeholder_is_placeholder in Ev. congruence.
  - split; [discriminate |]. intros (s & Hs & _). discriminate Hs.
Qed.

(** X26. The images [findAll] and [findAllForAdmin] return for a request hold
    no empty string and no URL with "placeholder" in it.  When the
    request has an array under [referenceImages], even an empty one, the
    images are the strings of that array that are not empty and hold no
    "placeholder", in their order, whatever is stored under the other two
    names; a value that is no array gives no image. *)
Theorem listed_images_hold_no_placeholder quotation :
  let images := processImages quotation in
  Forall (fun url => url <> EmptyString /\ includes "placeholder" url = false) images
  /\ (forall urls,
        raw_referenceImages quotation = Array urls ->
        images = omap (fun url =>
                         match url with
                         | Some s =>
                             if negb (String.eqb s EmptyString)
                                && negb (includes "placeholder" s)
                             then Some s else None
                         | None => None
                         end) urls)
  /\ (raw_referenceImages quotation = Other -> images = []).
Proof.
  intros images. subst images.
  assert (Hfilter : forall urls,
            Forall (fun url => url <> EmptyString /\ includes "placeholder" url = false)
              (omap (fun url => if keep_url url then url else None) urls)).
  { induction urls as [| url urls IH]; [constructor |]. cbn [omap list_omap].
    destruct (keep_url url) eqn:Ek; [| exact IH].
    apply keep_url_spec in Ek as (s & -> & Hne & Hp). constructor; [split; assumption | exact IH]. }
  split; [| split].
  - unfold processImages. cbv zeta.
    destruct (field_or (raw_referenceImages quotation)
                (field_or (raw_referenceimages quotation)
                   (field_or (raw_reference_images quotation) (Array []))));
      [constructor | apply Hfilter | constructor].
  - intros urls Hurls. unfold processImages. cbv zeta. rewrite Hurls. cbn [field_or].
    clear Hurls. induction urls as [| url urls IH]; [reflexivity |].
    cbn [omap list_omap] in *. rewrite IH.
    destruct url as [s |]; [| reflexivity].
    destruct (keep_url (Some s)) eqn:Ek.
    + apply keep_url_spec in Ek as (s' & Hs & Hne & Hp). injection Hs as <-.
      apply String.eqb_neq in Hne. rewrite Hne, Hp. reflexivity.
    + destruct (negb (String.eqb s EmptyString) && negb (includes "placeholder" s)) eqn:E;
        [| reflexivity].
      apply andb_true_iff in E as [Hne Hp]. apply negb_true_iff in Hne, Hp.
      apply String.eqb_neq in Hne.
      assert (Hk : keep_url (Some s) = true) by (apply keep_url_spec; eauto).
      congruence.
  - intros Hother. unfold processImages. cbv zeta. rewrite Hother. reflexivity.
Qed.

Lemma processAndLog_run quotations d w :
  processAndLog quotations d w
  = mkRun (Returned (map processed_quotation quotations)) w
      (map (fun quotation =>
              LogObj "Quotation Request Service - Processing quotation:"
                [("id", raw_id quotation)]) quotations).
Proof.
  induction quotations as [| quotation later IH]; [reflexivity |].
  cbn [processAndLog]. unfold mbind, M_bind.
  erewrite run_bind_returned by reflexivity.
  erewrite run_bind_returned by exact IH.
  unfold prepend. cbn. rewrite app_nil_r. reflexivity.
Qed.

Lemma with_search_run RegExp_error where_ search d w :
  (forall source, searched search = Some source -> RegExp_error source = None) ->
  with_search RegExp_error where_ search d w
  = mkRun (Returned {| where_isDeleted := where_isDeleted where_;
                       where_userId := where_userId where_;
                       where_or_regex :=
                         match searched search with
                         | Some source => Some source
                         | None => where_or_regex where_
                         end |}) w [].
Proof.
  intros Hvalid. unfold with_search, searched in *.
  destruct (JS.truthy search && Nat.ltb 0 (JS.length (JS.trim (JS.str search)))).
  - rewrite (Hvalid _ eq_refl). reflexivity.
  - destruct where_. reflexivity.
Qed.

(** The run of [findAll] for a user, up to the answer of the query. *)
Lemma findAll_for_a_user repo_findAndCount repo_find RegExp_error
    page limit userId search rows count d w w1 t1 :
  JS.truthy (Some userId) = true ->
  (forall source, searched search = Some source -> RegExp_error source = None) ->
  repo_findAndCount (query_of userId search page limit) d w
  = mkRun (Returned (rows, count)) w1 t1 ->
  exists whereLog,
    findAll repo_findAndCount repo_find RegExp_error page limit (Some userId) search d w
    = prepend (whereLog :: t1)
        (match rows with
         | [] =>
             try_catch
               (allQuotations ← repo_find any_five;
                emit (LogObj
                        "Quotation Request Service - Sample quotations (first 5, any userId):"
                        (map (fun q => ("userId", JS.str (raw_userId q))) allQuotations));;
                mret {| data := []; total := count; page := page; limit := limit |})
               (fun error =>
                  throw (Err ("Failed to fetch quotation requests: " ++ message error)))
               d w1
         | _ =>
             mkRun (Returned {| data := map processed_quotation rows; total := count;
                                page := page; limit := limit |}) w1
               (LogObj "Quotation Request Service - Sample raw data from DB:"
                  (map (fun q => ("id", raw_id q)) (take 2 rows))
                  :: map (fun quotation =>
                            LogObj "Quotation Request Service - Processing quotation:"
                              [("id", raw_id quotation)]) rows
                  ++ [LogObj "Quotation Request Service - Sample userIds from results:"
                        (map (fun q => ("userId", JS.str (raw_userId (p_quotation q))))
                           (take 3 (map processed_quotation rows)))])
         end).
Proof.
  intros Huser Hvalid Hquery. eexists.
  unfold findAll. cbv zeta. rewrite Huser. unfold mbind, M_bind.
  erewrite run_try_bind_returned by (apply with_search_run; exact Hvalid).
  cbn [where_isDeleted where_userId where_or_regex].
  replace (match searched search with Some source => Some source | None => None end)
    with (searched search) by (destruct (searched search); reflexivity).
  erewrite run_try_bind_returned by reflexivity.
  change (JS.str (Some userId)) with userId.
  fold (query_of userId search page limit).
  erewrite run_try_bind_returned by exact Hquery.
  rewrite !prepend_prepend. cbn [app]. f_equal.
  destruct rows as [| row rows].
  - cbn [length Nat.ltb Nat.leb].
    erewrite run_try_bind_returned by reflexivity.
    erewrite run_try_bind_returned by reflexivity.
    cbn [length Nat.ltb Nat.leb]. rewrite !prepend_prepend, prepend_nil.
    unfold try_catch, bind.
    unfold emit, mret, M_ret, ret, throw, any_five.
    destruct (repo_find _ d w1) as [[sample | e |] w2 t2]; cbn;
      rewrite ?app_nil_r, <- ?app_assoc; reflexivity.
  - cbn [length Nat.ltb Nat.leb].
    erewrite run_try_bind_returned by reflexivity.
    erewrite run_try_bind_returned by apply processAndLog_run.
    cbn [length map Nat.ltb Nat.leb].
    erewrite run_try_bind_returned by reflexivity.
    unfold try_catch, prepend. cbn. rewrite ?app_nil_r, <- ?app_assoc. reflexivity.
Qed.

Lemma ext_calls_app t t' : ext_calls (t ++ t') = ext_calls t ++ ext_calls t'.
Proof. apply omap_app. Qed.

Lemma ext_calls_log label fields t : ext_calls (LogObj label fields :: t) = ext_calls t.
Proof. reflexivity. Qed.

Lemma processing_logs_are_no_calls (rows : list RawQuotation) :
  ext_calls (map (fun quotation =>
                    LogObj "Quotation Request Service - Processing quotation:"
                      [("id", raw_id quotation)]) rows) = [].
Proof. induction rows as [| row rows IH]; [reflexivity | exact IH]. Qed.

(** X27. [findAll] lists the requests of the user and of no one else.
    Without a user it gives the empty page and does nothing: no query
    reaches the repository and nothing is logged.  For a user it asks the
    repository for the requests of that user that are not deleted,
    [(page - 1) * limit] of them skipped and [limit] taken, newest first;
    when the answer has rows, the page holds these rows in their order,
    each with its filtered images, together with the count the repository
    gave, which the filter does not change, and nothing else is asked of
    the repository. *)
Theorem findAll_lists_the_requests_of_the_user_only
    repo_findAndCount repo_find RegExp_error page limit userId search d w :
  let r := findAll repo_findAndCount repo_find RegExp_error page limit userId search d w in
  (JS.truthy userId = false ->
   r = mkRun (Returned {| data := []; total := 0; page := page; limit := limit |}) w [])
  /\ (forall user rows count,
        userId = Some user ->
        JS.truthy userId = true ->
        (forall source, searched search = Some source -> RegExp_error source = None) ->
        outcome (repo_findAndCount (query_of user search page limit) d w)
        = Returned (rows, count) ->
        rows <> [] ->
        outcome r = Returned {| data := map processed_quotation rows; total := count;
                                page := page; limit := limit |}
        /\ ext_calls (trace r)
           = ext_calls (trace (repo_findAndCount (query_of user search page limit) d w))).
Proof.
  intros r. subst r. split.
  { intros Huser. unfold findAll. cbv zeta. rewrite Huser. reflexivity. }
  intros user rows count -> Huser Hvalid Hquery Hrows.
  destruct (repo_findAndCount (query_of user search page limit) d w) as [o w1 t1] eqn:Hrun.
  cbn [outcome trace] in *. subst o.
  destruct (findAll_for_a_user repo_findAndCount repo_find RegExp_error page limit user
              search rows count d w w1 t1 Huser Hvalid Hrun) as [whereLog Hall].
  assert (Hlog : exists label fields, whereLog = LogObj label fields).
  { revert Hall. unfold findAll. cbv zeta. rewrite Huser. unfold mbind, M_bind.
    erewrite run_try_bind_returned by (apply with_search_run; exact Hvalid).
    erewrite run_try_bind_returned by reflexivity.
    intros Hall. apply (f_equal trace) in Hall. unfold prepend in Hall.
    cbn [trace app] in Hall. injection Hall as <- _. eauto. }
  destruct Hlog as (label & fields & ->).
  rewrite Hall. destruct rows as [| row rows]; [congruence |].
  unfold prepend. cbn [outcome trace]. split; [reflexivity |].
  rewrite ext_calls_app, !ext_calls_log, ext_calls_app.
  rewrite processing_logs_are_no_calls. cbn. rewrite app_nil_r. reflexivity.
Qed.

Lemma findAll_lists_the_requests_of_the_user_only_witness :
  findAll one_row no_sample every_pattern 1%float 10%float None None bare start
  = mkRun (Returned {| data := []; total := 0; page := 1%float; limit := 10%float |}) start []
  /\ outcome (findAll one_row no_sample every_pattern 1%float 10%float (Some "user-17") None bare start)
     = Returned {| data := [{| p_quotation := with_placeholder;
                               p_referenceImages := ["https://cdn.example.org/uploads/a.png";
                                                     "https://cdn.example.org/uploads/b.png"] |}];
                   total := 1; page := 1%float; limit := 10%float |}.
Proof.
  split.
  - apply (proj1 (findAll_lists_the_requests_of_the_user_only
                    one_row no_sample every_pattern 1%float 10%float None None bare start)).
    reflexivity.
  - apply (proj2 (findAll_lists_the_requests_of_the_user_only
                    one_row no_sample every_pattern 1%float 10%float (Some "user-17") None bare start)
             "user-17" [with_placeholder] 1%N eq_refl eq_refl ltac:(discriminate) eq_refl
             ltac:(discriminate)).
Defined.

(** X28. When the page of a user is empty, [findAll] makes a second query,
    for five requests of any user, only to log them.  The listing then
    depends on that query: it fails when the query fails and waits as long
    as the query waits.  What the query reads is not returned. *)
Theorem findAll_of_an_empty_page_depends_on_a_second_query
    repo_findAndCount repo_find RegExp_error page limit userId search count d w :
  JS.truthy (Some userId) = true ->
  (forall source, searched search = Some source -> RegExp_error source = None) ->
  outcome (repo_findAndCount (query_of userId search page limit) d w)
  = Returned ([], count) ->
  let w1 := final (repo_findAndCount (query_of userId search page limit) d w) in
  let r := findAll repo_findAndCount repo_find RegExp_error page limit (Some userId) search d w in
  (forall e, outcome (repo_find any_five d w1) = Thrown e ->
     outcome r = Thrown (Err ("Failed to fetch quotation requests: " ++ message e)))
  /\ (outcome (repo_find any_five d w1) = Pending -> outcome r = Pending)
  /\ (forall sample, outcome (repo_find any_five d w1) = Returned sample ->
        outcome r = Returned {| data := []; total := count; page := page; limit := limit |}).
Proof.
  intros Huser Hvalid Hquery w1 r. subst w1 r.
  destruct (repo_findAndCount (query_of userId search page limit) d w) as [o w1 t1] eqn:Hrun.
  cbn [outcome final] in *. subst o.
  destruct (findAll_for_a_user repo_findAndCount repo_find RegExp_error page limit userId
              search [] count d w w1 t1 Huser Hvalid Hrun) as [whereLog Hall].
  rewrite Hall. unfold prepend, try_catch, mbind, M_bind, bind, emit, mret, M_ret, ret, throw.
  cbn [outcome].
  destruct (repo_find any_five d w1) as [[sample | e |] w2 t2]; cbn [outcome final trace].
  - split; [discriminate |]. split; [discriminate |]. intros ? Heq. reflexivity.
  - split; [intros ? Heq; injection Heq as <-; reflexivity |]. split; discriminate.
  - split; [discriminate |]. split; [reflexivity | discriminate].
Qed.

Lemma findAll_of_an_empty_page_depends_on_a_second_query_witness :
  outcome (findAll one_row no_sample every_pattern 1%float 10%float (Some "user-99") None bare start)
  = Thrown (Err ("Failed to fetch quotation requests: "
                   ++ "MongoServerSelectionError: timed out")).
Proof.
  apply (proj1 (findAll_of_an_empty_page_depends_on_a_second_query
                  one_row no_sample every_pattern 1%float 10%float "user-99" None 0%N bare start
                  eq_refl ltac:(discriminate) eq_refl)
           (Err "MongoServerSelectionError: timed out")).
  reflexivity.
Defined.

(** X29. The search is compiled as a regular expression, as it was typed.
    When it is no regular expression, both listings fail with the syntax
    error under their prefix, before anything is asked of the repository
    or logged. *)
Theorem a_search_that_is_no_pattern_fails_the_listing
    repo_findAndCount repo_find RegExp_error page limit userId search source e d w :
  searched search = Some source ->
  RegExp_error source = Some e ->
  (JS.truthy userId = true ->
   findAll repo_findAndCount repo_find RegExp_error page limit userId search d w
   = mkRun (Thrown (Err ("Failed to fetch quotation requests: " ++ message e))) w [])
  /\ findAllForAdmin repo_findAndCount RegExp_error page limit search d w
     = mkRun (Thrown (Err ("Failed to fetch quotation requests: " ++ message e))) w [].
Proof.
  intros Hsearch Herror.
  assert (Hws : forall where_,
            with_search RegExp_error where_ search d w = mkRun (Thrown e) w []).
  { intros where_. unfold with_search, searched in *.
    destruct (JS.truthy search && Nat.ltb 0 (JS.length (JS.trim (JS.str search))));
      [| discriminate Hsearch].
    injection Hsearch as <-. rewrite Herror. reflexivity. }
  split.
  - intros Huser. unfold findAll. cbv zeta. rewrite Huser. unfold mbind, M_bind.
    erewrite run_try_thrown.
    2:{ erewrite run_bind_thrown by apply Hws. reflexivity. }
    reflexivity.
  - unfold findAllForAdmin. cbv zeta. unfold mbind, M_bind.
    erewrite run_try_thrown.
    2:{ erewrite run_bind_thrown by apply Hws. reflexivity. }
    reflexivity.
Qed.

Lemma a_search_that_is_no_pattern_fails_the_listing_witness :
  findAllForAdmin one_row no_parenthesis 1%float 10%float (Some "(") bare start
  = mkRun (Thrown (Err ("Failed to fetch quotation requests: "
                          ++ "Invalid regular expression: /(/: Unterminated group")))
      start [].
Proof.
  apply (proj2 (a_search_that_is_no_pattern_fails_the_listing
                  one_row no_sample no_parenthesis 1%float 10%float None (Some "(") "("
                  (Err "Invalid regular expression: /(/: Unterminated group") bare start
                  eq_refl eq_refl)).
Defined.
